(** * stackwalk.c: walking the stack and looking up code addresses

    A shallow embedding of [src/stackwalk.c] and the properties of its
    capture, snapshot, symbolication and printing entry points.

    Conventions of the embedding:
    - [size_t] and [uintptr_t] are [N] with the wrap-around of the target's
      pointer width written out ([wrap]);
    - the C memory the file writes through raw pointers is an explicit
      [memory]: the global array [jl_bt_data] and a list of other blocks
      (caller-owned buffers and the data of managed arrays); a pointer is a
      block and an element offset, so a caller may pass a pointer into
      [jl_bt_data] itself;
    - a store outside a block is undefined behaviour in C: it is an error
      ([None], then [Crash]) here;
    - the unwind backends chosen by the preprocessor implement one
      interface, the class [Backend]: the disabled backend and the libunwind
      backend are instances of it (the library's functions are parameters);
      of the Windows backend the resolution callbacks are embedded, over
      the operating system's lookups as parameters, and its stepping
      functions are known through the interface only;
    - what the file calls and does not define (the code-info service, the
      array primitives of the runtime, libunwind, the debug-help library)
      is a parameter or is modelled where it is introduced; the freeing of
      C strings and the GC transitions around the code-info call leave no
      trace in the model. *)

From Stdlib Require Import NArith ZArith Lia String.
From stdpp Require Import base option list.

Set Warnings "-register-all".
Local Open Scope N_scope.

(** ** Machine integers *)

Definition uintptr_t := N.
Definition size_t := N.

(** ** Memory *)

Inductive block :=
| JlBtData            (* the global array jl_bt_data *)
| Buf (b : nat).      (* any other array of words *)

Global Instance block_eq_dec : EqDecision block.
Proof. solve_decision. Defined.

Record pointer := Ptr { blk : block; ofs : nat }.

Global Instance pointer_eq_dec : EqDecision pointer.
Proof. solve_decision. Defined.

(** [ptr_add p i] is the C expression [p + i] (equivalently [&p[i]]). *)
Definition ptr_add (p : pointer) (i : nat) : pointer :=
  Ptr (blk p) (ofs p + i).

(** [stores] is a ghost log of the cells written so far, most recent first;
    the program never reads it. *)
Record memory := Mem {
  jl_bt_data : list uintptr_t;
  bufs : list (list uintptr_t);
  stores : list pointer
}.

Definition block_data (b : block) (m : memory) : option (list uintptr_t) :=
  match b with
  | JlBtData => Some (jl_bt_data m)
  | Buf k => bufs m !! k
  end.

Definition set_block_data (b : block) (l : list uintptr_t) (m : memory) : memory :=
  match b with
  | JlBtData => Mem l (bufs m) (stores m)
  | Buf k => Mem (jl_bt_data m) (<[k := l]> (bufs m)) (stores m)
  end.

Definition log_store (p : pointer) (m : memory) : memory :=
  Mem (jl_bt_data m) (bufs m) (p :: stores m).

(** [*p = v] *)
Definition store (p : pointer) (v : uintptr_t) (m : memory) : option memory :=
  match block_data (blk p) m with
  | Some l =>
      if decide (ofs p < length l)%nat
      then Some (log_store p (set_block_data (blk p) (<[ofs p := v]> l) m))
      else None
  | None => None
  end.

(** [*p] *)
Definition load (p : pointer) (m : memory) : option uintptr_t :=
  match block_data (blk p) m with
  | Some l => l !! ofs p
  | None => None
  end.

(** The number of stores logged in [m1] but not yet in [m0] that went to
    the block [ip] points into. *)
Definition stores_to (b : block) (m : memory) : nat :=
  length (filter (λ p, blk p = b) (stores m)).

Definition frames_written (ip : pointer) (m0 m1 : memory) : nat :=
  (stores_to (blk ip) m1 - stores_to (blk ip) m0)%nat.

(** ** The backend adapter *)

(** What one call of [jl_unw_step(cursor, ip, sp)] does: it stores to [*ip]
    and [*sp] the values given (in that order, [None]: no store), leaves the
    cursor as [c], and then either returns [r] or raises an access fault. *)
Inductive unw_step_result (C : Type) :=
| Stepped (vip vsp : option uintptr_t) (r : bool) (c : C)
| Faulted (vip vsp : option uintptr_t) (c : C).
Arguments Stepped {C} vip vsp r c.
Arguments Faulted {C} vip vsp c.

(** The width of size_t, uintptr_t and of a pointer on the target. *)
Inductive width := W32 | W64.

Definition bits (wd : width) : N :=
  match wd with W32 => 32 | W64 => 64 end.

(** The adapter of one build: jl_unw_init and jl_unw_step as functions of
    the context or cursor they are handed. This is all the libunwind
    adapter and the disabled one are. The Windows adapters also read and
    write globals of their own (jl_in_stackwalk, HistoryTable,
    needsSymRefreshModuleList); they are embedded with these globals in
    the section WindowsUnwind below. An instance with [os_windows = true]
    stands for what such an adapter stores and returns in one run: it
    carries the counts and the stores into the buffers, not what the
    adapter does to its own globals. *)
Class Backend := {
  os_windows : bool;                 (* defined(_OS_WINDOWS_) *)
  cpu_x86_64 : bool;                 (* defined(_CPU_X86_64_) *)
  ptr_width : width;
  bt_context_t : Type;
  bt_cursor_t : Type;
  (* [Some c]: returned nonzero with the cursor set to [c]; [None]: returned 0 *)
  jl_unw_init : bt_context_t -> option bt_cursor_t;
  jl_unw_step : bt_cursor_t -> unw_step_result bt_cursor_t
}.

(** ** Process state *)

(** A call of [jl_safe_printf]: the format string and the arguments. *)
Inductive printf_arg :=
| ArgStr (s : option string)     (* a char*, None for NULL *)
| ArgPtr (p : uintptr_t)         (* a void* *)
| ArgUPtr (n : uintptr_t).       (* a uintptr_t *)

Record printf_call := Printf { fmt : string; args : list printf_arg }.

(** What [jl_safe_restore] points to. *)
Inductive jmp_buf_ref :=
| StepnBuf                 (* the local [buf] of jl_unw_stepn *)
| CallerBuf (k : nat).     (* some jmp_buf installed by a caller *)

Record world := World {
  mem : memory;
  jl_bt_size : size_t;
  jl_in_stackwalk : bool;
  jl_safe_restore : option jmp_buf_ref;
  array_ptr_void_type : bool;          (* false: still NULL *)
  console : list printf_call           (* output of jl_safe_printf, oldest first *)
}.

Definition set_mem (m : memory) (w : world) : world :=
  World m (jl_bt_size w) (jl_in_stackwalk w) (jl_safe_restore w)
        (array_ptr_void_type w) (console w).
Definition set_in_stackwalk (b : bool) (w : world) : world :=
  World (mem w) (jl_bt_size w) b (jl_safe_restore w)
        (array_ptr_void_type w) (console w).
Definition set_safe_restore (r : option jmp_buf_ref) (w : world) : world :=
  World (mem w) (jl_bt_size w) (jl_in_stackwalk w) r
        (array_ptr_void_type w) (console w).
Definition set_array_ptr_void_type (b : bool) (w : world) : world :=
  World (mem w) (jl_bt_size w) (jl_in_stackwalk w) (jl_safe_restore w)
        b (console w).
Definition print (c : printf_call) (w : world) : world :=
  World (mem w) (jl_bt_size w) (jl_in_stackwalk w) (jl_safe_restore w)
        (array_ptr_void_type w) (console w ++ [c]).
Definition add_console (l : list printf_call) (w : world) : world :=
  World (mem w) (jl_bt_size w) (jl_in_stackwalk w) (jl_safe_restore w)
        (array_ptr_void_type w) (console w ++ l).

(** How a call ends: it returns [a] in the state [w]; the process dies (a
    failed assert, an access fault nobody recovers from, undefined
    behaviour); or the model ran out of fuel in a loop that need not end. *)
Inductive outcome (A : Type) :=
| Done (a : A) (w : world)
| Crash
| Timeout.
Arguments Done {A} a w.
Arguments Crash {A}.
Arguments Timeout {A}.

(** The value a call returned, if it returned. *)
Definition returned {A : Type} (o : outcome A) : option A :=
  match o with
  | Done a _ => Some a
  | _ => None
  end.

(** The Snapshot State is in [w'] what it was in [w]. *)
Definition same_snapshot (w w' : world) : Prop :=
  jl_bt_size w' = jl_bt_size w ∧ jl_bt_data (mem w') = jl_bt_data (mem w).

(** How the while loop of jl_unw_stepn ends. *)
Inductive loop_exit (C : Type) :=
| Break (n : size_t) (c : C) (m : memory)      (* one of the two [break]s *)
| Longjmp (n : size_t) (c : C) (m : memory)    (* access fault inside jl_unw_step *)
| Undefined                                    (* a store outside a buffer *)
| OutOfFuel.
Arguments Break {C} n c m.
Arguments Longjmp {C} n c m.
Arguments Undefined {C}.
Arguments OutOfFuel {C}.

(** ** Managed values

    The values of the host runtime this file builds: symbols, boxed
    integers and booleans, [nothing], references to method infos and to
    arrays of pointers (the array's data is the block [Buf a] of the
    memory), and simple vectors. [JlNull] is the content of a slot of a
    simple vector that has not been set. *)
Inductive jl_value_t :=
| JlNull
| JlNothing
| JlSymbol (s : string)
| JlLong (z : Z)
| JlBool (b : bool)
| JlLinfo (l : nat)
| JlArray (a : nat)
| JlSvec (l : list jl_value_t).

Definition jl_alloc_svec (n : nat) : jl_value_t := JlSvec (replicate n JlNull).

Definition jl_svecset (t : jl_value_t) (i : nat) (x : jl_value_t) : jl_value_t :=
  match t with
  | JlSvec l => JlSvec (<[i := x]> l)
  | _ => t
  end.

Definition jl_svec2 (a b : jl_value_t) : jl_value_t := JlSvec [a; b].

(** Modelled from the spec: the struct jl_frame_t is declared outside this
    file; its fields are those the file reads, typed as the Frame
    Descriptor of the data model ([None] is a NULL name or method info). *)
Record jl_frame_t := Frame {
  func_name : option string;
  file_name : option string;
  line : Z;
  linfo : option nat;
  fromC : bool;
  inlined : bool
}.

Definition nl : string := String (Ascii.ascii_of_nat 10) EmptyString.

Section Stackwalk.
Context `{B : Backend}.

(** What is outside this file and only used here:
    - [uninit]: the content of array cells nobody has written yet;
    - [empty_sym]: the name of the runtime's symbol [empty_sym];
    - [PRIuPTR]: the printf length modifier of <inttypes.h>;
    - [jl_getFunctionInfo ip skipC noInline]: the frames the code-info
      service returns for [ip] (its int result is their number). *)
Variable uninit : uintptr_t.
Variable empty_sym : string.
Variable PRIuPTR : string.
Variable jl_getFunctionInfo : uintptr_t -> Z -> Z -> list jl_frame_t.

Definition ptr_bits : N := bits ptr_width.
Definition SIZE_MAX : N := 2 ^ ptr_bits - 1.
Definition sizeof_ptr : N := ptr_bits / 8.

(** Unsigned arithmetic is modulo [2 ^ ptr_bits]. *)
Definition wrap (n : N) : N := n mod 2 ^ ptr_bits.

(** [a - b] on unsigned operands below [2 ^ ptr_bits]. *)
Definition usub (a b : N) : N := wrap (a + 2 ^ ptr_bits - b).

(** [(intptr_t)a]: the same bits read as a signed integer. *)
Definition to_intptr (a : uintptr_t) : Z :=
  if a <? 2 ^ (ptr_bits - 1) then Z.of_N a else (Z.of_N a - 2 ^ Z.of_N ptr_bits)%Z.

(** [(uintptr_t)z] for a signed [z]. *)
Definition to_uintptr (z : Z) : uintptr_t :=
  Z.to_N (z mod 2 ^ Z.of_N ptr_bits).

(** The stores of one [jl_unw_step(cursor, &ip[n], sp ? &sp[n] : &nullsp)]:
    [*ip] first, then [*sp]; a store to the local [nullsp] leaves no
    trace. *)
Definition step_stores (ipn : pointer) (spn : option pointer)
    (vip vsp : option uintptr_t) (m : memory) : option memory :=
  m1 ← match vip with Some v => store ipn v m | None => Some m end;
  match vsp, spn with
  | Some v, Some q => store q v m1
  | _, _ => Some m1
  end.

(** The [while (1)] loop of jl_unw_stepn, entered with the counter at [n]. *)
Fixpoint stepn_loop (fuel : nat) (cursor : bt_cursor_t) (ip : pointer)
    (sp : option pointer) (maxsize n : size_t) (m : memory)
    : loop_exit bt_cursor_t :=
  match fuel with
  | O => OutOfFuel
  | S fuel' =>
      if maxsize <=? n then Break maxsize cursor m   (* n = maxsize; break *)
      else
        let ipn := ptr_add ip (N.to_nat n) in
        let spn := (λ q, ptr_add q (N.to_nat n)) <$> sp in
        match jl_unw_step cursor with
        | Stepped vip vsp r c =>
            match step_stores ipn spn vip vsp m with
            | None => Undefined
            | Some m' =>
                if r then stepn_loop fuel' c ip sp maxsize (wrap (n + 1)) m'
                else Break n c m'
            end
        | Faulted vip vsp c =>
            match step_stores ipn spn vip vsp m with
            | None => Undefined
            | Some m' => Longjmp n c m'
            end
        end
  end.

(** size_t jl_unw_stepn(bt_cursor_t *cursor, uintptr_t *ip, uintptr_t *sp,
                        size_t maxsize)
    The cursor is passed by reference: its final value is returned with the
    count. [sp = None] is a NULL [sp]. An access fault is recovered from
    only where the setjmp guard is compiled in (not on Windows); the assert
    is taken as compiled in. *)
Definition jl_unw_stepn (cursor : bt_cursor_t) (ip : pointer)
    (sp : option pointer) (maxsize : size_t) (w : world)
    : outcome (size_t * bt_cursor_t) :=
  let win32 := os_windows && negb cpu_x86_64 in
  if win32 && jl_in_stackwalk w then Crash      (* assert(!jl_in_stackwalk) *)
  else
    let w1 := if win32 then set_in_stackwalk true w else w in
    let old_buf := jl_safe_restore w1 in
    let w2 := if os_windows then w1 else set_safe_restore (Some StepnBuf) w1 in
    let finish (n : size_t) (c : bt_cursor_t) (m : memory) :=
      let w3 := set_mem m w2 in
      let w4 := if os_windows then w3 else set_safe_restore old_buf w3 in
      let w5 := if win32 then set_in_stackwalk false w4 else w4 in
      Done (n, c) w5 in
    match stepn_loop (S (N.to_nat maxsize)) cursor ip sp maxsize 0 (mem w2) with
    | Break n c m => finish (wrap (n + 1)) c m                 (* n++ *)
    | Longjmp n c m =>
        if os_windows then Crash
        else finish (if 0 <? n then wrap (n - 1) else n) c m   (* if (n > 0) n -= 1 *)
    | Undefined => Crash
    | OutOfFuel => Timeout
    end.

(** size_t rec_backtrace_ctx(uintptr_t *data, size_t maxsize,
                             bt_context_t *context) *)
Definition rec_backtrace_ctx (data : pointer) (maxsize : size_t)
    (context : bt_context_t) (w : world) : outcome size_t :=
  match jl_unw_init context with
  | None => Done 0 w
  | Some cursor =>
      match jl_unw_stepn cursor data None maxsize w with
      | Done (n, _) w' => Done (if maxsize <? n then maxsize else n) w'
      | Crash => Crash
      | Timeout => Timeout
      end
  end.

(** size_t rec_backtrace(uintptr_t *data, size_t maxsize)
    [here] is what [jl_unw_get] captures at the call site: the register
    state of the calling thread. *)
Definition rec_backtrace (here : bt_context_t) (data : pointer)
    (maxsize : size_t) (w : world) : outcome size_t :=
  let context := here in
  rec_backtrace_ctx data maxsize context w.

(** *** Managed arrays of pointers *)

Definition set_bufs (l : list (list uintptr_t)) (w : world) : world :=
  set_mem (Mem (jl_bt_data (mem w)) l (stores (mem w))) w.

(** Modelled from the spec: the growable-buffer primitives of the host
    runtime (allocate, grow_by, shrink_by, raw_pointer). An array is known
    by the index of its data block; growing keeps the prefix and adds
    cells nobody has written; shrinking by more than the length is the
    runtime's bounds error. *)
Definition jl_alloc_array_1d (n : size_t) (w : world) : nat * world :=
  (length (bufs (mem w)),
   set_bufs (bufs (mem w) ++ [replicate (N.to_nat n) uninit]) w).

Definition jl_array_grow_end (a : nat) (inc : size_t) (w : world) : option world :=
  l ← bufs (mem w) !! a;
  Some (set_bufs (<[a := l ++ replicate (N.to_nat inc) uninit]> (bufs (mem w))) w).

Definition jl_array_del_end (a : nat) (dec : size_t) (w : world) : option world :=
  l ← bufs (mem w) !! a;
  if decide (N.to_nat dec ≤ length l)%nat
  then Some (set_bufs (<[a := take (length l - N.to_nat dec) l]> (bufs (mem w))) w)
  else None.

Definition jl_array_data (a : nat) : pointer := Ptr (Buf a) 0.

Definition jl_array_len (a : nat) (w : world) : option nat :=
  length <$> bufs (mem w) !! a.

(** The first use of the array type creates it. *)
Definition init_array_ptr_void_type (w : world) : world :=
  if array_ptr_void_type w then w else set_array_ptr_void_type true w.

(** *** Growable capture *)

(** [if (returnsp) f(sp, ...)]: [sp] is NULL exactly when [returnsp] is 0. *)
Definition if_returnsp (returnsp : bool) (sp : option nat)
    (f : nat -> world -> option world) (w : world) : option world :=
  if returnsp then s ← sp; f s w else Some w.

(** The do-while loop of jl_backtrace_from_here; returns the last [n]. *)
Fixpoint capture_loop (fuel : nat) (maxincr : size_t) (returnsp : bool)
    (ip : nat) (sp : option nat) (cursor : bt_cursor_t) (offset : size_t)
    (w : world) : outcome size_t :=
  match fuel with
  | O => Timeout
  | S fuel' =>
      match jl_array_grow_end ip maxincr w
              ≫= if_returnsp returnsp sp (λ s, jl_array_grow_end s maxincr) with
      | None => Crash
      | Some w2 =>
          match jl_unw_stepn cursor
                  (ptr_add (jl_array_data ip) (N.to_nat offset))
                  (if returnsp
                   then (λ s, ptr_add (jl_array_data s) (N.to_nat offset)) <$> sp
                   else None)
                  maxincr w2 with
          | Done (n, c) w3 =>
              let offset' := wrap (offset + maxincr) in
              if maxincr <? n
              then capture_loop fuel' maxincr returnsp ip sp c offset' w3
              else Done n w3
          | Crash => Crash
          | Timeout => Timeout
          end
      end
  end.

(** The body of jl_backtrace_from_here with the local constant [maxincr]
    as a parameter. [here] is what [jl_unw_get] captures; [returnsp] is the
    truth value of the int argument. The result is the array [ip], or the
    pair of the arrays [ip] and [sp]. *)
Definition backtrace_from_here (maxincr : size_t) (fuel : nat)
    (here : bt_context_t) (returnsp : bool) (w : world) : outcome jl_value_t :=
  let w0 := init_array_ptr_void_type w in
  let '(ip, w1) := jl_alloc_array_1d 0 w0 in
  let '(sp, w2) := if returnsp
                   then let '(a, w') := jl_alloc_array_1d 0 w1 in (Some a, w')
                   else (None, w1) in
  let context := here in
  let bt := match sp with
            | Some s => jl_svec2 (JlArray ip) (JlArray s)
            | None => JlArray ip
            end in
  match jl_unw_init context with
  | None => Done bt w2
  | Some cursor =>
      match capture_loop fuel maxincr returnsp ip sp cursor 0 w2 with
      | Done n w3 =>
          match jl_array_del_end ip (usub maxincr n) w3
                  ≫= if_returnsp returnsp sp
                        (λ s, jl_array_del_end s (usub maxincr n)) with
          | None => Crash
          | Some w5 => Done bt w5
          end
      | Crash => Crash
      | Timeout => Timeout
      end
  end.

(** jl_value_t *jl_backtrace_from_here(int returnsp) *)
Definition jl_backtrace_from_here := backtrace_from_here 1000.

(** *** The last snapshot *)

(** [memcpy(dst, src, bytes)] between arrays of words. *)
Definition memcpy (dst src : pointer) (bytes : size_t) (m : memory) : option memory :=
  let n := N.to_nat (bytes / sizeof_ptr) in
  s ← block_data (blk src) m;
  d ← block_data (blk dst) m;
  if decide (ofs src + n ≤ length s ∧ ofs dst + n ≤ length d)%nat
  then
    let d' := take (ofs dst) d ++ take n (drop (ofs src) s)
                ++ drop (ofs dst + n) d in
    let m' := set_block_data (blk dst) d' m in
    Some (Mem (jl_bt_data m') (bufs m')
              (rev (ptr_add dst <$> seq 0 n) ++ stores m))
  else None.

(** jl_value_t *jl_get_backtrace(void) *)
Definition jl_get_backtrace (w : world) : outcome jl_value_t :=
  let w0 := init_array_ptr_void_type w in
  let '(bt, w1) := jl_alloc_array_1d (jl_bt_size w0) w0 in
  match memcpy (jl_array_data bt) (Ptr JlBtData 0)
               (wrap (jl_bt_size w1 * sizeof_ptr)) (mem w1) with
  | None => Crash
  | Some m => Done (JlArray bt) (set_mem m w1)
  end.

(** *** Symbolication *)

Definition jl_symbol (s : string) : jl_value_t := JlSymbol s.
Definition jl_box_long (z : Z) : jl_value_t := JlLong z.
Definition jl_box_bool (b : bool) : jl_value_t := JlBool b.

(** The seven-slot vector built for one frame in jl_lookup_code_address. *)
Definition frame_svec (ip : uintptr_t) (frame : jl_frame_t) : jl_value_t :=
  let r := jl_alloc_svec 7 in
  let r := match func_name frame with
           | Some f => jl_svecset r 0 (jl_symbol f)
           | None => jl_svecset r 0 (jl_symbol empty_sym)
           end in
  let r := match file_name frame with
           | Some f => jl_svecset r 1 (jl_symbol f)
           | None => jl_svecset r 1 (jl_symbol empty_sym)
           end in
  let r := jl_svecset r 2 (jl_box_long (line frame)) in
  let r := jl_svecset r 3 (match linfo frame with
                           | Some l => JlLinfo l
                           | None => JlNothing
                           end) in
  let r := jl_svecset r 4 (jl_box_bool (fromC frame)) in
  let r := jl_svecset r 5 (jl_box_bool (inlined frame)) in
  jl_svecset r 6 (jl_box_long (to_intptr ip)).

(** jl_value_t *jl_lookup_code_address(void *ip, int skipC)
    The loop sets slot [i] of [rs] for [i = 0 .. n-1]; the descriptor is
    stored into [rs] once it is filled (the source stores it first and
    fills it in place). *)
Definition jl_lookup_code_address (ip : uintptr_t) (skipC : Z) : jl_value_t :=
  let frames := jl_getFunctionInfo ip skipC 0 in
  let n := length frames in
  let rs := jl_alloc_svec n in
  foldl (λ rs i,
           match frames !! i with
           | Some frame => jl_svecset rs i (frame_svec ip frame)
           | None => rs
           end) rs (seq 0 n).

(** *** The diagnostic printer *)

Definition fmt_unknown_function : string := "unknown function (ip: %p)" ++ nl.
Definition fmt_known_line : string := "%s at %s:%" ++ PRIuPTR ++ nl.
Definition fmt_unknown_line : string := "%s at %s (unknown line)" ++ nl.

(** The body of the for loop of jl_gdblookup for one frame. *)
Definition gdblookup_frame (ip : uintptr_t) (w : world) (frame : jl_frame_t) : world :=
  match func_name frame with
  | None => print (Printf fmt_unknown_function [ArgPtr ip]) w
  | Some f =>
      if bool_decide (line frame ≠ (-1)%Z)
      then print (Printf fmt_known_line
                    [ArgStr (Some f); ArgStr (file_name frame);
                     ArgUPtr (to_uintptr (line frame))]) w
      else print (Printf fmt_unknown_line
                    [ArgStr (Some f); ArgStr (file_name frame)]) w
  end.

(** void jl_gdblookup(uintptr_t ip) *)
Definition jl_gdblookup (ip : uintptr_t) (w : world) : world :=
  let frames := jl_getFunctionInfo ip 0 1 in
  foldl (gdblookup_frame ip) w frames.

(** void jlbacktrace(void): the for loop over [i = 0 .. n-1]. *)
Definition jlbacktrace (w : world) : outcome unit :=
  let n := jl_bt_size w in
  foldl (λ o i,
           match o with
           | Done _ w' =>
               match load (Ptr JlBtData i) (mem w') with
               | Some a => Done tt (jl_gdblookup (usub a 1) w')
               | None => Crash
               end
           | _ => o
           end) (Done tt w) (seq 0 (N.to_nat n)).

(** *** Describing a walk *)

(** What one call of jl_unw_step stored: the values for [*ip] and [*sp]. *)
Definition stored : Type := option uintptr_t * option uintptr_t.

(** [steps c fs c']: starting from the cursor [c], [length fs] successive
    calls of jl_unw_step each report a further frame; call [i] stores
    [fs !! i]; the cursor is then [c']. *)
Inductive steps : bt_cursor_t -> list stored -> bt_cursor_t -> Prop :=
| steps_nil c : steps c [] c
| steps_cons c vip vsp c1 fs c' :
    jl_unw_step c = Stepped vip vsp true c1 ->
    steps c1 fs c' ->
    steps c ((vip, vsp) :: fs) c'.

(** The stores of successive calls into [ip[i..]] and [sp[i..]]. *)
Fixpoint write_frames (ip : pointer) (sp : option pointer) (i : nat)
    (fs : list stored) (m : memory) : option memory :=
  match fs with
  | [] => Some m
  | (vip, vsp) :: fs' =>
      m' ← step_stores (ptr_add ip i) ((λ q, ptr_add q i) <$> sp) vip vsp m;
      write_frames ip sp (S i) fs' m'
  end.

(** The number of calls that stored an instruction pointer. *)
Definition ips_stored (fs : list stored) : nat :=
  length (filter (λ f : stored, is_Some (fst f)) fs).

(** The output buffers are different arrays. *)
Definition sp_apart (ip : pointer) (sp : option pointer) : Prop :=
  match sp with
  | Some q => blk q ≠ blk ip
  | None => True
  end.

(** The assert at the head of jl_unw_stepn holds (it is only compiled on
    32-bit Windows). *)
Definition assert_holds (w : world) : Prop :=
  os_windows && negb cpu_x86_64 && jl_in_stackwalk w = false.

(** [walk c fs]: the stack seen from the cursor [c] has the frames [fs],
    innermost first: every call of jl_unw_step stores the instruction and
    stack pointer of one frame, and the call for the last frame reports
    the end of the stack. *)
Inductive walk : bt_cursor_t -> list (uintptr_t * uintptr_t) -> Prop :=
| walk_last c vip vsp c' :
    jl_unw_step c = Stepped (Some vip) (Some vsp) false c' ->
    walk c [(vip, vsp)]
| walk_more c vip vsp c' fs :
    jl_unw_step c = Stepped (Some vip) (Some vsp) true c' ->
    walk c' fs ->
    walk c ((vip, vsp) :: fs).

(** The stack seen from [context] has the frames [fs], so that its depth
    is [length fs]: no frame at all when the backend cannot be
    initialised. *)
Definition stack_frames (context : bt_context_t) (fs : list (uintptr_t * uintptr_t)) : Prop :=
  match jl_unw_init context with
  | None => fs = []
  | Some c => walk c fs
  end.

(** The stores of the calls for the frames [fs], each with both values. *)
Definition full (fs : list (uintptr_t * uintptr_t)) : list stored :=
  (λ f, (Some f.1, Some f.2)) <$> fs.

(** The buffer [sp], when there is one, lies in another array than [ip]
    and holds [pre] up to index [i], followed by [junk]. *)
Definition sp_shape (sp : option pointer) (ip : pointer) (i : nat)
    (pre junk : list uintptr_t) (m : memory) : Prop :=
  match sp with
  | None => True
  | Some q => blk q ≠ blk ip ∧ block_data (blk q) m = Some (pre ++ junk)
              ∧ length pre = (ofs q + i)%nat
  end.

(** The line jl_gdblookup prints for one frame returned for [ip]. *)
Definition frame_line (ip : uintptr_t) (frame : jl_frame_t) : printf_call :=
  match func_name frame with
  | None => Printf fmt_unknown_function [ArgPtr ip]
  | Some f =>
      if bool_decide (line frame = (-1)%Z)
      then Printf fmt_unknown_line [ArgStr (Some f); ArgStr (file_name frame)]
      else Printf fmt_known_line
             [ArgStr (Some f); ArgStr (file_name frame);
              ArgUPtr (to_uintptr (line frame))]
  end.

(** The lines jlbacktrace prints for the stored addresses [l]. *)
Definition backtrace_lines (l : list uintptr_t) : list printf_call :=
  concat ((λ a, frame_line (usub a 1)
                  <$> jl_getFunctionInfo (usub a 1) 0 1) <$> l).

(** The outcome [o] of a growable capture is the array [ip], or the pair
    of the arrays [ip] and [ip + 1], holding exactly the instruction
    pointers, and the stack pointers, of the frames [fs]. *)
Definition captured (ip : nat) (returnsp : bool)
    (fs : list (uintptr_t * uintptr_t)) (o : outcome jl_value_t) : Prop :=
  ∃ w', o = Done (if returnsp then jl_svec2 (JlArray ip) (JlArray (S ip))
                 else JlArray ip) w'
        ∧ bufs (mem w') !! ip = Some fs.*1
        ∧ jl_array_len ip w' = Some (length fs)
        ∧ (returnsp = true ->
           bufs (mem w') !! S ip = Some fs.*2
           ∧ jl_array_len (S ip) w' = Some (length fs)).

End Stackwalk.

(** ** The three backends *)

(** *** Platforms on which libunwind may be broken (32-bit ARM) *)

Section Disabled.
Context (context cursor : Type).

Definition disabled_unw_init (c : context) : option cursor := None.
Definition disabled_unw_step (c : cursor) : unw_step_result cursor :=
  Stepped None None false c.

Definition disabled_backend : Backend := {|
  os_windows := false;
  cpu_x86_64 := false;
  ptr_width := W32;
  bt_context_t := context;
  bt_cursor_t := cursor;
  jl_unw_init := disabled_unw_init;
  jl_unw_step := disabled_unw_step
|}.

End Disabled.

(** *** libunwind *)

Inductive unw_regnum_t := UNW_REG_IP | UNW_REG_SP.

(** A call into libunwind returns, or reads unmapped memory. The library
    has the cursor by pointer: [Segv c] is an access fault that leaves the
    cursor as [c]. *)
Inductive unw_call (A C : Type) :=
| Returns (a : A)
| Segv (c : C).
Arguments Returns {A C} a.
Arguments Segv {A C} c.

Section Libunwind.
Context (wd : width) (x86_64 : bool) (unw_context_t unw_cursor_t : Type).

(** The library, outside this file: each function with its int result,
    the register value it reads and the cursor it leaves behind. *)
Variable unw_init_local : unw_context_t -> Z * unw_cursor_t.
Variable unw_get_reg :
  unw_cursor_t -> unw_regnum_t -> unw_call (Z * N * unw_cursor_t) unw_cursor_t.
Variable unw_step : unw_cursor_t -> unw_call (Z * unw_cursor_t) unw_cursor_t.

Definition libunwind_unw_init (context : unw_context_t) : option unw_cursor_t :=
  let '(r, cursor) := unw_init_local context in
  if (r =? 0)%Z then Some cursor else None.

Definition libunwind_unw_step (cursor : unw_cursor_t)
    : unw_step_result unw_cursor_t :=
  match unw_get_reg cursor UNW_REG_IP with
  | Segv cursor => Faulted None None cursor
  | Returns (r, reg, cursor) =>
      if (r <? 0)%Z then Stepped None None false cursor
      else
        let vip := reg mod 2 ^ bits wd in                      (* *ip = reg *)
        match unw_get_reg cursor UNW_REG_SP with
        | Segv cursor => Faulted (Some vip) None cursor
        | Returns (r, reg, cursor) =>
            if (r <? 0)%Z then Stepped (Some vip) None false cursor
            else
              let vsp := reg mod 2 ^ bits wd in                (* *sp = reg *)
              match unw_step cursor with
              | Returns (r, cursor) =>
                  Stepped (Some vip) (Some vsp) (0 <? r)%Z cursor
              | Segv cursor => Faulted (Some vip) (Some vsp) cursor
              end
        end
  end.

Definition libunwind_backend : Backend := {|
  os_windows := false;
  cpu_x86_64 := x86_64;
  ptr_width := wd;
  bt_context_t := unw_context_t;
  bt_cursor_t := unw_cursor_t;
  jl_unw_init := libunwind_unw_init;
  jl_unw_step := libunwind_unw_step
|}.

(** The variant for the DWARF unwinder of libosxunwind (LIBOSXUNWIND). *)
Variable unw_init_local_dwarf : unw_context_t -> Z * unw_cursor_t.

(** int jl_unw_init_dwarf(bt_cursor_t *cursor, bt_context_t *uc)
    returns [unw_init_local_dwarf(cursor, uc) != 0]. *)
Definition jl_unw_init_dwarf (uc : unw_context_t) : option unw_cursor_t :=
  let '(r, cursor) := unw_init_local_dwarf uc in
  if (r =? 0)%Z then None else Some cursor.

(** size_t rec_backtrace_ctx_dwarf(uintptr_t *data, size_t maxsize,
                                   bt_context_t *context) *)
Definition rec_backtrace_ctx_dwarf (data : pointer) (maxsize : size_t)
    (context : unw_context_t) (w : world) : outcome size_t :=
  match jl_unw_init_dwarf context with
  | None => Done 0 w
  | Some cursor =>
      match jl_unw_stepn (B := libunwind_backend) cursor data None maxsize w with
      | Done (n, _) w' => Done (if maxsize <? n then maxsize else n) w'
      | Crash => Crash
      | Timeout => Timeout
      end
  end.

End Libunwind.

(** *** The resolution callbacks of the Windows backend

    The callbacks handed to StackWalk64 and used by the 64-bit
    jl_unw_step. The operating system's lookups are outside this file;
    [dbghelp_calls] is a ghost log of the calls into the debug-help
    library, each with the value [jl_in_stackwalk] had during the call. *)

Inductive dbghelp_fn := FnSymFunctionTableAccess64 | FnSymGetModuleBase64.

Record dbghelp_call := DbgCall {
  dc_fn : dbghelp_fn;
  dc_addr : N;
  dc_in_stackwalk : bool
}.

Section Windows.
Context (x86_64 : bool) (UNWIND_HISTORY_TABLE : Type).

(** [RtlLookupFunctionEntry addr table] gives the function entry (0: none),
    the image base and the updated history table. *)
Variable RtlLookupFunctionEntry :
  N -> UNWIND_HISTORY_TABLE -> N * N * UNWIND_HISTORY_TABLE.
Variable SymFunctionTableAccess64 : N -> N -> N.
Variable SymGetModuleBase64 : N -> N -> N.
Variable jl_getUnwindInfo : N -> N.

(** The static [HistoryTable]: the unwind history table of the 64-bit
    build, the one-entry cache of the 32-bit build. *)
Record win_static := WinStatic {
  HistoryTable : UNWIND_HISTORY_TABLE;
  HistoryTable_dwAddr : N;
  HistoryTable_ImageBase : N;
  dbghelp_calls : list dbghelp_call
}.

Definition set_HistoryTable (h : UNWIND_HISTORY_TABLE) (s : win_static) : win_static :=
  WinStatic h (HistoryTable_dwAddr s) (HistoryTable_ImageBase s) (dbghelp_calls s).
Definition set_cache (a b : N) (s : win_static) : win_static :=
  WinStatic (HistoryTable s) a b (dbghelp_calls s).
Definition log_dbghelp (f : dbghelp_fn) (addr : N) (w : world) (s : win_static) : win_static :=
  WinStatic (HistoryTable s) (HistoryTable_dwAddr s) (HistoryTable_ImageBase s)
            (dbghelp_calls s ++ [DbgCall f addr (jl_in_stackwalk w)]).

(** static PVOID CALLBACK JuliaFunctionTableAccess64(HANDLE hProcess,
                                                     DWORD64 AddrBase) *)
Definition JuliaFunctionTableAccess64 (hProcess AddrBase : N)
    (s : win_static) (w : world) : N * win_static * world :=
  if x86_64 then
    let '(fn, ImageBase, h) := RtlLookupFunctionEntry AddrBase (HistoryTable s) in
    let s := set_HistoryTable h s in
    if negb (fn =? 0) then (fn, s, w)
    else if jl_in_stackwalk w then (0, s, w)
    else
      let w := set_in_stackwalk true w in
      let s := log_dbghelp FnSymFunctionTableAccess64 AddrBase w s in
      let ftable := SymFunctionTableAccess64 hProcess AddrBase in
      let w := set_in_stackwalk false w in
      (ftable, s, w)
  else
    (SymFunctionTableAccess64 hProcess AddrBase,
     log_dbghelp FnSymFunctionTableAccess64 AddrBase w s, w).

(** static DWORD64 WINAPI JuliaGetModuleBase64(HANDLE hProcess,
                                               DWORD64 dwAddr) *)
Definition JuliaGetModuleBase64 (hProcess dwAddr : N)
    (s : win_static) (w : world) : N * win_static * world :=
  if x86_64 then
    let '(fn, ImageBase, h) := RtlLookupFunctionEntry dwAddr (HistoryTable s) in
    let s := set_HistoryTable h s in
    if negb (fn =? 0) then (ImageBase, s, w)
    else if jl_in_stackwalk w then (0, s, w)
    else
      let w := set_in_stackwalk true w in
      let s := log_dbghelp FnSymGetModuleBase64 dwAddr w s in
      let fbase := SymGetModuleBase64 hProcess dwAddr in
      let w := set_in_stackwalk false w in
      (fbase, s, w)
  else
    if dwAddr =? HistoryTable_dwAddr s then (HistoryTable_ImageBase s, s, w)
    else
      let ImageBase := jl_getUnwindInfo dwAddr in
      if negb (ImageBase =? 0) then (ImageBase, set_cache dwAddr ImageBase s, w)
      else
        (SymGetModuleBase64 hProcess dwAddr,
         log_dbghelp FnSymGetModuleBase64 dwAddr w s, w).

End Windows.

(** *** Initialising and stepping on Windows

    The rest of the Windows backend. The cursor of the 64-bit build is the
    CONTEXT itself; the cursor of the 32-bit build is a stack frame and a
    context for StackWalk64. Of a CONTEXT and of a STACKFRAME64 the fields
    the file names are fields here, the others are kept together
    ([other_regs], [frame_rest]). *)

(** The globals [needsSymRefreshModuleList] and [hSymRefreshModuleList]
    ([true]: the pointer is not NULL); [refresh_calls] is a ghost log of
    the calls through the pointer, each with the value [jl_in_stackwalk]
    had during the call. *)
Record win_refresh := WinRefresh {
  needsSymRefreshModuleList : Z;
  hSymRefreshModuleList : bool;
  refresh_calls : list bool
}.

(** The first statement of the Windows jl_unw_init. *)
Definition refresh_module_list (g : win_refresh) (w : world) : win_refresh * world :=
  if negb (needsSymRefreshModuleList g =? 0)%Z && hSymRefreshModuleList g
     && negb (jl_in_stackwalk w)
  then
    let w1 := set_in_stackwalk true w in
    let calls := refresh_calls g ++ [jl_in_stackwalk w1] in
    let w2 := set_in_stackwalk false w1 in
    (WinRefresh 0 (hSymRefreshModuleList g) calls, w2)
  else (g, w).

Section WindowsUnwind.
Context (UNWIND_HISTORY_TABLE REGS FRAME_REST : Type).

Record CONTEXT := Ctx { Rip : N; Rsp : N; Rbp : N; other_regs : REGS }.

Record CONTEXT32 := Ctx32 { Eip : N; Esp : N; Ebp : N; other_regs32 : REGS }.

Record STACKFRAME64 := StackFrame {
  AddrPC_Offset : N; AddrPC_Mode : N;
  AddrStack_Offset : N; AddrStack_Mode : N;
  AddrFrame_Offset : N; AddrFrame_Mode : N;
  frame_rest : FRAME_REST
}.

Record cursor32 := Cursor32 { stackframe : STACKFRAME64; context : CONTEXT32 }.

(** The operating system, outside this file.
    - [VirtualQuery addr]: the result (0: failure) and the
      AllocationProtect of the region;
    - [read_qword addr]: the 64-bit word at [addr];
    - [RtlVirtualUnwind ImageBase ControlPc FunctionEntry ctx]: the
      context after the unwind;
    - the PAGE_ protection bits of <winnt.h>, [AddrModeFlat], and
      [zero_rest], the other fields of a STACKFRAME64 after the memset;
    - [StackWalk64 frame ctx s w]: StackWalk64 on the frame and the context
      of the cursor, for this process and the main thread, with the two
      callbacks of this file; it runs in the state it is given and may
      change it through the callbacks. *)
Variable RtlLookupFunctionEntry :
  N -> UNWIND_HISTORY_TABLE -> N * N * UNWIND_HISTORY_TABLE.
Variable SymFunctionTableAccess64 : N -> N -> N.
Variable SymGetModuleBase64 : N -> N -> N.
Variable jl_getUnwindInfo : N -> N.
Variable GetCurrentProcess : N.
Variable VirtualQuery : N -> N * N.
Variable read_qword : N -> N.
Variable RtlVirtualUnwind : N -> N -> N -> CONTEXT -> CONTEXT.
Variable PAGE_NOACCESS : N.
Variable PAGE_READONLY : N.
Variable PAGE_READWRITE : N.
Variable PAGE_WRITECOPY : N.
Variable PAGE_EXECUTE_READ : N.
Variable PAGE_GUARD : N.
Variable AddrModeFlat : N.
Variable zero_rest : FRAME_REST.
Variable StackWalk64 :
  STACKFRAME64 -> CONTEXT32 -> win_static UNWIND_HISTORY_TABLE -> world ->
  bool * STACKFRAME64 * CONTEXT32 * win_static UNWIND_HISTORY_TABLE * world.

(** static int jl_unw_init(bt_cursor_t *cursor, bt_context_t *Context),
    64-bit build. *)
Definition jl_unw_init_win64 (Context : CONTEXT) (g : win_refresh) (w : world)
    : option CONTEXT * win_refresh * world :=
  let '(g, w) := refresh_module_list g w in
  (Some Context, g, w).

(** static int jl_unw_init(bt_cursor_t *cursor, bt_context_t *Context),
    32-bit build. The cursor is only meaningful when the result is
    nonzero. *)
Definition jl_unw_init_win32 (Context : CONTEXT32) (g : win_refresh)
    (s : win_static UNWIND_HISTORY_TABLE) (w : world)
    : option cursor32 * win_refresh * win_static UNWIND_HISTORY_TABLE * world :=
  let '(g, w) := refresh_module_list g w in
  if jl_in_stackwalk w then (None, g, s, w)
  else
    let w := set_in_stackwalk true w in
    let frame := StackFrame (Eip Context) AddrModeFlat (Esp Context) AddrModeFlat
                            (Ebp Context) AddrModeFlat zero_rest in
    let '(result, frame, ctx, s, w) := StackWalk64 frame Context s w in
    let w := set_in_stackwalk false w in
    ((if result then Some (Cursor32 frame ctx) else None), g, s, w).

(** static int jl_unw_step(bt_cursor_t *cursor, uintptr_t *ip, uintptr_t *sp),
    32-bit build: what it stores and returns, and the state afterwards. *)
Definition jl_unw_step_win32 (cursor : cursor32)
    (s : win_static UNWIND_HISTORY_TABLE) (w : world)
    : unw_step_result cursor32 * win_static UNWIND_HISTORY_TABLE * world :=
  let vip := AddrPC_Offset (stackframe cursor) mod 2 ^ 32 in
  let vsp := AddrStack_Offset (stackframe cursor) mod 2 ^ 32 in
  let '(result, frame, ctx, s, w) :=
    StackWalk64 (stackframe cursor) (context cursor) s w in
  (Stepped (Some vip) (Some vsp) result (Cursor32 frame ctx), s, w).

(** The test of the protection of the page the frame pointer points to. *)
Definition page_readable (X : N) : bool :=
  (negb (N.land X PAGE_READONLY =? 0) || negb (N.land X PAGE_READWRITE =? 0)
   || negb (N.land X PAGE_WRITECOPY =? 0) || negb (N.land X PAGE_EXECUTE_READ =? 0))
  && negb (negb (N.land X PAGE_GUARD =? 0) || negb (N.land X PAGE_NOACCESS =? 0)).

(** static int jl_unw_step(bt_cursor_t *cursor, uintptr_t *ip, uintptr_t *sp),
    64-bit build. *)
Definition jl_unw_step_win64 (cursor : CONTEXT)
    (s : win_static UNWIND_HISTORY_TABLE) (w : world)
    : unw_step_result CONTEXT * win_static UNWIND_HISTORY_TABLE * world :=
  let vip := Rip cursor in
  let vsp := Rsp cursor in
  let '(ImageBase, s, w) :=
    JuliaGetModuleBase64 true UNWIND_HISTORY_TABLE RtlLookupFunctionEntry
      SymGetModuleBase64 jl_getUnwindInfo GetCurrentProcess (Rip cursor) s w in
  if ImageBase =? 0 then (Stepped (Some vip) (Some vsp) false cursor, s, w)
  else
    let '(FunctionEntry, s, w) :=
      JuliaFunctionTableAccess64 true UNWIND_HISTORY_TABLE RtlLookupFunctionEntry
        SymFunctionTableAccess64 GetCurrentProcess (Rip cursor) s w in
    if FunctionEntry =? 0 then
      (* assume this is a NO_FPO RBP-based function *)
      let cursor := Ctx (Rip cursor) (Rbp cursor) (Rbp cursor) (other_regs cursor) in
      let '(queried, X) := VirtualQuery (Rsp cursor) in
      if queried =? 0 then (Stepped (Some vip) (Some vsp) false cursor, s, w)
      else if negb (page_readable X)
      then (Stepped (Some vip) (Some vsp) false cursor, s, w)
      else
        let cursor := Ctx (Rip cursor) (Rsp cursor) (read_qword (Rsp cursor))
                          (other_regs cursor) in                 (* POP RBP *)
        let cursor := Ctx (Rip cursor) ((Rsp cursor + 8) mod 2 ^ 64) (Rbp cursor)
                          (other_regs cursor) in
        let cursor := Ctx (read_qword (Rsp cursor)) (Rsp cursor) (Rbp cursor)
                          (other_regs cursor) in                 (* POP RIP *)
        let cursor := Ctx (Rip cursor) ((Rsp cursor + 8) mod 2 ^ 64) (Rbp cursor)
                          (other_regs cursor) in
        (Stepped (Some vip) (Some vsp) (negb (Rip cursor =? 0)) cursor, s, w)
    else
      let cursor := RtlVirtualUnwind ImageBase (Rip cursor) FunctionEntry cursor in
      (Stepped (Some vip) (Some vsp) (negb (Rip cursor =? 0)) cursor, s, w).

End WindowsUnwind.

(** ** A recorded stack to unwind

    A stand-in for libunwind used by the examples: the cursor is the list
    of the frames not yet unwound, innermost first; [Unmapped] is a frame
    whose memory cannot be read. Stepping from the last frame reports the
    end of the stack, stepping into an unmapped frame faults. *)
Module Synthetic.

Inductive frame := Valid (ip sp : N) | Unmapped.

Definition unw_init_local (context : list frame) : Z * list frame :=
  (0%Z, context).

Definition unw_get_reg (cursor : list frame) (r : unw_regnum_t)
    : unw_call (Z * N * list frame) (list frame) :=
  match cursor with
  | Valid ip sp :: _ =>
      Returns (0%Z, match r with UNW_REG_IP => ip | UNW_REG_SP => sp end, cursor)
  | _ => Returns ((-1)%Z, 0, cursor)
  end.

Definition unw_step (cursor : list frame)
    : unw_call (Z * list frame) (list frame) :=
  match cursor with
  | [] => Returns ((-1)%Z, [])
  | [_] => Returns (0%Z, [])
  | _ :: Unmapped :: _ => Segv cursor
  | _ :: rest => Returns (1%Z, rest)
  end.

Definition backend : Backend :=
  libunwind_backend W64 true (list frame) (list frame)
    unw_init_local unw_get_reg unw_step.

(** A stack of three frames, and one whose fourth frame cannot be read. *)
Definition stack3 : list frame :=
  [Valid 100 200; Valid 101 201; Valid 102 202].
Definition frames3 : list (uintptr_t * uintptr_t) :=
  [(100, 200); (101, 201); (102, 202)].
Definition corrupt_stack : list frame :=
  [Valid 100 200; Valid 101 201; Valid 102 202; Unmapped].

(** A stack of [d] frames. *)
Definition deep_stack (d : nat) : list frame :=
  (λ i, Valid (N.of_nat i) (N.of_nat i)) <$> seq 0 d.

(** A process with a three-entry jl_bt_data and two four-entry buffers;
    the same with two addresses in the snapshot; the same inside a stack
    walk; and one whose only array is empty. *)
Definition world0 : world :=
  World (Mem [7; 7; 7] [[9; 9; 9; 9]; [8; 8; 8; 8]] []) 0 false None false [].
Definition snapshot_world : world :=
  World (Mem [4097; 8193; 7] [] []) 2 false None false [].
Definition walking_world : world :=
  World (Mem [7; 7; 7] [] []) 0 true None false [].
Definition array_world : world :=
  World (Mem [] [[]] []) 0 false None false [].

(** A code-info service that knows three addresses: at 4096 a function
    [outer] with a function [inner] inlined into it, at 12288 a frame of
    native code it has no name for, and nothing at all elsewhere. *)
Definition code_info (ip : uintptr_t) (skipC noInline : Z) : list jl_frame_t :=
  if ip =? 4096 then
    if (noInline =? 0)%Z
    then [Frame (Some "inner"%string) (Some "a.jl"%string) 7 None false true;
          Frame (Some "outer"%string) (Some "a.jl"%string) 3 None false false]
    else [Frame (Some "outer"%string) (Some "a.jl"%string) 3 None false false]
  else if ip =? 12288 then [Frame None None (-1) None true false]
  else [].

(** Operating-system lookups: a function-entry lookup that finds the
    entry 5 in the image at 4096 for every address, one that finds
    nothing, and debug-help functions that answer 9. *)
Definition rtl_found (addr : N) (h : unit) : N * N * unit := (5, 4096, h).
Definition rtl_nothing (addr : N) (h : unit) : N * N * unit := (0, 0, h).
Definition sym (hProcess addr : N) : N := 9.
Definition no_unwind_info (addr : N) : N := 0.
Definition static0 : win_static unit := WinStatic unit tt 0 0 [].

(** The initialiser of the DWARF unwinder: it reports the status 1 and
    leaves the context as the cursor. *)
Definition unw_init_local_dwarf (context : list frame) : Z * list frame :=
  (1%Z, context).

(** Windows: a StackWalk64 that finds a frame and changes nothing, a
    pending refresh of the module list, a 32-bit and a 64-bit context, an
    unwind-info service that knows the address 4096, a cache holding its
    answer, a VirtualQuery that fails, a memory of zeros and an unwinder
    that leaves the context alone. *)
Definition stack_walk (frame : STACKFRAME64 unit) (ctx : CONTEXT32 unit)
    (s : win_static unit) (w : world)
    : bool * STACKFRAME64 unit * CONTEXT32 unit * win_static unit * world :=
  (true, frame, ctx, s, w).
Definition refresh_pending : win_refresh := WinRefresh 1 true [].
Definition context32 : CONTEXT32 unit := Ctx32 unit 4096 64 128 tt.
Definition context64 : CONTEXT unit := Ctx unit 4096 64 128 tt.
Definition unwind_info (addr : N) : N := if addr =? 4096 then 7 else 0.
Definition cached : win_static unit := WinStatic unit tt 4096 7 [].
Definition virtual_query (addr : N) : N * N := (0, 0).
Definition zeros (addr : N) : N := 0.
Definition virtual_unwind (ImageBase ControlPc FunctionEntry : N)
    (ctx : CONTEXT unit) : CONTEXT unit := ctx.

End Synthetic.

(** ** Notions for the further properties *)

(** The block [p] points into has [k] cells from [p] on. *)
Definition room (p : pointer) (k : nat) (m : memory) : Prop :=
  ∃ l, block_data (blk p) m = Some l ∧ (ofs p + k ≤ length l)%nat.

Definition sp_room (sp : option pointer) (k : nat) (m : memory) : Prop :=
  match sp with
  | Some q => room q k m
  | None => True
  end.

(** [q] is one of the cells [p[0]], ..., [p[k-1]]. *)
Definition in_range (p : pointer) (k : nat) (q : pointer) : Prop :=
  blk q = blk p ∧ (ofs p ≤ ofs q < ofs p + k)%nat.

(** [q] is outside the two output buffers of a call with capacity [k]. *)
Definition outside (ip : pointer) (sp : option pointer) (k : nat) (q : pointer) : Prop :=
  ¬ in_range ip k q ∧ match sp with
                      | Some s => ¬ in_range s k q
                      | None => True
                      end.

(** Every block has in [m'] the size it has in [m]. *)
Definition same_sizes (m m' : memory) : Prop :=
  ∀ b, length <$> block_data b m' = length <$> block_data b m.

(** What a caller does with [jl_bt_size = rec_backtrace(jl_bt_data, ...)]:
    the assignment of the returned count. *)
Definition set_bt_size (n : size_t) (w : world) : world :=
  World (mem w) n (jl_in_stackwalk w) (jl_safe_restore w)
        (array_ptr_void_type w) (console w).

(** The arrays of a capture: [ip] has [L] entries and, when stack pointers
    are asked for, [sp] is another array with [L] entries too. *)
Definition arrays_of_length (returnsp : bool) (ip : nat) (sp : option nat)
    (L : nat) (w : world) : Prop :=
  jl_array_len ip w = Some L
  ∧ (returnsp = true -> ∃ s, sp = Some s ∧ s ≠ ip ∧ jl_array_len s w = Some L).

(** The one-entry cache of the 32-bit [HistoryTable] holds an address
    together with the base jl_getUnwindInfo gives for it. *)
Definition cache_coherent {H : Type} (jl_getUnwindInfo : N -> N)
    (s : win_static H) : Prop :=
  HistoryTable_ImageBase H s = jl_getUnwindInfo (HistoryTable_dwAddr H s)
  ∧ HistoryTable_ImageBase H s ≠ 0.

(** * Properties *)

Section Theory.
Context `{B : Backend}.

Lemma modulus_pos : 0 < 2 ^ ptr_bits.
Proof. unfold ptr_bits. destruct ptr_width; reflexivity. Qed.

Lemma wrap_small (n : N) : n <= SIZE_MAX -> wrap n = n.
Proof.
  unfold wrap, SIZE_MAX. intros H. pose proof modulus_pos.
  apply N.mod_small. lia.
Qed.

Lemma sizeof_ptr_pos : 0 < sizeof_ptr.
Proof. unfold sizeof_ptr, ptr_bits. destruct ptr_width; reflexivity. Qed.

(** *** Stores *)

Lemma store_Some (p : pointer) (v : uintptr_t) (m m' : memory) :
  store p v m = Some m' ->
  ∃ l, block_data (blk p) m = Some l ∧ (ofs p < length l)%nat
       ∧ m' = log_store p (set_block_data (blk p) (<[ofs p := v]> l) m).
Proof.
  unfold store. destruct (block_data (blk p) m) as [l|]; [|done].
  case_decide; [|done]. intros [= <-]. eauto.
Qed.

Lemma store_valid (p : pointer) (v : uintptr_t) (m : memory) (l : list uintptr_t) :
  block_data (blk p) m = Some l -> (ofs p < length l)%nat ->
  store p v m = Some (log_store p (set_block_data (blk p) (<[ofs p := v]> l) m)).
Proof. unfold store. intros -> ?. by rewrite decide_True. Qed.

Lemma block_data_set_same (b : block) (l l0 : list uintptr_t) (m : memory) :
  block_data b m = Some l0 -> block_data b (set_block_data b l m) = Some l.
Proof.
  destruct b as [|k]; simpl; [done|]. intros H.
  apply list_lookup_insert_eq. by eapply lookup_lt_Some.
Qed.

Lemma block_data_set_other (b b' : block) (l : list uintptr_t) (m : memory) :
  b ≠ b' -> block_data b' (set_block_data b l m) = block_data b' m.
Proof.
  destruct b as [|k], b' as [|k']; simpl; try done.
  intros H. apply list_lookup_insert_ne. congruence.
Qed.

Lemma store_block_same (p : pointer) (v : uintptr_t) (m m' : memory) (l : list uintptr_t) :
  store p v m = Some m' -> block_data (blk p) m = Some l ->
  block_data (blk p) m' = Some (<[ofs p := v]> l).
Proof.
  intros (l' & Hl & _ & ->)%store_Some Hb. rewrite Hb in Hl. injection Hl as <-.
  change (block_data (blk p) (log_store p ?x)) with (block_data (blk p) x).
  by eapply block_data_set_same.
Qed.

Lemma store_block_other (p : pointer) (v : uintptr_t) (m m' : memory) (b : block) :
  store p v m = Some m' -> blk p ≠ b -> block_data b m' = block_data b m.
Proof.
  intros (l' & Hl & _ & ->)%store_Some Hb.
  change (block_data b (log_store p ?x)) with (block_data b x).
  by apply block_data_set_other.
Qed.

Lemma store_stores (p : pointer) (v : uintptr_t) (m m' : memory) :
  store p v m = Some m' -> stores m' = p :: stores m.
Proof.
  intros (l' & Hl & _ & ->)%store_Some. by destruct (blk p).
Qed.

Lemma store_bufs_length (p : pointer) (v : uintptr_t) (m m' : memory) :
  store p v m = Some m' -> length (bufs m') = length (bufs m).
Proof.
  intros (l' & Hl & _ & ->)%store_Some. destruct (blk p); simpl; [done|].
  by rewrite length_insert.
Qed.

Lemma jl_bt_data_block (m : memory) : block_data JlBtData m = Some (jl_bt_data m).
Proof. done. Qed.

(** *** The stores of one call *)

Lemma step_stores_block_other (ipn : pointer) (spn : option pointer)
    (vip vsp : option uintptr_t) (m m' : memory) (b : block) :
  step_stores ipn spn vip vsp m = Some m' ->
  blk ipn ≠ b -> (∀ q, spn = Some q -> blk q ≠ b) ->
  block_data b m' = block_data b m.
Proof.
  unfold step_stores. intros H Hip Hsp.
  destruct vip as [v|]; simpl in H.
  - destruct (store ipn v m) as [m1|] eqn:E1; simpl in H; [|done].
    rewrite <- (store_block_other _ _ _ _ b E1 Hip).
    destruct vsp as [v'|], spn as [q|]; try by injection H as <-.
    eapply store_block_other; eauto.
  - destruct vsp as [v'|], spn as [q|]; try by injection H as <-.
    eapply store_block_other; eauto.
Qed.

Lemma step_stores_bufs_length (ipn : pointer) (spn : option pointer)
    (vip vsp : option uintptr_t) (m m' : memory) :
  step_stores ipn spn vip vsp m = Some m' -> length (bufs m') = length (bufs m).
Proof.
  unfold step_stores. intros H.
  destruct vip as [v|]; simpl in H.
  - destruct (store ipn v m) as [m1|] eqn:E1; simpl in H; [|done].
    rewrite <- (store_bufs_length _ _ _ _ E1).
    destruct vsp as [v'|], spn as [q|]; try by injection H as <-.
    eapply store_bufs_length; eauto.
  - destruct vsp as [v'|], spn as [q|]; try by injection H as <-.
    eapply store_bufs_length; eauto.
Qed.

Lemma stores_to_cons (b : block) (p : pointer) (l : list pointer) :
  length (filter (λ p, blk p = b) (p :: l))
  = ((if decide (blk p = b) then 1 else 0) + length (filter (λ p, blk p = b) l))%nat.
Proof. rewrite filter_cons. by case_decide. Qed.

Lemma step_stores_stores_to (ipn : pointer) (spn : option pointer)
    (vip vsp : option uintptr_t) (m m' : memory) :
  step_stores ipn spn vip vsp m = Some m' ->
  (∀ q, spn = Some q -> blk q ≠ blk ipn) ->
  stores_to (blk ipn) m'
  = (stores_to (blk ipn) m + match vip with Some _ => 1 | None => 0 end)%nat.
Proof.
  unfold step_stores, stores_to. intros H Hsp.
  assert (∀ m1 m2, (match vsp, spn with
                    | Some v, Some q => store q v m1
                    | _, _ => Some m1 end) = Some m2 ->
                   length (filter (λ p, blk p = blk ipn) (stores m2))
                   = length (filter (λ p, blk p = blk ipn) (stores m1))) as Hs.
  { intros m1 m2 E. destruct vsp as [v'|], spn as [q|]; try by injection E as <-.
    rewrite (store_stores _ _ _ _ E), stores_to_cons.
    rewrite decide_False; [done|]. by apply Hsp. }
  destruct vip as [v|]; simpl in H.
  - destruct (store ipn v m) as [m1|] eqn:E1; simpl in H; [|done].
    rewrite (Hs _ _ H), (store_stores _ _ _ _ E1), stores_to_cons.
    rewrite decide_True by done. lia.
  - rewrite (Hs _ _ H). lia.
Qed.

(** *** The stores of a run of calls *)

Lemma write_frames_app (ip : pointer) (sp : option pointer) (fs1 fs2 : list stored) :
  ∀ (i : nat) (m : memory),
    write_frames ip sp i (fs1 ++ fs2) m
    = write_frames ip sp i fs1 m ≫= write_frames ip sp (i + length fs1) fs2.
Proof.
  induction fs1 as [|[vip vsp] fs1 IH]; intros i m; simpl.
  - by rewrite Nat.add_0_r.
  - destruct (step_stores _ _ vip vsp m) as [m1|]; simpl; [|done].
    rewrite IH. by replace (S i + length fs1)%nat with (i + S (length fs1))%nat by lia.
Qed.

Lemma write_frames_block_other (ip : pointer) (sp : option pointer)
    (b : block) (fs : list stored) :
  blk ip ≠ b -> (∀ q, sp = Some q -> blk q ≠ b) ->
  ∀ (i : nat) (m m' : memory),
    write_frames ip sp i fs m = Some m' -> block_data b m' = block_data b m.
Proof.
  intros Hip Hsp. induction fs as [|[vip vsp] fs IH]; intros i m m' H; simpl in H.
  - by injection H as <-.
  - destruct (step_stores _ _ vip vsp m) as [m1|] eqn:E; simpl in H; [|done].
    rewrite (IH _ _ _ H). eapply step_stores_block_other; eauto.
    intros q Hq. destruct sp as [q0|]; [|done]. simpl in Hq. injection Hq as <-.
    simpl. by apply Hsp.
Qed.

Lemma write_frames_bufs_length (ip : pointer) (sp : option pointer) (fs : list stored) :
  ∀ (i : nat) (m m' : memory),
    write_frames ip sp i fs m = Some m' -> length (bufs m') = length (bufs m).
Proof.
  induction fs as [|[vip vsp] fs IH]; intros i m m' H; simpl in H.
  - by injection H as <-.
  - destruct (step_stores _ _ vip vsp m) as [m1|] eqn:E; simpl in H; [|done].
    rewrite (IH _ _ _ H). eapply step_stores_bufs_length; eauto.
Qed.

Lemma write_frames_stores_to (ip : pointer) (sp : option pointer) (fs : list stored) :
  sp_apart ip sp ->
  ∀ (i : nat) (m m' : memory),
    write_frames ip sp i fs m = Some m' ->
    stores_to (blk ip) m' = (stores_to (blk ip) m + ips_stored fs)%nat.
Proof.
  intros Hsp. induction fs as [|[vip vsp] fs IH]; intros i m m' H; simpl in H.
  - injection H as <-. unfold ips_stored. simpl. lia.
  - destruct (step_stores _ _ vip vsp m) as [m1|] eqn:E; simpl in H; [|done].
    rewrite (IH _ _ _ H).
    change (blk ip) with (blk (ptr_add ip i)).
    rewrite (step_stores_stores_to _ _ _ _ _ _ E).
    + unfold ips_stored. rewrite filter_cons. simpl.
      destruct vip; simpl; lia.
    + intros q Hq. destruct sp as [q0|]; [|done]. simpl in Hq. injection Hq as <-.
      exact Hsp.
Qed.

(** *** The stepping loop *)

Lemma stepn_loop_steps (c c' : bt_cursor_t) (fs : list stored) :
  steps c fs c' ->
  ∀ (fuel : nat) (ip : pointer) (sp : option pointer) (maxsize n : size_t)
    (m m' : memory),
    n + N.of_nat (length fs) <= maxsize -> maxsize <= SIZE_MAX ->
    write_frames ip sp (N.to_nat n) fs m = Some m' ->
    stepn_loop (length fs + fuel) c ip sp maxsize n m
    = stepn_loop fuel c' ip sp maxsize (n + N.of_nat (length fs)) m'.
Proof.
  induction 1 as [c|c vip vsp c1 fs c' Hstep _ IH];
    intros fuel ip sp maxsize n m m' Hn Hmax Hw.
  - simpl in *. injection Hw as <-. by rewrite N.add_0_r.
  - simpl in Hw. simpl length in *.
    destruct (step_stores _ _ vip vsp m) as [m1|] eqn:E; simpl in Hw; [|done].
    change (S (length fs) + fuel)%nat with (S (length fs + fuel)).
    cbn [stepn_loop].
    destruct (N.leb_spec maxsize n) as [Hle|_]; [lia|].
    rewrite Hstep, E.
    rewrite wrap_small by lia.
    rewrite (IH fuel ip sp maxsize (n + 1) m1 m'); [f_equal; lia|lia|done|].
    by replace (N.to_nat (n + 1)) with (S (N.to_nat n)) by lia.
Qed.

(** The fuel jl_unw_stepn gives its loop is always enough. *)
Lemma stepn_loop_fuel (ip : pointer) (sp : option pointer) (maxsize : size_t) :
  maxsize <= SIZE_MAX ->
  ∀ (fuel : nat) (c : bt_cursor_t) (n : size_t) (m : memory),
    (N.to_nat (maxsize - n) < fuel)%nat ->
    stepn_loop fuel c ip sp maxsize n m ≠ OutOfFuel.
Proof.
  intros Hmax. induction fuel as [|fuel IH]; intros c n m Hf; [lia|].
  cbn [stepn_loop]. destruct (N.leb_spec maxsize n) as [Hle|Hlt]; [done|].
  destruct (jl_unw_step c) as [vip vsp r c'|vip vsp c'];
    destruct (step_stores _ _ vip vsp m) as [m'|]; try done.
  destruct r; [|done]. rewrite wrap_small by lia. apply IH. lia.
Qed.

Lemma jl_unw_stepn_total (c : bt_cursor_t) (ip : pointer) (sp : option pointer)
    (maxsize : size_t) (w : world) :
  maxsize <= SIZE_MAX -> jl_unw_stepn c ip sp maxsize w ≠ Timeout.
Proof.
  intros Hmax. unfold jl_unw_stepn.
  destruct (os_windows && negb cpu_x86_64 && jl_in_stackwalk w); [done|].
  match goal with
  | |- context [stepn_loop ?f ?a ?b ?d ?e ?g ?h] =>
      pose proof (stepn_loop_fuel b d e Hmax f a g h) as Hf;
      destruct (stepn_loop f a b d e g h)
  end; try done.
  - by destruct os_windows.
  - exfalso. apply Hf; [lia|done].
Qed.

Lemma stepn_loop_full (fuel : nat) (c : bt_cursor_t) (ip : pointer)
    (sp : option pointer) (maxsize : size_t) (m : memory) :
  stepn_loop (S fuel) c ip sp maxsize maxsize m = Break maxsize c m.
Proof. simpl. by rewrite N.leb_refl. Qed.

Lemma jl_unw_stepn_unfold (c : bt_cursor_t) (ip : pointer) (sp : option pointer)
    (maxsize : size_t) (w : world) :
  assert_holds w ->
  jl_unw_stepn c ip sp maxsize w
  = match stepn_loop (S (N.to_nat maxsize)) c ip sp maxsize 0 (mem w) with
    | Break n c' m => Done (wrap (n + 1), c') (set_mem m w)
    | Longjmp n c' m =>
        if os_windows then Crash
        else Done (if 0 <? n then wrap (n - 1) else n, c') (set_mem m w)
    | Undefined => Crash
    | OutOfFuel => Timeout
    end.
Proof.
  unfold assert_holds, jl_unw_stepn. intros Ha. destruct w as [m0 sz fl sr ty co].
  simpl in Ha.
  destruct os_windows, cpu_x86_64, fl; try discriminate Ha;
    cbn [andb negb mem jl_in_stackwalk jl_safe_restore set_in_stackwalk
         set_safe_restore];
    match goal with
    | |- context [stepn_loop ?f ?a ?b ?d ?e ?g ?h] =>
        by destruct (stepn_loop f a b d e g h)
    end.
Qed.

(** The count returned when the first [maxsize] calls all report a further
    frame. *)
Lemma jl_unw_stepn_truncated (c c1 : bt_cursor_t) (ip : pointer)
    (sp : option pointer) (maxsize : size_t) (w : world) (fs : list stored)
    (m1 : memory) :
  assert_holds w -> maxsize < SIZE_MAX ->
  steps c fs c1 -> N.of_nat (length fs) = maxsize ->
  write_frames ip sp 0 fs (mem w) = Some m1 ->
  jl_unw_stepn c ip sp maxsize w = Done (maxsize + 1, c1) (set_mem m1 w).
Proof.
  intros Ha Hmax Hs Hlen Hw. rewrite jl_unw_stepn_unfold by done.
  replace (S (N.to_nat maxsize)) with (length fs + 1)%nat by lia.
  rewrite (stepn_loop_steps _ _ _ Hs 1%nat ip sp maxsize 0 (mem w) m1) by (done || lia).
  rewrite N.add_0_l, Hlen, stepn_loop_full. by rewrite wrap_small by lia.
Qed.

(** The count returned when a call reports the end of the stack. *)
Lemma jl_unw_stepn_ended (c c1 c2 : bt_cursor_t) (ip : pointer)
    (sp : option pointer) (maxsize : size_t) (w : world) (fs : list stored)
    (vip vsp : option uintptr_t) (m2 : memory) :
  assert_holds w -> maxsize <= SIZE_MAX ->
  steps c fs c1 -> N.of_nat (length fs) < maxsize ->
  jl_unw_step c1 = Stepped vip vsp false c2 ->
  write_frames ip sp 0 (fs ++ [(vip, vsp)]) (mem w) = Some m2 ->
  jl_unw_stepn c ip sp maxsize w
  = Done (N.of_nat (length fs) + 1, c2) (set_mem m2 w).
Proof.
  intros Ha Hmax Hs Hlen Hstep Hw. rewrite jl_unw_stepn_unfold by done.
  rewrite write_frames_app in Hw.
  destruct (write_frames ip sp 0 fs (mem w)) as [m1|] eqn:E1; simpl in Hw; [|done].
  destruct (step_stores _ _ vip vsp m1) as [m2'|] eqn:E2; simpl in Hw; [|done].
  injection Hw as ->.
  replace (S (N.to_nat maxsize))
    with (length fs + S (N.to_nat maxsize - length fs))%nat by lia.
  rewrite (stepn_loop_steps _ _ _ Hs _ ip sp maxsize 0 (mem w) m1) by (done || lia).
  rewrite N.add_0_l. cbn [stepn_loop].
  destruct (N.leb_spec maxsize (N.of_nat (length fs))) as [Hle|_]; [lia|].
  rewrite Hstep, Nat2N.id, E2. by rewrite wrap_small by lia.
Qed.

(** The count returned when a call faults, where the guard is compiled in. *)
Lemma jl_unw_stepn_faulted (c c1 c2 : bt_cursor_t) (ip : pointer)
    (sp : option pointer) (maxsize : size_t) (w : world) (fs : list stored)
    (vip vsp : option uintptr_t) (m2 : memory) :
  os_windows = false -> maxsize <= SIZE_MAX ->
  steps c fs c1 -> N.of_nat (length fs) < maxsize ->
  jl_unw_step c1 = Faulted vip vsp c2 ->
  write_frames ip sp 0 (fs ++ [(vip, vsp)]) (mem w) = Some m2 ->
  jl_unw_stepn c ip sp maxsize w
  = Done (N.of_nat (length fs - 1), c2) (set_mem m2 w).
Proof.
  intros Hos Hmax Hs Hlen Hstep Hw.
  rewrite jl_unw_stepn_unfold by (unfold assert_holds; by rewrite Hos).
  rewrite write_frames_app in Hw.
  destruct (write_frames ip sp 0 fs (mem w)) as [m1|] eqn:E1; simpl in Hw; [|done].
  destruct (step_stores _ _ vip vsp m1) as [m2'|] eqn:E2; simpl in Hw; [|done].
  injection Hw as ->.
  replace (S (N.to_nat maxsize))
    with (length fs + S (N.to_nat maxsize - length fs))%nat by lia.
  rewrite (stepn_loop_steps _ _ _ Hs _ ip sp maxsize 0 (mem w) m1) by (done || lia).
  rewrite N.add_0_l. cbn [stepn_loop].
  destruct (N.leb_spec maxsize (N.of_nat (length fs))) as [Hle|_]; [lia|].
  rewrite Hstep, Nat2N.id, E2, Hos.
  destruct (N.ltb_spec 0 (N.of_nat (length fs))) as [Hpos|Hz].
  - rewrite wrap_small by lia. do 2 f_equal. f_equal. lia.
  - do 2 f_equal. f_equal. lia.
Qed.

(** *** Walks *)

Lemma walk_length (c : bt_cursor_t) (fs : list (uintptr_t * uintptr_t)) :
  walk c fs -> (0 < length fs)%nat.
Proof. destruct 1; simpl; lia. Qed.

Lemma walk_take (c : bt_cursor_t) (fs : list (uintptr_t * uintptr_t)) :
  walk c fs ->
  ∀ k : nat, (k < length fs)%nat ->
    ∃ c', steps c (full (take k fs)) c' ∧ walk c' (drop k fs).
Proof.
  induction 1 as [c vip vsp c' Hstep|c vip vsp c' fs Hstep Hw IH]; intros k Hk.
  - simpl in Hk. replace k with 0%nat by lia. simpl.
    exists c. split; [constructor|]. by econstructor.
  - destruct k as [|k].
    + exists c. split; [constructor|]. by econstructor.
    + simpl in Hk. destruct (IH k) as (c2 & Hs & Hw'); [lia|].
      exists c2. split; [|done]. simpl. by econstructor.
Qed.

Lemma walk_single (c : bt_cursor_t) (f : uintptr_t * uintptr_t) :
  walk c [f] -> ∃ c', jl_unw_step c = Stepped (Some f.1) (Some f.2) false c'.
Proof.
  inversion 1 as [? ? ? c' Hstep|? ? ? c' ? Hstep Hw]; subst.
  - by exists c'.
  - apply walk_length in Hw. simpl in Hw. lia.
Qed.

(** *** Writing the frames of a walk into buffers *)

Lemma step_stores_full (ip : pointer) (sp : option pointer) (i : nat)
    (vip vsp x : uintptr_t) (m : memory) (pre junk pre' junk' : list uintptr_t) :
  block_data (blk ip) m = Some (pre ++ x :: junk) ->
  length pre = (ofs ip + i)%nat ->
  sp_shape sp ip i pre' junk' m -> (is_Some sp -> junk' ≠ []) ->
  ∃ m1, step_stores (ptr_add ip i) ((λ q, ptr_add q i) <$> sp)
          (Some vip) (Some vsp) m = Some m1
        ∧ block_data (blk ip) m1 = Some ((pre ++ [vip]) ++ junk)
        ∧ sp_shape sp ip (S i) (pre' ++ [vsp]) (tail junk') m1.
Proof.
  intros Hb Hpre Hsp Hj. unfold step_stores.
  assert (<[ofs (ptr_add ip i) := vip]> (pre ++ x :: junk) = (pre ++ [vip]) ++ junk) as Hins.
  { simpl. rewrite <- Hpre, insert_app_r_alt, Nat.sub_diag by lia.
    by rewrite <- app_assoc. }
  assert (store (ptr_add ip i) vip m
          = Some (log_store (ptr_add ip i)
                    (set_block_data (blk ip) ((pre ++ [vip]) ++ junk) m))) as E1.
  { rewrite <- Hins.
    apply (store_valid (ptr_add ip i) vip m (pre ++ x :: junk)); [done|].
    simpl. rewrite length_app. simpl. lia. }
  rewrite E1. simpl.
  pose proof (store_block_same _ _ _ _ _ E1 Hb) as Hb1. rewrite Hins in Hb1.
  destruct sp as [q|]; simpl.
  - destruct Hsp as (Hne & Hq & Hpre').
    destruct junk' as [|x' junk']; [by destruct Hj|]. simpl.
    assert (block_data (blk q) (log_store (ptr_add ip i)
              (set_block_data (blk ip) ((pre ++ [vip]) ++ junk) m))
            = Some (pre' ++ x' :: junk')) as Hq1.
    { rewrite <- Hq. eapply store_block_other; [exact E1|]. simpl. congruence. }
    assert (<[ofs (ptr_add q i) := vsp]> (pre' ++ x' :: junk')
            = (pre' ++ [vsp]) ++ junk') as Hins'.
    { simpl. rewrite <- Hpre', insert_app_r_alt, Nat.sub_diag by lia.
      by rewrite <- app_assoc. }
    eexists. split.
    { apply (store_valid (ptr_add q i) vsp _ (pre' ++ x' :: junk')); [exact Hq1|].
      simpl. rewrite length_app. simpl. lia. }
    split.
    + change (block_data (blk ip) (log_store ?p ?y)) with (block_data (blk ip) y).
      rewrite block_data_set_other by done. exact Hb1.
    + split; [done|]. split.
      * change (block_data (blk q) (log_store ?p ?y)) with (block_data (blk q) y).
        rewrite Hins'. by eapply (block_data_set_same (blk q)).
      * rewrite length_app. simpl. lia.
  - eexists. split; [done|]. split; [exact Hb1|done].
Qed.

Lemma write_frames_full (ip : pointer) (sp : option pointer)
    (fs : list (uintptr_t * uintptr_t)) :
  ∀ (i : nat) (m : memory) (pre junk pre' junk' : list uintptr_t),
    block_data (blk ip) m = Some (pre ++ junk) ->
    length pre = (ofs ip + i)%nat -> (length fs ≤ length junk)%nat ->
    sp_shape sp ip i pre' junk' m -> (is_Some sp -> length fs ≤ length junk')%nat ->
    ∃ m', write_frames ip sp i (full fs) m = Some m'
          ∧ block_data (blk ip) m' = Some (pre ++ fs.*1 ++ drop (length fs) junk)
          ∧ sp_shape sp ip (i + length fs)
              (pre' ++ fs.*2) (drop (length fs) junk') m'.
Proof.
  induction fs as [|[vip vsp] fs IH]; intros i m pre junk pre' junk' Hb Hpre Hlen Hsp Hlen'.
  - exists m. simpl. rewrite drop_0, app_nil_r. split; [done|].
    split; [done|]. destruct sp; [|done]. destruct Hsp as (? & ? & ?).
    simpl. rewrite drop_0. repeat split; try done. lia.
  - simpl in Hlen. destruct junk as [|x junk]; [simpl in Hlen; lia|].
    destruct (step_stores_full ip sp i vip vsp x m pre junk pre' junk')
      as (m1 & E1 & Hb1 & Hsp1); try done.
    { intros Hs ->. specialize (Hlen' Hs). simpl in Hlen'. lia. }
    destruct (IH (S i) m1 (pre ++ [vip]) junk (pre' ++ [vsp]) (tail junk'))
      as (m' & E' & Hb' & Hsp'); try done.
    { rewrite length_app. simpl. lia. }
    { simpl in Hlen. lia. }
    { intros Hs. specialize (Hlen' Hs). destruct junk'; simpl in *; lia. }
    exists m'. simpl. rewrite E1. simpl. split; [done|].
    rewrite <- !app_assoc in Hb'. split; [exact Hb'|].
    replace (i + S (length fs))%nat with (S i + length fs)%nat by lia.
    rewrite <- !app_assoc in Hsp'. simpl in Hsp'.
    destruct junk'; [|done]. simpl in *. by rewrite drop_nil in Hsp'.
Qed.

Lemma full_app (fs1 fs2 : list (uintptr_t * uintptr_t)) :
  full (fs1 ++ fs2) = full fs1 ++ full fs2.
Proof. unfold full. by rewrite fmap_app. Qed.

Lemma full_length (fs : list (uintptr_t * uintptr_t)) : length (full fs) = length fs.
Proof. unfold full. by rewrite length_fmap. Qed.

(** The stepping loop on a well-formed stack, with buffers that have room
    for [maxsize] entries after what they hold already. *)
Lemma jl_unw_stepn_walk (c : bt_cursor_t) (fs : list (uintptr_t * uintptr_t))
    (ip : pointer) (sp : option pointer) (maxsize : size_t) (w : world)
    (pre junk pre' junk' : list uintptr_t) :
  walk c fs -> assert_holds w -> maxsize < SIZE_MAX ->
  block_data (blk ip) (mem w) = Some (pre ++ junk) ->
  length pre = ofs ip -> (N.to_nat maxsize ≤ length junk)%nat ->
  sp_shape sp ip 0 pre' junk' (mem w) ->
  (is_Some sp -> N.to_nat maxsize ≤ length junk')%nat ->
  let k := (length fs `min` N.to_nat maxsize)%nat in
  ∃ c' m',
    jl_unw_stepn c ip sp maxsize w
    = Done (if decide (length fs ≤ N.to_nat maxsize)%nat
            then N.of_nat (length fs) else maxsize + 1, c') (set_mem m' w)
    ∧ write_frames ip sp 0 (full (take k fs)) (mem w) = Some m'
    ∧ block_data (blk ip) m' = Some (pre ++ (take k fs).*1 ++ drop k junk)
    ∧ sp_shape sp ip k (pre' ++ (take k fs).*2) (drop k junk') m'
    ∧ ((N.to_nat maxsize < length fs)%nat -> walk c' (drop (N.to_nat maxsize) fs)).
Proof.
  intros Hw Ha Hmax Hb Hpre Hj Hsp Hj' k.
  destruct (write_frames_full ip sp (take k fs) 0 (mem w) pre junk pre' junk')
    as (m' & E & Hb' & Hsp'); try done.
  { lia. }
  { rewrite length_take. lia. }
  { intros Hs. specialize (Hj' Hs). rewrite length_take. lia. }
  assert (length (take k fs) = k) as Hk by (rewrite length_take; lia).
  rewrite Hk in Hb', Hsp'. simpl in Hsp'.
  case_decide as Hd.
  - pose proof (walk_length _ _ Hw) as Hpos.
    destruct (walk_take _ _ Hw (length fs - 1)) as (c1 & Hs & Hw1); [lia|].
    assert (k = length fs) as Hkl by lia.
    assert (length (drop (length fs - 1) fs) = 1)%nat as Hl1
      by (rewrite length_drop; lia).
    destruct (drop (length fs - 1) fs) as [|f [|? ?]] eqn:Ed; try done.
    destruct (walk_single _ _ Hw1) as (c2 & Hstep).
    assert (full (take k fs) = full (take (length fs - 1) fs) ++ [(Some f.1, Some f.2)])
      as Hfull.
    { rewrite Hkl, firstn_all. rewrite <- (take_drop (length fs - 1) fs) at 1.
      by rewrite Ed, full_app. }
    exists c2, m'. split; [|split; [done|split; [done|split; [done|lia]]]].
    rewrite Hfull in E.
    rewrite (jl_unw_stepn_ended c c1 c2 ip sp maxsize w
               (full (take (length fs - 1) fs)) (Some f.1) (Some f.2) m' Ha);
      try done.
    + rewrite full_length, length_take. do 2 f_equal. lia.
    + lia.
    + rewrite full_length, length_take. lia.
  - assert (k = N.to_nat maxsize) as Hkl by lia.
    destruct (walk_take _ _ Hw k) as (c1 & Hs & Hw1); [lia|].
    exists c1, m'. split; [|split; [done|split; [done|split; [done|]]]].
    + apply (jl_unw_stepn_truncated c c1 ip sp maxsize w (full (take k fs)) m' Ha);
        try done.
      rewrite full_length. lia.
    + intros _. by rewrite <- Hkl.
Qed.

Lemma usub_le (a b : N) : b <= a -> a <= SIZE_MAX -> usub a b = a - b.
Proof.
  intros Hb Ha. unfold usub, wrap. pose proof modulus_pos as Hm.
  unfold SIZE_MAX in Ha.
  replace (a + 2 ^ ptr_bits - b) with ((a - b) + 1 * 2 ^ ptr_bits) by lia.
  rewrite N.Div0.mod_add. apply N.mod_small. lia.
Qed.

Lemma set_mem_set_mem (m1 m2 : memory) (w : world) :
  set_mem m2 (set_mem m1 w) = set_mem m2 w.
Proof. done. Qed.

Lemma set_mem_mem (w : world) : set_mem (mem w) w = w.
Proof. by destruct w. Qed.

Lemma assert_holds_set_mem (m : memory) (w : world) :
  assert_holds (set_mem m w) ↔ assert_holds w.
Proof. done. Qed.

(** *** What the stepping loop leaves alone *)

Lemma stepn_loop_frame (b : block) (ip : pointer) (sp : option pointer) :
  blk ip ≠ b -> (∀ q, sp = Some q -> blk q ≠ b) ->
  ∀ (fuel : nat) (c : bt_cursor_t) (maxsize n : size_t) (m : memory),
    match stepn_loop fuel c ip sp maxsize n m with
    | Break _ _ m' | Longjmp _ _ m' => block_data b m' = block_data b m
    | _ => True
    end.
Proof.
  intros Hip Hsp. induction fuel as [|fuel IH]; intros c maxsize n m; [done|].
  cbn [stepn_loop]. destruct (maxsize <=? n); [done|].
  assert (∀ vip vsp m', step_stores (ptr_add ip (N.to_nat n))
                          ((λ q, ptr_add q (N.to_nat n)) <$> sp) vip vsp m = Some m' ->
                        block_data b m' = block_data b m) as Hst.
  { intros vip vsp m' E. eapply step_stores_block_other; [exact E|done|].
    intros q Hq. destruct sp as [q0|]; [|done]. simpl in Hq. injection Hq as <-.
    simpl. by apply Hsp. }
  destruct (jl_unw_step c) as [vip vsp r c'|vip vsp c'].
  - destruct (step_stores _ _ vip vsp m) as [m'|] eqn:E; [|done].
    destruct r; [|by eapply Hst].
    specialize (IH c' maxsize (wrap (n + 1)) m').
    destruct (stepn_loop fuel c' ip sp maxsize (wrap (n + 1)) m'); try done;
      rewrite IH; by eapply Hst.
  - destruct (step_stores _ _ vip vsp m) as [m'|] eqn:E; [|done]. by eapply Hst.
Qed.

Lemma jl_unw_stepn_frame (c : bt_cursor_t) (ip : pointer) (sp : option pointer)
    (maxsize : size_t) (w w' : world) (r : size_t * bt_cursor_t) :
  jl_unw_stepn c ip sp maxsize w = Done r w' ->
  jl_bt_size w' = jl_bt_size w
  ∧ console w' = console w
  ∧ ∀ b, blk ip ≠ b -> (∀ q, sp = Some q -> blk q ≠ b) ->
         block_data b (mem w') = block_data b (mem w).
Proof.
  unfold jl_unw_stepn. intros H.
  assert (∀ b, blk ip ≠ b -> (∀ q, sp = Some q -> blk q ≠ b) ->
            match stepn_loop (S (N.to_nat maxsize)) c ip sp maxsize 0 (mem w) with
            | Break _ _ m' | Longjmp _ _ m' => block_data b m' = block_data b (mem w)
            | _ => True
            end) as Hf by (intros; by apply stepn_loop_frame).
  destruct w as [m0 sz fl sr ty co].
  destruct os_windows, cpu_x86_64, fl;
    cbn [andb negb mem jl_in_stackwalk jl_safe_restore set_in_stackwalk
         set_safe_restore] in *; try discriminate H;
    match type of H with
    | context [stepn_loop ?f ?a ?x ?d ?e ?g ?h] =>
        destruct (stepn_loop f a x d e g h); try discriminate H
    end; injection H as <- <-; simpl; repeat split; done.
Qed.

(** *** Bounded capture *)

Lemma rec_backtrace_ctx_walk (data : pointer) (maxsize : size_t)
    (context : bt_context_t) (c : bt_cursor_t) (w : world)
    (fs : list (uintptr_t * uintptr_t)) (l : list uintptr_t) :
  assert_holds w -> maxsize < SIZE_MAX ->
  jl_unw_init context = Some c -> walk c fs ->
  block_data (blk data) (mem w) = Some l ->
  (ofs data + N.to_nat maxsize ≤ length l)%nat ->
  let k := (length fs `min` N.to_nat maxsize)%nat in
  ∃ m', rec_backtrace_ctx data maxsize context w = Done (N.of_nat k) (set_mem m' w)
        ∧ block_data (blk data) m'
          = Some (take (ofs data) l ++ (take k fs).*1 ++ drop (ofs data + k) l).
Proof.
  intros Ha Hmax Hinit Hw Hb Hlen k.
  destruct (jl_unw_stepn_walk c fs data None maxsize w
              (take (ofs data) l) (drop (ofs data) l) [] [])
    as (c' & m' & E & _ & Hb' & _); try done.
  { by rewrite take_drop. }
  { rewrite length_take. lia. }
  { rewrite length_drop. lia. }
  exists m'. unfold rec_backtrace_ctx. rewrite Hinit, E.
  rewrite drop_drop in Hb'. split; [|exact Hb'].
  f_equal. case_decide.
  - destruct (N.ltb_spec maxsize (N.of_nat (length fs))); lia.
  - destruct (N.ltb_spec maxsize (maxsize + 1)); lia.
Qed.

(** *** Growable capture *)

Section Growable.
Variable uninit : uintptr_t.

Lemma grow_end_Some (a : nat) (inc : size_t) (w : world) (l : list uintptr_t) :
  bufs (mem w) !! a = Some l ->
  jl_array_grow_end uninit a inc w
  = Some (set_bufs (<[a := l ++ replicate (N.to_nat inc) uninit]> (bufs (mem w))) w).
Proof. unfold jl_array_grow_end. by intros ->. Qed.

Lemma del_end_Some (a : nat) (dec : size_t) (w : world) (l : list uintptr_t) :
  bufs (mem w) !! a = Some (l ++ replicate (N.to_nat dec) uninit) ->
  jl_array_del_end a dec w = Some (set_bufs (<[a := l]> (bufs (mem w))) w).
Proof.
  unfold jl_array_del_end. intros ->. simpl.
  rewrite decide_True by (rewrite length_app, length_replicate; lia).
  rewrite length_app, length_replicate.
  replace (length l + N.to_nat dec - N.to_nat dec)%nat with (length l) by lia.
  by rewrite take_app_length.
Qed.

Lemma grow_arrays (maxincr : size_t) (returnsp : bool) (ip : nat) (sp : option nat)
    (w : world) (xs ys : list uintptr_t) :
  bufs (mem w) !! ip = Some xs ->
  (∀ s, returnsp = true -> sp = Some s -> s ≠ ip ∧ bufs (mem w) !! s = Some ys) ->
  (returnsp = true -> is_Some sp) ->
  ∃ m2,
    jl_array_grow_end uninit ip maxincr w
      ≫= if_returnsp returnsp sp (λ s, jl_array_grow_end uninit s maxincr)
    = Some (set_mem m2 w)
    ∧ bufs m2 !! ip = Some (xs ++ replicate (N.to_nat maxincr) uninit)
    ∧ (∀ s, returnsp = true -> sp = Some s ->
         bufs m2 !! s = Some (ys ++ replicate (N.to_nat maxincr) uninit)).
Proof.
  intros Hip Hsp Hsome. rewrite (grow_end_Some _ _ _ _ Hip). simpl.
  assert (ip < length (bufs (mem w)))%nat as Hlt by (by eapply lookup_lt_Some).
  destruct returnsp; simpl.
  - destruct (Hsome eq_refl) as [s ->]. destruct (Hsp s eq_refl eq_refl) as [Hne Hs].
    simpl. erewrite grow_end_Some; [|simpl; by rewrite list_lookup_insert_ne].
    eexists. split; [reflexivity|]. simpl. split.
    + rewrite list_lookup_insert_ne by done. by apply list_lookup_insert_eq.
    + intros s' _ [= <-]. apply list_lookup_insert_eq. rewrite length_insert.
      by eapply lookup_lt_Some.
  - eexists. split; [reflexivity|]. simpl. split.
    + by apply list_lookup_insert_eq.
    + by intros.
Qed.

Lemma del_arrays (dec : size_t) (returnsp : bool) (ip : nat) (sp : option nat)
    (w : world) (xs ys : list uintptr_t) :
  bufs (mem w) !! ip = Some (xs ++ replicate (N.to_nat dec) uninit) ->
  (∀ s, returnsp = true -> sp = Some s ->
     s ≠ ip ∧ bufs (mem w) !! s = Some (ys ++ replicate (N.to_nat dec) uninit)) ->
  (returnsp = true -> is_Some sp) ->
  ∃ m2,
    jl_array_del_end ip dec w
      ≫= if_returnsp returnsp sp (λ s, jl_array_del_end s dec)
    = Some (set_mem m2 w)
    ∧ bufs m2 !! ip = Some xs
    ∧ (∀ s, returnsp = true -> sp = Some s -> bufs m2 !! s = Some ys)
    ∧ jl_bt_data m2 = jl_bt_data (mem w).
Proof.
  intros Hip Hsp Hsome. rewrite (del_end_Some _ _ _ _ Hip). simpl.
  assert (ip < length (bufs (mem w)))%nat as Hlt by (by eapply lookup_lt_Some).
  destruct returnsp; simpl.
  - destruct (Hsome eq_refl) as [s ->]. destruct (Hsp s eq_refl eq_refl) as [Hne Hs].
    simpl. erewrite del_end_Some; [|simpl; by rewrite list_lookup_insert_ne].
    eexists. split; [reflexivity|]. simpl. split; [|split; [|done]].
    + rewrite list_lookup_insert_ne by done. by apply list_lookup_insert_eq.
    + intros s' _ [= <-]. apply list_lookup_insert_eq. rewrite length_insert.
      by eapply lookup_lt_Some.
  - eexists. split; [reflexivity|]. simpl. split; [|split; [|done]].
    + by apply list_lookup_insert_eq.
    + by intros.
Qed.

Lemma capture_loop_walk (maxincr : size_t) (returnsp : bool) (ip : nat)
    (sp : option nat) :
  0 < maxincr ->
  (returnsp = true -> ∃ s, sp = Some s ∧ s ≠ ip) ->
  ∀ (fuel : nat) (c : bt_cursor_t) (fs seen : list (uintptr_t * uintptr_t))
    (offset : size_t) (w : world),
    walk c fs -> assert_holds w ->
    (length fs ≤ fuel * N.to_nat maxincr)%nat ->
    offset = N.of_nat (length seen) ->
    offset + N.of_nat (length fs) + maxincr <= SIZE_MAX ->
    bufs (mem w) !! ip = Some seen.*1 ->
    (∀ s, returnsp = true -> sp = Some s -> bufs (mem w) !! s = Some seen.*2) ->
    ∃ n m',
      capture_loop uninit fuel maxincr returnsp ip sp c offset w
      = Done n (set_mem m' w)
      ∧ n <= maxincr
      ∧ bufs m' !! ip
        = Some ((seen ++ fs).*1 ++ replicate (N.to_nat (maxincr - n)) uninit)
      ∧ (∀ s, returnsp = true -> sp = Some s ->
           bufs m' !! s
           = Some ((seen ++ fs).*2 ++ replicate (N.to_nat (maxincr - n)) uninit))
      ∧ jl_bt_data m' = jl_bt_data (mem w).
Proof.
  intros Hpos Hsp. induction fuel as [|fuel IH];
    intros c fs seen offset w Hw Ha Hfuel Hoff Hmax Hip Hsps.
  { apply walk_length in Hw. simpl in Hfuel. lia. }
  pose proof (walk_length _ _ Hw) as Hlen.
  destruct (grow_arrays maxincr returnsp ip sp w seen.*1 seen.*2)
    as (m2 & Eg & Hip2 & Hsp2); try done.
  { intros s Hr Hs. destruct (Hsp Hr) as (s' & Hs' & Hne). split; [congruence|eauto]. }
  { intros Hr. destruct (Hsp Hr) as (s' & -> & _). eauto. }
  cbn [capture_loop]. rewrite Eg.
  set (ipp := ptr_add (jl_array_data ip) (N.to_nat offset)).
  set (spp := if returnsp
              then (λ s, ptr_add (jl_array_data s) (N.to_nat offset)) <$> sp
              else None).
  destruct (jl_unw_stepn_walk c fs ipp spp maxincr (set_mem m2 w)
              seen.*1 (replicate (N.to_nat maxincr) uninit)
              seen.*2 (replicate (N.to_nat maxincr) uninit))
    as (c' & m' & E & Hwf & Hb' & Hsp' & Hrest); try done.
  { lia. }
  { rewrite length_fmap. subst offset. simpl. lia. }
  { by rewrite length_replicate. }
  { subst spp. destruct returnsp; [|done].
    destruct (Hsp eq_refl) as (s & -> & Hne). simpl.
    split; [congruence|]. split; [by apply Hsp2|].
    rewrite length_fmap. subst offset. lia. }
  { by rewrite length_replicate. }
  rewrite E. rewrite set_mem_set_mem.
  assert (jl_bt_data m' = jl_bt_data (mem w)) as Hbt.
  { assert (block_data JlBtData m' = block_data JlBtData m2) as Hx.
    { eapply (write_frames_block_other ipp spp JlBtData); [done| |exact Hwf].
      subst spp. destruct returnsp; [|done]. destruct sp; [|done].
      by intros q [= <-]. }
    simpl in Hx. injection Hx as ->.
    apply (f_equal (fmap mem)) in Eg. revert Eg.
    rewrite (grow_end_Some _ _ _ _ Hip). simpl.
    destruct returnsp; simpl.
    - destruct (Hsp eq_refl) as (s & -> & Hne). simpl.
      erewrite grow_end_Some; [|simpl; rewrite list_lookup_insert_ne by done;
                                 by apply Hsps].
      simpl. by intros [= <-].
    - by intros [= <-]. }
  rewrite drop_replicate in Hb', Hsp'.
  case_decide as Hd.
  - (* the walk ends within this increment *)
    destruct (N.ltb_spec maxincr (N.of_nat (length fs))) as [?|_]; [lia|].
    exists (N.of_nat (length fs)), m'.
    replace (length fs `min` N.to_nat maxincr)%nat with (length fs) in * by lia.
    rewrite firstn_all in Hb', Hsp'.
    replace (N.to_nat (maxincr - N.of_nat (length fs)))
      with (N.to_nat maxincr - length fs)%nat by lia.
    split; [done|]. split; [lia|]. split; [|split; [|done]].
    + simpl in Hb'. rewrite Hb'. by rewrite fmap_app, <- app_assoc.
    + intros s Hr ->. subst spp. rewrite Hr in Hsp'. simpl in Hsp'.
      destruct Hsp' as (_ & -> & _). by rewrite fmap_app, <- app_assoc.
  - (* the increment is full: go round again *)
    destruct (N.ltb_spec maxincr (maxincr + 1)) as [_|?]; [|lia].
    replace (length fs `min` N.to_nat maxincr)%nat with (N.to_nat maxincr) in * by lia.
    rewrite Nat.sub_diag in Hb', Hsp'. simpl in Hb'.
    rewrite app_nil_r in Hb'.
    rewrite wrap_small by lia.
    destruct (IH c' (drop (N.to_nat maxincr) fs)
                (seen ++ take (N.to_nat maxincr) fs)
                (offset + maxincr) (set_mem m' w))
      as (n & m'' & E' & Hn & Hip'' & Hsp'' & Hbt''); try done.
    { apply Hrest. lia. }
    { rewrite length_drop. simpl in Hfuel. lia. }
    { rewrite length_app, length_take. lia. }
    { rewrite length_drop. lia. }
    { simpl. by rewrite fmap_app. }
    { intros s Hr ->. subst spp. rewrite Hr in Hsp'. simpl in Hsp'.
      destruct Hsp' as (_ & Hq & _). rewrite app_nil_r in Hq.
      simpl. by rewrite fmap_app. }
    exists n, m''. rewrite E'. rewrite set_mem_set_mem.
    rewrite <- app_assoc, take_drop in Hip'', Hsp''.
    split; [done|]. split; [done|]. split; [done|]. split; [done|].
    simpl in Hbt''. congruence.
Qed.

Lemma backtrace_from_here_walk (maxincr : size_t) (fuel : nat)
    (here : bt_context_t) (returnsp : bool) (w : world)
    (fs : list (uintptr_t * uintptr_t)) :
  assert_holds w -> 0 < maxincr ->
  N.of_nat (length fs) + maxincr <= SIZE_MAX ->
  stack_frames here fs -> (length fs ≤ fuel * N.to_nat maxincr)%nat ->
  let ip := length (bufs (mem w)) in
  ∃ w',
    backtrace_from_here uninit maxincr fuel here returnsp w
    = Done (if returnsp then jl_svec2 (JlArray ip) (JlArray (S ip)) else JlArray ip) w'
    ∧ bufs (mem w') !! ip = Some fs.*1
    ∧ (returnsp = true -> bufs (mem w') !! S ip = Some fs.*2)
    ∧ jl_bt_data (mem w') = jl_bt_data (mem w)
    ∧ jl_bt_size w' = jl_bt_size w.
Proof.
  intros Ha Hpos Hmax Hd Hfuel ip. unfold backtrace_from_here, stack_frames in *.
  set (w0 := init_array_ptr_void_type w).
  assert (mem w0 = mem w ∧ assert_holds w0 ∧ jl_bt_size w0 = jl_bt_size w)
    as (Hm0 & Ha0 & Hs0).
  { subst w0. unfold init_array_ptr_void_type. by destruct (array_ptr_void_type w). }
  unfold jl_alloc_array_1d. rewrite Hm0. fold ip. simpl replicate.
  set (w1 := set_bufs (bufs (mem w) ++ [[]]) w0).
  destruct returnsp.
  - set (w2 := set_bufs (bufs (mem w1) ++ [[]]) w1).
    assert (length (bufs (mem w1)) = S ip) as Hl1.
    { subst w1 ip. simpl. rewrite length_app. simpl. lia. }
    rewrite Hl1.
    assert (bufs (mem w2) !! ip = Some []) as Hip2.
    { subst w2 w1. simpl. rewrite lookup_app_l by (rewrite length_app; simpl; lia).
      by apply list_lookup_middle. }
    assert (bufs (mem w2) !! S ip = Some []) as Hsp2.
    { subst w2. cbn [mem set_bufs set_mem bufs]. apply list_lookup_middle.
      by rewrite Hl1. }
    assert (jl_bt_data (mem w2) = jl_bt_data (mem w)) as Hbt2
      by (subst w2 w1; simpl; by rewrite Hm0).
    destruct (jl_unw_init here) as [c|]; [|subst fs; by exists w2].
    destruct (capture_loop_walk maxincr true ip (Some (S ip)) Hpos) with
      (fuel := fuel) (c := c) (fs := fs) (seen := @nil (uintptr_t * uintptr_t))
      (offset := 0) (w := w2)
      as (n & m' & E & Hn & Hip' & Hsp' & Hbt); try done.
    { intros _. exists (S ip). split; [done|lia]. }
    { by intros s _ [= <-]. }
    rewrite E.
    rewrite usub_le by (done || lia).
    destruct (del_arrays (maxincr - n) true ip (Some (S ip)) (set_mem m' w2)
                fs.*1 fs.*2) as (m2 & Ed & Hip'' & Hsp'' & Hbt''); try done.
    { intros s _ [= <-]. split; [lia|]. by apply Hsp'. }
    rewrite Ed. exists (set_mem m2 (set_mem m' w2)).
    split; [done|]. split; [done|]. split; [intros _; by apply Hsp''|].
    simpl in *. split; [congruence|done].
  - destruct (jl_unw_init here) as [c|].
    2:{ subst fs. exists w1. split; [done|]. subst w1. simpl.
        split; [by apply list_lookup_middle|]. by rewrite Hm0. }
    assert (bufs (mem w1) !! ip = Some []) as Hip1.
    { subst w1. simpl. by apply list_lookup_middle. }
    destruct (capture_loop_walk maxincr false ip None Hpos) with
      (fuel := fuel) (c := c) (fs := fs) (seen := @nil (uintptr_t * uintptr_t))
      (offset := 0) (w := w1)
      as (n & m' & E & Hn & Hip' & Hsp' & Hbt); try done.
    rewrite E.
    rewrite usub_le by (done || lia).
    destruct (del_arrays (maxincr - n) false ip None (set_mem m' w1)
                fs.*1 fs.*2) as (m2 & Ed & Hip'' & Hsp'' & Hbt''); try done.
    rewrite Ed. exists (set_mem m2 (set_mem m' w1)).
    split; [done|]. split; [done|]. split; [done|].
    simpl in *. split; [congruence|done].
Qed.

End Growable.

(** *** The claims about the stepping loop and bounded capture *)

Lemma ips_stored_all (fs : list stored) :
  Forall (λ f : stored, is_Some f.1) fs -> ips_stored fs = length fs.
Proof.
  unfold ips_stored. induction 1 as [|f fs Hf _ IH]; [done|].
  rewrite filter_cons, decide_True by done. simpl. by rewrite IH.
Qed.

(** C1, as amended. Where the assert of jl_unw_stepn holds and the buffers
    are distinct arrays with room for the stores: when each of the first
    [maxsize] calls of jl_unw_step reports a further frame, jl_unw_stepn
    returns [maxsize + 1]. When no call faults, every call stores its
    instruction pointer and the backend reports the end of the stack at
    call number [k + 1], with [k < maxsize], it returns [k + 1], the
    number of frames written. When call number [k + 1] faults instead (and
    the guard is compiled in), the count returned is [k - 1], or 0 when
    [k = 0]; where the [k] calls before it each stored their instruction
    pointer, [k] frames were written, or [k + 1] when the faulting call
    had stored its own, so that the count is less than the number of
    frames written, except that both are 0 when [k = 0] and the faulting
    call stored nothing. *)
Theorem jl_unw_stepn_count (c c1 : bt_cursor_t) (ip : pointer)
    (sp : option pointer) (maxsize : size_t) (w : world) (fs : list stored) :
  assert_holds w -> maxsize < SIZE_MAX -> sp_apart ip sp ->
  steps c fs c1 ->
  (N.of_nat (length fs) = maxsize ->
   ∀ m1, write_frames ip sp 0 fs (mem w) = Some m1 ->
     jl_unw_stepn c ip sp maxsize w = Done (maxsize + 1, c1) (set_mem m1 w)
     ∧ frames_written ip (mem w) m1 = ips_stored fs)
  ∧ (N.of_nat (length fs) < maxsize ->
     Forall (λ f : stored, is_Some f.1) fs ->
     ∀ vip vsp c2 m2,
       jl_unw_step c1 = Stepped (Some vip) vsp false c2 ->
       write_frames ip sp 0 (fs ++ [(Some vip, vsp)]) (mem w) = Some m2 ->
       jl_unw_stepn c ip sp maxsize w
       = Done (N.of_nat (length fs) + 1, c2) (set_mem m2 w)
       ∧ N.of_nat (frames_written ip (mem w) m2) = N.of_nat (length fs) + 1)
  ∧ (N.of_nat (length fs) < maxsize -> os_windows = false ->
     ∀ vip vsp c2 m2,
       jl_unw_step c1 = Faulted vip vsp c2 ->
       write_frames ip sp 0 (fs ++ [(vip, vsp)]) (mem w) = Some m2 ->
       jl_unw_stepn c ip sp maxsize w
       = Done (N.of_nat (length fs - 1), c2) (set_mem m2 w)
       ∧ frames_written ip (mem w) m2 = ips_stored (fs ++ [(vip, vsp)])
       ∧ (Forall (λ f : stored, is_Some f.1) fs ->
          frames_written ip (mem w) m2
          = (length fs + match vip with Some _ => 1 | None => 0 end)%nat
          ∧ ((0 < length fs)%nat ∨ is_Some vip ->
             N.of_nat (length fs - 1) < N.of_nat (frames_written ip (mem w) m2))
          ∧ (fs = [] -> vip = None ->
             N.of_nat (length fs - 1) = 0
             ∧ frames_written ip (mem w) m2 = 0%nat))).
Proof.
  intros Ha Hmax Hsp Hs.
  assert (∀ l m2, write_frames ip sp 0 l (mem w) = Some m2 ->
                  frames_written ip (mem w) m2 = ips_stored l) as Hfw.
  { intros l m2 Hw. unfold frames_written.
    rewrite (write_frames_stores_to _ _ _ Hsp _ _ _ Hw). lia. }
  assert (∀ (l : list stored) (x : stored),
            Forall (λ f : stored, is_Some f.1) l ->
            ips_stored (l ++ [x])
            = (length l + match x.1 with Some _ => 1 | None => 0 end)%nat)
    as Hcount.
  { intros l x Hl. unfold ips_stored. rewrite filter_app, length_app.
    fold (ips_stored l). rewrite (ips_stored_all _ Hl). f_equal.
    rewrite filter_cons. destruct x as [[a|] b]; case_decide as Hx; simpl in *;
      try done.
    exfalso. apply Hx. by eexists. }
  split; [|split].
  - intros Hlen m1 Hw. split; [|by apply Hfw].
    by apply (jl_unw_stepn_truncated c c1 ip sp maxsize w fs m1).
  - intros Hlen Hall vip vsp c2 m2 Hstep Hw. split.
    + apply (jl_unw_stepn_ended c c1 c2 ip sp maxsize w fs (Some vip) vsp m2);
        try done. lia.
    + rewrite (Hfw _ _ Hw), (Hcount _ _ Hall). simpl. lia.
  - intros Hlen Hos vip vsp c2 m2 Hstep Hw. split; [|split; [by apply Hfw|]].
    + apply (jl_unw_stepn_faulted c c1 c2 ip sp maxsize w fs vip vsp m2);
        try done. lia.
    + intros Hall. rewrite (Hfw _ _ Hw), (Hcount _ _ Hall). simpl.
      split; [done|]. split.
      * intros [Hk|[a ->]]; [destruct vip|]; lia.
      * intros -> ->. done.
Qed.

(** C2, as amended. From a context whose stack has the frames [fs], into
    a buffer with room for [maxsize] entries, bounded capture returns
    [min (length fs) maxsize]: the depth when it fits, and the capacity
    itself (never [maxsize + 1]) when the stack is deeper; the entries of
    the buffer below the count are the instruction pointers of the
    innermost frames, in order. *)
Theorem rec_backtrace_ctx_count (data : pointer) (maxsize : size_t)
    (context : bt_context_t) (w : world) (fs : list (uintptr_t * uintptr_t))
    (l : list uintptr_t) :
  assert_holds w -> maxsize < SIZE_MAX -> stack_frames context fs ->
  block_data (blk data) (mem w) = Some l ->
  (ofs data + N.to_nat maxsize ≤ length l)%nat ->
  ∃ w',
    rec_backtrace_ctx data maxsize context w
    = Done (N.min (N.of_nat (length fs)) maxsize) w'
    ∧ rec_backtrace context data maxsize w
      = Done (N.min (N.of_nat (length fs)) maxsize) w'
    ∧ N.min (N.of_nat (length fs)) maxsize <= maxsize
    ∧ ∀ i, (i < length fs `min` N.to_nat maxsize)%nat ->
           load (ptr_add data i) (mem w') = fst <$> fs !! i.
Proof.
  intros Ha Hmax Hd Hb Hlen. unfold rec_backtrace, stack_frames in *.
  destruct (jl_unw_init context) as [c|] eqn:Hinit.
  - destruct (rec_backtrace_ctx_walk data maxsize context c w fs l)
      as (m' & E & Hb'); try done.
    exists (set_mem m' w). rewrite E.
    replace (N.of_nat (length fs `min` N.to_nat maxsize))
      with (N.min (N.of_nat (length fs)) maxsize) by lia.
    split; [done|]. split; [done|]. split; [lia|].
    intros i Hi. unfold load. simpl. rewrite Hb'.
    rewrite lookup_app_r by (rewrite length_take; lia).
    rewrite length_take.
    replace (ofs data + i - ofs data `min` length l)%nat with i by lia.
    rewrite lookup_app_l by (rewrite length_fmap, length_take; lia).
    rewrite list_lookup_fmap, lookup_take_lt by lia. done.
  - subst fs. exists w. unfold rec_backtrace_ctx. rewrite Hinit.
    change (N.of_nat (length [])) with 0. rewrite N.min_0_l.
    split; [done|]. split; [done|]. split; [lia|]. intros i Hi. simpl in Hi. lia.
Qed.

(** C3, as amended. Where the setjmp guard is compiled in (not on
    Windows): when the call number [k] of jl_unw_step faults, after [k - 1]
    calls that each reported a further frame, jl_unw_stepn returns
    [k - 2], the [k - 1] collected frames less one ([0] when [k = 1]), and
    so does bounded capture; the process goes on and jl_safe_restore is
    what it was before the call. *)
Theorem jl_unw_stepn_fault (k : nat) (c c1 c2 : bt_cursor_t) (ip : pointer)
    (sp : option pointer) (maxsize : size_t) (w : world) (fs : list stored)
    (vip vsp : option uintptr_t) (m2 : memory) :
  os_windows = false -> maxsize <= SIZE_MAX ->
  (1 ≤ k)%nat -> length fs = (k - 1)%nat -> N.of_nat (length fs) < maxsize ->
  steps c fs c1 ->
  jl_unw_step c1 = Faulted vip vsp c2 ->
  write_frames ip sp 0 (fs ++ [(vip, vsp)]) (mem w) = Some m2 ->
  jl_unw_stepn c ip sp maxsize w = Done (N.of_nat (k - 2), c2) (set_mem m2 w)
  ∧ jl_safe_restore (set_mem m2 w) = jl_safe_restore w
  ∧ (∀ context, sp = None -> jl_unw_init context = Some c ->
       rec_backtrace_ctx ip maxsize context w
       = Done (N.of_nat (k - 2)) (set_mem m2 w)).
Proof.
  intros Hos Hmax Hk Hlen Hlt Hs Hstep Hw.
  assert (jl_unw_stepn c ip sp maxsize w = Done (N.of_nat (k - 2), c2) (set_mem m2 w))
    as E.
  { rewrite (jl_unw_stepn_faulted c c1 c2 ip sp maxsize w fs vip vsp m2); try done.
    do 3 f_equal. lia. }
  split; [done|]. split; [done|].
  intros context -> Hinit. unfold rec_backtrace_ctx. rewrite Hinit, E.
  f_equal. destruct (N.ltb_spec maxsize (N.of_nat (k - 2))); lia.
Qed.

(** *** What the captures leave alone *)

Lemma same_snapshot_refl (w : world) : same_snapshot w w.
Proof. done. Qed.

Lemma same_snapshot_trans (w1 w2 w3 : world) :
  same_snapshot w1 w2 -> same_snapshot w2 w3 -> same_snapshot w1 w3.
Proof. unfold same_snapshot. intros [-> ->] [-> ->]. done. Qed.

Lemma jl_unw_stepn_snapshot (c : bt_cursor_t) (ip : pointer) (sp : option pointer)
    (maxsize : size_t) (w w' : world) (r : size_t * bt_cursor_t) :
  blk ip ≠ JlBtData -> (∀ q, sp = Some q -> blk q ≠ JlBtData) ->
  jl_unw_stepn c ip sp maxsize w = Done r w' -> same_snapshot w w'.
Proof.
  intros Hip Hsp (Hsz & _ & Hb)%jl_unw_stepn_frame. split; [done|].
  specialize (Hb JlBtData Hip Hsp). simpl in Hb. congruence.
Qed.

Lemma rec_backtrace_ctx_snapshot (data : pointer) (maxsize : size_t)
    (context : bt_context_t) (w w' : world) (n : size_t) :
  blk data ≠ JlBtData ->
  rec_backtrace_ctx data maxsize context w = Done n w' -> same_snapshot w w'.
Proof.
  intros Hd. unfold rec_backtrace_ctx.
  destruct (jl_unw_init context) as [c|]; [|by intros [= _ <-]].
  destruct (jl_unw_stepn c data None maxsize w) as [[n' c'] w''| |] eqn:E; try done.
  intros [= _ <-]. eapply jl_unw_stepn_snapshot; [| |exact E]; done.
Qed.

Lemma rec_backtrace_ctx_size (data : pointer) (maxsize : size_t)
    (context : bt_context_t) (w w' : world) (n : size_t) :
  rec_backtrace_ctx data maxsize context w = Done n w' ->
  jl_bt_size w' = jl_bt_size w.
Proof.
  unfold rec_backtrace_ctx.
  destruct (jl_unw_init context) as [c|]; [|by intros [= _ <-]].
  destruct (jl_unw_stepn c data None maxsize w) as [[n' c'] w''| |] eqn:E; try done.
  intros [= _ <-]. by apply jl_unw_stepn_frame in E as (? & _).
Qed.

Section GrowableFrame.
Variable uninit : uintptr_t.

Lemma grow_end_snapshot (a : nat) (inc : size_t) (w w' : world) :
  jl_array_grow_end uninit a inc w = Some w' -> same_snapshot w w'.
Proof.
  unfold jl_array_grow_end. destruct (bufs (mem w) !! a); [|done].
  by intros [= <-].
Qed.

Lemma del_end_snapshot (a : nat) (dec : size_t) (w w' : world) :
  jl_array_del_end a dec w = Some w' -> same_snapshot w w'.
Proof.
  unfold jl_array_del_end. destruct (bufs (mem w) !! a); [|done]. simpl.
  case_decide; [|done]. by intros [= <-].
Qed.

Lemma if_returnsp_snapshot (returnsp : bool) (sp : option nat)
    (f : nat -> world -> option world) (w w' : world) :
  (∀ s w1 w2, f s w1 = Some w2 -> same_snapshot w1 w2) ->
  if_returnsp returnsp sp f w = Some w' -> same_snapshot w w'.
Proof.
  intros Hf. unfold if_returnsp. destruct returnsp; [|by intros [= <-]].
  destruct sp as [s|]; [|done]. simpl. apply Hf.
Qed.

Lemma capture_loop_snapshot (maxincr : size_t) (returnsp : bool) (ip : nat)
    (sp : option nat) :
  ∀ (fuel : nat) (c : bt_cursor_t) (offset : size_t) (w w' : world) (n : size_t),
    capture_loop uninit fuel maxincr returnsp ip sp c offset w = Done n w' ->
    same_snapshot w w'.
Proof.
  induction fuel as [|fuel IH]; intros c offset w w' n; [done|].
  cbn [capture_loop].
  destruct (jl_array_grow_end uninit ip maxincr w) as [w1|] eqn:E1; [|done].
  simpl.
  destruct (if_returnsp returnsp sp _ w1) as [w2|] eqn:E2; [|done].
  assert (same_snapshot w w2) as H2.
  { eapply same_snapshot_trans; [eapply grow_end_snapshot; exact E1|].
    eapply if_returnsp_snapshot; [|exact E2].
    intros s wa wb Hg. eapply grow_end_snapshot; exact Hg. }
  match goal with
  | |- context [jl_unw_stepn ?a ?b ?d ?e ?f] =>
      destruct (jl_unw_stepn a b d e f) as [[n' c'] w3| |] eqn:E3; try done
  end.
  assert (same_snapshot w2 w3) as H3.
  { eapply jl_unw_stepn_snapshot; [| |exact E3]; [done|].
    destruct returnsp; [|done]. destruct sp; [|done]. by intros q [= <-]. }
  destruct (maxincr <? n').
  - intros H. eapply same_snapshot_trans; [|eapply IH; exact H].
    eapply same_snapshot_trans; [exact H2|exact H3].
  - intros [= _ <-]. eapply same_snapshot_trans; [exact H2|exact H3].
Qed.

Lemma backtrace_from_here_snapshot (maxincr : size_t) (fuel : nat)
    (here : bt_context_t) (returnsp : bool) (w w' : world) (v : jl_value_t) :
  backtrace_from_here uninit maxincr fuel here returnsp w = Done v w' ->
  same_snapshot w w'.
Proof.
  unfold backtrace_from_here.
  set (w0 := init_array_ptr_void_type w).
  assert (same_snapshot w w0) as H0.
  { subst w0. unfold init_array_ptr_void_type. by destruct (array_ptr_void_type w). }
  destruct (jl_alloc_array_1d uninit 0 w0) as [ip w1] eqn:E1.
  assert (same_snapshot w0 w1) as H1 by (injection E1 as _ <-; done).
  destruct (if returnsp then _ else _) as [sp w2] eqn:E2.
  assert (same_snapshot w1 w2) as H2.
  { destruct returnsp; [|by injection E2 as _ <-].
    destruct (jl_alloc_array_1d uninit 0 w1) as [a w1'] eqn:E1'.
    injection E2 as _ <-. by injection E1' as _ <-. }
  assert (same_snapshot w w2) as H02.
  { eapply same_snapshot_trans; [exact H0|].
    eapply same_snapshot_trans; [exact H1|exact H2]. }
  destruct (jl_unw_init here) as [c|]; [|by intros [= _ <-]].
  destruct (capture_loop uninit fuel maxincr returnsp ip sp c 0 w2)
    as [n w3| |] eqn:E3; try done.
  destruct (jl_array_del_end ip (usub maxincr n) w3) as [w4|] eqn:E4; [|done].
  simpl.
  destruct (if_returnsp returnsp sp _ w4) as [w5|] eqn:E5; [|done].
  intros [= _ <-].
  eapply same_snapshot_trans; [exact H02|].
  eapply same_snapshot_trans; [eapply capture_loop_snapshot; exact E3|].
  eapply same_snapshot_trans; [eapply del_end_snapshot; exact E4|].
  eapply if_returnsp_snapshot; [|exact E5].
  intros s wa wb Hg. eapply del_end_snapshot; exact Hg.
Qed.

End GrowableFrame.

(** *** The claims about growable capture and the snapshot *)

Lemma captured_walk (uninit : uintptr_t) (maxincr : size_t) (fuel : nat)
    (here : bt_context_t) (returnsp : bool) (w : world)
    (fs : list (uintptr_t * uintptr_t)) :
  assert_holds w -> 0 < maxincr ->
  N.of_nat (length fs) + maxincr <= SIZE_MAX ->
  stack_frames here fs -> (length fs ≤ fuel * N.to_nat maxincr)%nat ->
  captured (length (bufs (mem w))) returnsp fs
    (backtrace_from_here uninit maxincr fuel here returnsp w).
Proof.
  intros Ha Hpos Hmax Hd Hfuel.
  destruct (backtrace_from_here_walk uninit maxincr fuel here returnsp w fs)
    as (w' & E & Hip & Hsp & _); try done.
  exists w'. split; [done|]. split; [done|]. unfold jl_array_len. split.
  - rewrite Hip. simpl. by rewrite length_fmap.
  - intros Hr. rewrite (Hsp Hr). simpl. by rewrite length_fmap.
Qed.

(** C4, as amended. From a context whose stack has the frames [fs],
    jl_backtrace_from_here grows its arrays by 1000 entries per pass and
    goes round again only while jl_unw_stepn returns more than the
    increment (the truncation count), so that [fuel] passes are enough as
    soon as [fuel * 1000] is at least the depth; it then trims the arrays:
    the array of instruction pointers holds exactly the instruction
    pointers of [fs], its length is the depth, and when stack pointers are
    asked for their array has the same length. The same holds of the same
    body run with any other positive increment. *)
Theorem jl_backtrace_from_here_exact (uninit : uintptr_t) (fuel : nat)
    (here : bt_context_t) (returnsp : bool) (w : world)
    (fs : list (uintptr_t * uintptr_t)) :
  assert_holds w -> stack_frames here fs ->
  N.of_nat (length fs) + 1000 <= SIZE_MAX ->
  (length fs ≤ fuel * 1000)%nat ->
  captured (length (bufs (mem w))) returnsp fs
    (jl_backtrace_from_here uninit fuel here returnsp w)
  ∧ ∀ (maxincr : size_t) (fuel' : nat),
      0 < maxincr -> N.of_nat (length fs) + maxincr <= SIZE_MAX ->
      (length fs ≤ fuel' * N.to_nat maxincr)%nat ->
      captured (length (bufs (mem w))) returnsp fs
        (backtrace_from_here uninit maxincr fuel' here returnsp w).
Proof.
  intros Ha Hd Hmax Hfuel. split.
  - by apply captured_walk.
  - intros maxincr fuel' Hpos Hmax' Hfuel'. by apply captured_walk.
Qed.

(** C7, as amended. Bounded capture writes only through the pointer it is
    given: it never changes jl_bt_size, and it leaves jl_bt_data as it was
    whenever the caller's buffer is not jl_bt_data itself. Growable capture
    writes only to the arrays it allocates and changes neither. *)
Theorem capture_leaves_snapshot (uninit : uintptr_t) (data : pointer)
    (maxsize : size_t) (context here : bt_context_t) (fuel : nat)
    (returnsp : bool) (w : world) :
  blk data ≠ JlBtData ->
  (∀ n w', rec_backtrace_ctx data maxsize context w = Done n w' ->
           same_snapshot w w')
  ∧ (∀ n w', rec_backtrace here data maxsize w = Done n w' ->
             same_snapshot w w')
  ∧ (∀ v w', jl_backtrace_from_here uninit fuel here returnsp w = Done v w' ->
             same_snapshot w w')
  ∧ (∀ p n w', rec_backtrace_ctx p maxsize context w = Done n w' ->
               jl_bt_size w' = jl_bt_size w).
Proof.
  intros Hd. split; [|split; [|split]].
  - intros n w'. by apply rec_backtrace_ctx_snapshot.
  - intros n w'. by apply rec_backtrace_ctx_snapshot.
  - intros v w'. apply backtrace_from_here_snapshot.
  - intros p n w'. apply rec_backtrace_ctx_size.
Qed.

(** C8. When jl_unw_init fails, bounded capture returns 0 and changes
    nothing, and growable capture returns empty arrays; nothing crashes.
    On the disabled backend jl_unw_init fails for every context, and
    jl_unw_step reports the end at once, storing nothing. *)
Theorem capture_without_backend (uninit : uintptr_t) (data : pointer)
    (maxsize : size_t) (context : bt_context_t) (fuel : nat)
    (returnsp : bool) (w : world) :
  jl_unw_init context = None ->
  rec_backtrace_ctx data maxsize context w = Done 0 w
  ∧ rec_backtrace context data maxsize w = Done 0 w
  ∧ captured (length (bufs (mem w))) returnsp []
      (jl_backtrace_from_here uninit fuel context returnsp w)
  ∧ ∀ (X C : Type) (x : X) (c : C),
      @jl_unw_init (disabled_backend X C) x = None
      ∧ @jl_unw_step (disabled_backend X C) c = Stepped None None false c.
Proof.
  intros Hinit. unfold rec_backtrace, rec_backtrace_ctx. rewrite Hinit.
  split; [done|]. split; [done|]. split; [|done].
  unfold captured, jl_backtrace_from_here, backtrace_from_here, jl_array_len.
  set (w0 := init_array_ptr_void_type w).
  assert (mem w0 = mem w) as Hm0.
  { subst w0. unfold init_array_ptr_void_type. by destruct (array_ptr_void_type w). }
  unfold jl_alloc_array_1d. rewrite Hm0. simpl replicate.
  set (ip := length (bufs (mem w))).
  destruct returnsp; rewrite Hinit.
  - cbn [mem set_bufs set_mem bufs].
    assert (((bufs (mem w) ++ [[]]) ++ [[]]) !! ip = Some (@nil uintptr_t)) as Hip.
    { rewrite lookup_app_l by (rewrite length_app; simpl; lia).
      by apply list_lookup_middle. }
    assert (length (bufs (mem w) ++ [[]]) = S ip) as Hl
      by (rewrite length_app; simpl; lia).
    rewrite Hl.
    assert (((bufs (mem w) ++ [[]]) ++ [[]]) !! S ip = Some (@nil uintptr_t)) as Hsp
      by (by apply list_lookup_middle).
    eexists. split; [reflexivity|]. simpl. rewrite Hip, Hsp. done.
  - eexists. split; [reflexivity|]. simpl.
    assert ((bufs (mem w) ++ [[]]) !! ip = Some (@nil uintptr_t)) as Hip
      by (by apply list_lookup_middle).
    rewrite Hip. done.
Qed.

(** C10. When the snapshot length does not exceed the size of jl_bt_data,
    jl_get_backtrace returns a newly allocated array (its index was not
    in use) that holds exactly the first jl_bt_size entries of
    jl_bt_data, and leaves jl_bt_data, jl_bt_size and the arrays that
    existed before as they were. *)
Theorem jl_get_backtrace_copy (uninit : uintptr_t) (w : world) :
  (N.to_nat (jl_bt_size w) ≤ length (jl_bt_data (mem w)))%nat ->
  jl_bt_size w * sizeof_ptr <= SIZE_MAX ->
  let bt := length (bufs (mem w)) in
  ∃ w',
    jl_get_backtrace uninit w = Done (JlArray bt) w'
    ∧ bufs (mem w) !! bt = None
    ∧ bufs (mem w') !! bt
      = Some (take (N.to_nat (jl_bt_size w)) (jl_bt_data (mem w)))
    ∧ jl_array_len bt w' = Some (N.to_nat (jl_bt_size w))
    ∧ same_snapshot w w'
    ∧ ∀ a, (a < bt)%nat -> bufs (mem w') !! a = bufs (mem w) !! a.
Proof.
  intros Hlen Hmax bt. unfold jl_get_backtrace, jl_array_len.
  set (w0 := init_array_ptr_void_type w).
  assert (mem w0 = mem w ∧ jl_bt_size w0 = jl_bt_size w) as [Hm0 Hs0].
  { subst w0. unfold init_array_ptr_void_type. by destruct (array_ptr_void_type w). }
  unfold jl_alloc_array_1d. rewrite Hm0, Hs0. fold bt.
  set (n := N.to_nat (jl_bt_size w)).
  pose proof sizeof_ptr_pos as Hsz.
  unfold memcpy. cbn [jl_bt_size set_bufs set_mem mem blk ofs jl_array_data
                      block_data bufs jl_bt_data].
  rewrite Hs0, Hm0.
  rewrite wrap_small by done.
  rewrite N.div_mul by lia. fold n.
  assert ((bufs (mem w) ++ [replicate n uninit]) !! bt = Some (replicate n uninit))
    as Hbt by (by apply list_lookup_middle).
  rewrite Hbt. simpl.
  rewrite decide_True by (rewrite length_replicate; lia).
  eexists. split; [reflexivity|]. simpl.
  rewrite drop_replicate, Nat.sub_diag, app_nil_r. simpl. rewrite drop_0.
  assert (<[bt:=take n (jl_bt_data (mem w))]> (bufs (mem w) ++ [replicate n uninit])
          = bufs (mem w) ++ [take n (jl_bt_data (mem w))]) as Hins.
  { rewrite insert_app_r_alt by (subst bt; lia).
    by rewrite Nat.sub_diag. }
  rewrite Hins.
  split; [by apply lookup_ge_None_2|].
  rewrite list_lookup_middle by done. simpl.
  split; [done|]. split; [by rewrite length_take; f_equal; lia|].
  split; [by split|].
  intros a Ha. by rewrite lookup_app_l.
Qed.

(** *** The claims about symbolication and printing *)

Section Symbolication.
Variable empty_sym : string.
Variable PRIuPTR : string.
Variable jl_getFunctionInfo : uintptr_t -> Z -> Z -> list jl_frame_t.

Lemma svec_fill (g : jl_frame_t -> jl_value_t) (frames : list jl_frame_t) :
  ∀ (k : nat) (l : list jl_value_t),
    (k ≤ length frames)%nat -> length l = length frames ->
    foldl (λ rs i, match frames !! i with
                   | Some frame => jl_svecset rs i (g frame)
                   | None => rs
                   end) (JlSvec l) (seq 0 k)
    = JlSvec ((g <$> take k frames) ++ drop k l).
Proof.
  induction k as [|k IH]; intros l Hk Hl.
  - simpl. by rewrite drop_0.
  - rewrite seq_S, foldl_app, IH by (done || lia). simpl.
    destruct (lookup_lt_is_Some_2 frames k) as [frame Hf]; [lia|].
    rewrite Hf. simpl. f_equal.
    rewrite (take_S_r _ _ _ Hf), fmap_app, <- app_assoc. simpl.
    assert (length (g <$> take k frames) = k) as Hlk
      by (rewrite length_fmap, length_take; lia).
    rewrite insert_app_r_alt by lia. rewrite Hlk, Nat.sub_diag.
    f_equal. destruct (drop k l) as [|x l'] eqn:Ed.
    + apply (f_equal length) in Ed. rewrite length_drop in Ed. simpl in Ed. lia.
    + simpl. f_equal. replace (S k) with (k + 1)%nat by lia.
      by rewrite <- drop_drop, Ed.
Qed.

(** C5, as amended. jl_lookup_code_address returns one seven-slot
    descriptor for every frame the code-info service returns, in the same
    order (none when the service returns none). In each, the function name
    and the file name are symbols: the name the service gave or, when it
    gave none, the fixed symbol empty_sym; the line is the line the
    service gave, whatever the name; the raw address is in the last
    slot. *)
Theorem jl_lookup_code_address_descriptors (ip : uintptr_t) (skipC : Z) :
  ∃ ds : list (list jl_value_t),
    jl_lookup_code_address empty_sym jl_getFunctionInfo ip skipC
    = JlSvec (JlSvec <$> ds)
    ∧ length ds = length (jl_getFunctionInfo ip skipC 0)
    ∧ ∀ (i : nat) (frame : jl_frame_t),
        jl_getFunctionInfo ip skipC 0 !! i = Some frame ->
        ∃ d, ds !! i = Some d ∧ length d = 7%nat
             ∧ d !! 0%nat = Some (JlSymbol (default empty_sym (func_name frame)))
             ∧ d !! 1%nat = Some (JlSymbol (default empty_sym (file_name frame)))
             ∧ d !! 2%nat = Some (JlLong (line frame))
             ∧ d !! 6%nat = Some (JlLong (to_intptr ip)).
Proof.
  set (frames := jl_getFunctionInfo ip skipC 0).
  set (d := λ frame : jl_frame_t,
         [JlSymbol (default empty_sym (func_name frame));
          JlSymbol (default empty_sym (file_name frame));
          JlLong (line frame);
          match linfo frame with Some l => JlLinfo l | None => JlNothing end;
          JlBool (fromC frame); JlBool (inlined frame);
          JlLong (to_intptr ip)]).
  assert (∀ frame, frame_svec empty_sym ip frame = JlSvec (d frame)) as Hd.
  { intros frame. unfold frame_svec, d.
    by destruct (func_name frame), (file_name frame). }
  exists (d <$> frames). split; [|split].
  - unfold jl_lookup_code_address. fold frames. unfold jl_alloc_svec.
    rewrite (svec_fill (frame_svec empty_sym ip) frames (length frames))
      by (done || by rewrite length_replicate).
    rewrite firstn_all, drop_ge, app_nil_r by (by rewrite length_replicate).
    f_equal. rewrite <- list_fmap_compose. apply list_fmap_ext.
    intros i x _. apply Hd.
  - by rewrite length_fmap.
  - intros i frame Hf. exists (d frame). rewrite list_lookup_fmap, Hf. done.
Qed.

Lemma add_console_nil (w : world) : add_console [] w = w.
Proof. destruct w. unfold add_console. simpl. by rewrite app_nil_r. Qed.

Lemma add_console_app (l1 l2 : list printf_call) (w : world) :
  add_console l2 (add_console l1 w) = add_console (l1 ++ l2) w.
Proof. unfold add_console. simpl. by rewrite app_assoc. Qed.

Lemma gdblookup_frame_line (ip : uintptr_t) (w : world) (frame : jl_frame_t) :
  gdblookup_frame PRIuPTR ip w frame = add_console [frame_line PRIuPTR ip frame] w.
Proof.
  unfold gdblookup_frame, frame_line. destruct (func_name frame); [|done].
  destruct (decide (line frame = (-1)%Z)) as [Hl|Hl].
  - rewrite bool_decide_false by (by intros ?). by rewrite bool_decide_true.
  - rewrite bool_decide_true by done. by rewrite bool_decide_false.
Qed.

Lemma jl_gdblookup_lines (ip : uintptr_t) (w : world) :
  jl_gdblookup PRIuPTR jl_getFunctionInfo ip w
  = add_console (frame_line PRIuPTR ip <$> jl_getFunctionInfo ip 0 1) w.
Proof.
  unfold jl_gdblookup. generalize (jl_getFunctionInfo ip 0 1). intros frames.
  revert w. induction frames as [|frame frames IH]; intros w.
  - simpl. by rewrite add_console_nil.
  - simpl. rewrite IH, gdblookup_frame_line, add_console_app. done.
Qed.

Lemma jlbacktrace_loop (w : world) :
  ∀ k : nat, (k ≤ length (jl_bt_data (mem w)))%nat ->
    foldl (λ o i,
             match o with
             | Done _ w' =>
                 match load (Ptr JlBtData i) (mem w') with
                 | Some a => Done tt (jl_gdblookup PRIuPTR jl_getFunctionInfo
                                        (usub a 1) w')
                 | None => Crash
                 end
             | _ => o
             end) (Done tt w) (seq 0 k)
    = Done tt (add_console
                 (backtrace_lines PRIuPTR jl_getFunctionInfo
                    (take k (jl_bt_data (mem w)))) w).
Proof.
  induction k as [|k IH]; intros Hk.
  - simpl. by rewrite add_console_nil.
  - rewrite seq_S, foldl_app, IH by lia. simpl.
    destruct (lookup_lt_is_Some_2 (jl_bt_data (mem w)) k) as [a Ha]; [lia|].
    unfold load. simpl. rewrite Ha.
    rewrite jl_gdblookup_lines, add_console_app. do 2 f_equal.
    unfold backtrace_lines.
    rewrite (take_S_r _ _ _ Ha), fmap_app, concat_app. simpl.
    by rewrite app_nil_r.
Qed.

(** C6, as amended. For a snapshot whose length does not exceed the size
    of jl_bt_data, jlbacktrace looks up every stored address less one, in
    order, with [skipC = 0] and [noInline = 1], and prints one line for
    every frame the code-info service returns for it: none when the
    service returns none, and then goes on with the next address. The line
    is [unknown function (ip: address)], with the address looked up, when
    the frame has no function name; [function at file (unknown line)]
    when its line is -1; and [function at file:line] otherwise. Nothing
    but the output changes. *)
Theorem jlbacktrace_lines (w : world) :
  (N.to_nat (jl_bt_size w) ≤ length (jl_bt_data (mem w)))%nat ->
  jlbacktrace PRIuPTR jl_getFunctionInfo w
  = Done tt (add_console
               (backtrace_lines PRIuPTR jl_getFunctionInfo
                  (take (N.to_nat (jl_bt_size w)) (jl_bt_data (mem w)))) w)
  ∧ ∀ (ip : uintptr_t) (frame : jl_frame_t),
      (func_name frame = None ->
       frame_line PRIuPTR ip frame = Printf fmt_unknown_function [ArgPtr ip])
      ∧ (∀ f, func_name frame = Some f -> line frame = (-1)%Z ->
           frame_line PRIuPTR ip frame
           = Printf fmt_unknown_line [ArgStr (Some f); ArgStr (file_name frame)])
      ∧ (∀ f, func_name frame = Some f -> line frame ≠ (-1)%Z ->
           frame_line PRIuPTR ip frame
           = Printf (fmt_known_line PRIuPTR)
               [ArgStr (Some f); ArgStr (file_name frame);
                ArgUPtr (to_uintptr (line frame))]).
Proof.
  intros Hlen. split.
  - unfold jlbacktrace. by apply jlbacktrace_loop.
  - intros ip frame. unfold frame_line. split; [by intros ->|]. split.
    + intros f -> ->. done.
    + intros f -> Hl. by rewrite bool_decide_false.
Qed.

End Symbolication.

End Theory.

(** *** The claim about the resolution callbacks *)

Section WindowsTheory.
Context (H : Type).
Variable RtlLookupFunctionEntry : N -> H -> N * N * H.
Variable SymFunctionTableAccess64 : N -> N -> N.
Variable SymGetModuleBase64 : N -> N -> N.
Variable jl_getUnwindInfo : N -> N.

(** C9, as amended. On the 64-bit build, a callback entered while
    jl_in_stackwalk is set makes no call into the debug-help library and
    leaves the flag set: it returns what RtlLookupFunctionEntry found (the
    function entry, the image base), which is 0 when that found nothing.
    Entered with the flag clear, when RtlLookupFunctionEntry finds nothing,
    it makes exactly one call into the debug-help library, with the flag
    set during the call, returns its answer, and the flag is clear again
    afterwards. *)
Theorem resolution_callbacks_guard (hProcess addr : N) (s : win_static H)
    (w : world) :
  let found := RtlLookupFunctionEntry addr (HistoryTable H s) in
  let fta := JuliaFunctionTableAccess64 true H RtlLookupFunctionEntry
               SymFunctionTableAccess64 hProcess addr s w in
  let gmb := JuliaGetModuleBase64 true H RtlLookupFunctionEntry
               SymGetModuleBase64 jl_getUnwindInfo hProcess addr s w in
  (jl_in_stackwalk w = true ->
     fta.1.1 = found.1.1
     ∧ gmb.1.1 = (if found.1.1 =? 0 then 0 else found.1.2)
     ∧ dbghelp_calls H fta.1.2 = dbghelp_calls H s
     ∧ dbghelp_calls H gmb.1.2 = dbghelp_calls H s
     ∧ fta.2 = w ∧ gmb.2 = w)
  ∧ (jl_in_stackwalk w = false -> found.1.1 = 0 ->
     fta.1.1 = SymFunctionTableAccess64 hProcess addr
     ∧ gmb.1.1 = SymGetModuleBase64 hProcess addr
     ∧ dbghelp_calls H fta.1.2
       = dbghelp_calls H s ++ [DbgCall FnSymFunctionTableAccess64 addr true]
     ∧ dbghelp_calls H gmb.1.2
       = dbghelp_calls H s ++ [DbgCall FnSymGetModuleBase64 addr true]
     ∧ fta.2 = w ∧ gmb.2 = w).
Proof.
  unfold JuliaFunctionTableAccess64, JuliaGetModuleBase64.
  destruct (RtlLookupFunctionEntry addr (HistoryTable H s)) as [[fn base] h].
  destruct w as [m sz fl sr ty co]. simpl. split.
  - intros ->. destruct (N.eqb_spec fn 0) as [->|Hfn]; simpl; done.
  - intros -> ->. simpl. done.
Qed.

End WindowsTheory.

(** ** Further properties: what the captures can and cannot do *)

Section Safety.
Context `{B : Backend}.

(** *** Stores keep sizes and touch one cell *)

Lemma same_sizes_refl (m : memory) : same_sizes m m.
Proof. done. Qed.

Lemma same_sizes_trans (m1 m2 m3 : memory) :
  same_sizes m1 m2 -> same_sizes m2 m3 -> same_sizes m1 m3.
Proof. intros H1 H2 b. by rewrite H2, H1. Qed.

Lemma room_same_sizes (p : pointer) (k : nat) (m m' : memory) :
  same_sizes m m' -> room p k m -> room p k m'.
Proof.
  intros Hs (l & Hl & Hk). specialize (Hs (blk p)). rewrite Hl in Hs. simpl in Hs.
  destruct (block_data (blk p) m') as [l'|] eqn:El'; simpl in Hs; [|done].
  exists l'. split; [done|]. injection Hs as Hs. lia.
Qed.

Lemma sp_room_same_sizes (sp : option pointer) (k : nat) (m m' : memory) :
  same_sizes m m' -> sp_room sp k m -> sp_room sp k m'.
Proof. destruct sp; [apply room_same_sizes|done]. Qed.

Lemma store_same_sizes (p : pointer) (v : uintptr_t) (m m' : memory) :
  store p v m = Some m' -> same_sizes m m'.
Proof.
  intros H b. destruct (decide (blk p = b)) as [<-|Hne].
  - destruct (store_Some _ _ _ _ H) as (l & Hl & _ & _).
    rewrite (store_block_same _ _ _ _ _ H Hl), Hl. simpl. by rewrite length_insert.
  - by rewrite (store_block_other _ _ _ _ _ H Hne).
Qed.

Lemma store_load_other (p q : pointer) (v : uintptr_t) (m m' : memory) :
  store p v m = Some m' -> q ≠ p -> load q m' = load q m.
Proof.
  intros H Hne. unfold load. destruct (decide (blk p = blk q)) as [Hb|Hb].
  - destruct (store_Some _ _ _ _ H) as (l & Hl & _ & _).
    rewrite <- Hb, (store_block_same _ _ _ _ _ H Hl), Hl.
    apply list_lookup_insert_ne. intros Ho. apply Hne.
    destruct p, q. simpl in *. congruence.
  - by rewrite (store_block_other _ _ _ _ _ H Hb).
Qed.

Lemma store_room (p : pointer) (v : uintptr_t) (m : memory) :
  room p 1 m -> is_Some (store p v m).
Proof.
  intros (l & Hl & Hk). unfold store. rewrite Hl.
  rewrite decide_True by lia. eauto.
Qed.

Lemma step_stores_room (ipn : pointer) (spn : option pointer)
    (vip vsp : option uintptr_t) (m : memory) :
  room ipn 1 m -> sp_room spn 1 m -> is_Some (step_stores ipn spn vip vsp m).
Proof.
  intros Hip Hsp. unfold step_stores.
  assert (∃ m1, match vip with Some v => store ipn v m | None => Some m end = Some m1
                ∧ same_sizes m m1) as (m1 & -> & Hs).
  { destruct vip as [v|]; [|by exists m].
    destruct (store_room ipn v m Hip) as [m1 E]. exists m1. split; [done|].
    by eapply store_same_sizes. }
  simpl. destruct vsp as [v|], spn as [q|]; eauto.
  apply store_room. by eapply room_same_sizes.
Qed.

Lemma step_stores_confined (ipn : pointer) (spn : option pointer)
    (vip vsp : option uintptr_t) (m m' : memory) :
  step_stores ipn spn vip vsp m = Some m' ->
  same_sizes m m'
  ∧ ∀ q, q ≠ ipn -> (∀ s, spn = Some s -> q ≠ s) -> load q m' = load q m.
Proof.
  unfold step_stores. intros H.
  destruct (match vip with Some v => store ipn v m | None => Some m end)
    as [m1|] eqn:E1; simpl in H; [|done].
  assert (same_sizes m m1 ∧ ∀ q, q ≠ ipn -> load q m1 = load q m) as [Hs1 Hl1].
  { destruct vip as [v|]; [|by injection E1 as <-].
    split; [by eapply store_same_sizes|]. intros q Hq. by eapply store_load_other. }
  destruct vsp as [v|], spn as [s|]; try (injection H as <-; split; [done|];
    intros q Hq _; by apply Hl1).
  split.
  - eapply same_sizes_trans; [exact Hs1|]. by eapply store_same_sizes.
  - intros q Hq Hqs. rewrite <- (Hl1 q Hq). eapply store_load_other; [exact H|].
    by apply Hqs.
Qed.

(** *** The loop stays inside the buffers *)

Lemma in_range_ptr_add (p : pointer) (k i : nat) :
  (i < k)%nat -> in_range p k (ptr_add p i).
Proof. intros Hi. split; simpl; [done|lia]. Qed.

Lemma stepn_loop_confined (ip : pointer) (sp : option pointer) (maxsize : size_t) :
  ∀ (fuel : nat) (c : bt_cursor_t) (n : size_t) (m : memory),
    n <= maxsize ->
    match stepn_loop fuel c ip sp maxsize n m with
    | Break n' _ m' | Longjmp n' _ m' =>
        n' <= maxsize ∧ same_sizes m m'
        ∧ ∀ q, outside ip sp (N.to_nat maxsize) q -> load q m' = load q m
    | _ => True
    end.
Proof.
  induction fuel as [|fuel IH]; intros c n m Hn; [done|].
  cbn [stepn_loop]. destruct (N.leb_spec maxsize n) as [Hle|Hlt].
  { split; [lia|]. split; [apply same_sizes_refl|done]. }
  assert (∀ vip vsp m',
            step_stores (ptr_add ip (N.to_nat n))
              ((λ q, ptr_add q (N.to_nat n)) <$> sp) vip vsp m = Some m' ->
            same_sizes m m'
            ∧ ∀ q, outside ip sp (N.to_nat maxsize) q -> load q m' = load q m)
    as Hst.
  { intros vip vsp m' E. destruct (step_stores_confined _ _ _ _ _ _ E) as [Hs Hl].
    split; [done|]. intros q [Hq Hqs]. apply Hl.
    - intros ->. apply Hq. apply in_range_ptr_add. lia.
    - intros s Hs' ->. destruct sp as [s0|]; [|done]. simpl in Hs'.
      injection Hs' as <-. apply Hqs. apply in_range_ptr_add. lia. }
  destruct (jl_unw_step c) as [vip vsp r c'|vip vsp c'].
  - destruct (step_stores _ _ vip vsp m) as [m'|] eqn:E; [|done].
    destruct (Hst _ _ _ E) as [Hs Hl].
    destruct r; [|split; [lia|done]].
    assert (wrap (n + 1) <= maxsize) as Hw.
    { unfold wrap. pose proof (N.Div0.mod_le (n + 1) (2 ^ ptr_bits)). lia. }
    specialize (IH c' (wrap (n + 1)) m' Hw).
    destruct (stepn_loop fuel c' ip sp maxsize (wrap (n + 1)) m'); try done;
      destruct IH as (Hn' & Hs' & Hl'); (split; [done|]);
      (split; [by eapply same_sizes_trans|]);
      intros q Hq; by rewrite (Hl' q Hq), (Hl q Hq).
  - destruct (step_stores _ _ vip vsp m) as [m'|] eqn:E; [|done].
    destruct (Hst _ _ _ E) as [Hs Hl]. split; [lia|done].
Qed.

Lemma room_le (p : pointer) (k k' : nat) (m : memory) :
  (k' ≤ k)%nat -> room p k m -> room p k' m.
Proof. intros Hk (l & Hl & Hr). exists l. split; [done|lia]. Qed.

Lemma room_ptr_add (p : pointer) (k i : nat) (m : memory) :
  (i < k)%nat -> room p k m -> room (ptr_add p i) 1 m.
Proof. intros Hi (l & Hl & Hr). exists l. split; [done|]. simpl. lia. Qed.

Lemma stepn_loop_defined (ip : pointer) (sp : option pointer) (maxsize : size_t) :
  ∀ (fuel : nat) (c : bt_cursor_t) (n : size_t) (m : memory),
    room ip (N.to_nat maxsize) m -> sp_room sp (N.to_nat maxsize) m ->
    stepn_loop fuel c ip sp maxsize n m ≠ Undefined.
Proof.
  induction fuel as [|fuel IH]; intros c n m Hip Hsp; [done|].
  cbn [stepn_loop]. destruct (N.leb_spec maxsize n) as [Hle|Hlt]; [done|].
  assert (∀ vip vsp, ∃ m',
            step_stores (ptr_add ip (N.to_nat n))
              ((λ q, ptr_add q (N.to_nat n)) <$> sp) vip vsp m = Some m'
            ∧ same_sizes m m') as Hst.
  { intros vip vsp.
    destruct (step_stores_room (ptr_add ip (N.to_nat n))
                ((λ q, ptr_add q (N.to_nat n)) <$> sp) vip vsp m) as [m' E].
    - eapply room_ptr_add; [|exact Hip]. lia.
    - destruct sp as [s|]; [|done]. simpl in *.
      eapply room_ptr_add; [|exact Hsp]. lia.
    - exists m'. split; [done|]. by apply (step_stores_confined _ _ _ _ _ _ E). }
  destruct (jl_unw_step c) as [vip vsp r c'|vip vsp c'];
    destruct (Hst vip vsp) as (m' & -> & Hs); [|done].
  destruct r; [|done]. apply IH.
  - by eapply room_same_sizes.
  - by eapply sp_room_same_sizes.
Qed.

(** *** The stepping loop and bounded capture, whatever the backend does *)

Lemma jl_unw_stepn_runs (c : bt_cursor_t) (ip : pointer)
    (sp : option pointer) (maxsize : size_t) (w : world) :
  os_windows = false -> maxsize <= SIZE_MAX ->
  room ip (N.to_nat maxsize) (mem w) -> sp_room sp (N.to_nat maxsize) (mem w) ->
  ∃ n c' m', jl_unw_stepn c ip sp maxsize w = Done (n, c') (set_mem m' w)
             ∧ n <= maxsize + 1
             ∧ same_sizes (mem w) m'
             ∧ ∀ q, outside ip sp (N.to_nat maxsize) q -> load q m' = load q (mem w).
Proof.
  intros Hos Hmax Hip Hsp.
  rewrite jl_unw_stepn_unfold by (unfold assert_holds; by rewrite Hos).
  pose proof (stepn_loop_confined ip sp maxsize (S (N.to_nat maxsize)) c 0 (mem w))
    as Hc.
  pose proof (stepn_loop_defined ip sp maxsize (S (N.to_nat maxsize)) c 0 (mem w)
                Hip Hsp) as Hd.
  pose proof (stepn_loop_fuel ip sp maxsize Hmax (S (N.to_nat maxsize)) c 0 (mem w))
    as Hf.
  rewrite Hos.
  destruct (stepn_loop (S (N.to_nat maxsize)) c ip sp maxsize 0 (mem w))
    as [n c' m'|n c' m'| |].
  - destruct Hc as (Hn & Hs & Hl); [lia|]. eexists _, c', m'. split; [done|].
    split; [|done].
    unfold wrap. pose proof (N.Div0.mod_le (n + 1) (2 ^ ptr_bits)). lia.
  - destruct Hc as (Hn & Hs & Hl); [lia|]. eexists _, c', m'. split; [done|].
    split; [|done].
    destruct (0 <? n); [|lia].
    unfold wrap. pose proof (N.Div0.mod_le (n - 1) (2 ^ ptr_bits)). lia.
  - done.
  - exfalso. apply Hf; [lia|done].
Qed.

(** X1. Where the recovery path is compiled in (not on Windows) and the
    buffers have room for [maxsize] entries, jl_unw_stepn returns,
    whatever the calls of jl_unw_step store, report or fault on: with a
    count of at most [maxsize + 1], and with every global but the memory
    (jl_safe_restore among them) as it was before the call. *)
Theorem jl_unw_stepn_returns (c : bt_cursor_t) (ip : pointer)
    (sp : option pointer) (maxsize : size_t) (w : world) :
  os_windows = false -> maxsize <= SIZE_MAX ->
  room ip (N.to_nat maxsize) (mem w) -> sp_room sp (N.to_nat maxsize) (mem w) ->
  ∃ n c' m', jl_unw_stepn c ip sp maxsize w = Done (n, c') (set_mem m' w)
             ∧ n <= maxsize + 1.
Proof.
  intros Hos Hmax Hip Hsp.
  destruct (jl_unw_stepn_runs c ip sp maxsize w Hos Hmax Hip Hsp)
    as (n & c' & m' & E & Hn & _).
  by exists n, c', m'.
Qed.

(** X2. Whenever jl_unw_stepn returns, the count is at most
    [maxsize + 1], no array has changed size, and every cell outside
    [ip[0 .. maxsize-1]] and [sp[0 .. maxsize-1]] holds what it held.
    Where the backend is not one of the Windows ones, every global but
    the memory is as it was as well. *)
Theorem jl_unw_stepn_confined (c c' : bt_cursor_t) (ip : pointer)
    (sp : option pointer) (maxsize n : size_t) (w w' : world) :
  jl_unw_stepn c ip sp maxsize w = Done (n, c') w' ->
  n <= maxsize + 1
  ∧ same_sizes (mem w) (mem w')
  ∧ (∀ q, outside ip sp (N.to_nat maxsize) q -> load q (mem w') = load q (mem w))
  ∧ (os_windows = false -> w' = set_mem (mem w') w).
Proof.
  unfold jl_unw_stepn. intros H.
  pose proof (stepn_loop_confined ip sp maxsize (S (N.to_nat maxsize)) c 0 (mem w))
    as Hc.
  assert (∀ x, wrap x <= x) as Hwrap.
  { intros x. unfold wrap. apply N.Div0.mod_le. }
  destruct w as [m0 sz fl sr ty co].
  destruct os_windows, cpu_x86_64, fl;
    cbn [andb negb mem jl_in_stackwalk jl_safe_restore set_in_stackwalk
         set_safe_restore] in *; try discriminate H;
    match type of H with
    | context [stepn_loop ?f ?a ?x ?d ?e ?g ?h] =>
        destruct (stepn_loop f a x d e g h) as [n1 c1 m1|n1 c1 m1| |];
          try discriminate H
    end;
    destruct Hc as (Hn & Hs & Hl); try lia;
    injection H as <- <- <-; simpl;
    (split; [|by repeat split]);
    try (pose proof (Hwrap (n1 + 1)); lia);
    destruct (0 <? n1); try lia; pose proof (Hwrap (n1 - 1)); lia.
Qed.

(** X3. Where the recovery path is compiled in and the buffer has room
    for [maxsize] entries, bounded capture returns, whatever the backend
    does: with a count of at most [maxsize], no array resized, and every
    cell outside [data[0 .. maxsize-1]] holding what it held. *)
Theorem rec_backtrace_ctx_safe (data : pointer) (maxsize : size_t)
    (context : bt_context_t) (w : world) :
  os_windows = false -> maxsize <= SIZE_MAX ->
  room data (N.to_nat maxsize) (mem w) ->
  ∃ n m', rec_backtrace_ctx data maxsize context w = Done n (set_mem m' w)
          ∧ n <= maxsize
          ∧ same_sizes (mem w) m'
          ∧ ∀ q, ¬ in_range data (N.to_nat maxsize) q ->
                 load q m' = load q (mem w).
Proof.
  intros Hos Hmax Hroom. unfold rec_backtrace_ctx.
  destruct (jl_unw_init context) as [c|].
  - pose proof (stepn_loop_confined data None maxsize (S (N.to_nat maxsize)) c 0
                  (mem w)) as Hc.
    pose proof (stepn_loop_defined data None maxsize (S (N.to_nat maxsize)) c 0
                  (mem w) Hroom I) as Hd.
    pose proof (stepn_loop_fuel data None maxsize Hmax (S (N.to_nat maxsize)) c 0
                  (mem w)) as Hf.
    rewrite jl_unw_stepn_unfold by (unfold assert_holds; by rewrite Hos).
    rewrite Hos.
    destruct (stepn_loop (S (N.to_nat maxsize)) c data None maxsize 0 (mem w))
      as [n c' m'|n c' m'| |].
    + destruct Hc as (Hn & Hs & Hl); [lia|]. eexists _, m'. split; [done|].
      split; [destruct (N.ltb_spec maxsize (wrap (n + 1))); lia|].
      split; [done|]. intros q Hq. by apply Hl.
    + destruct Hc as (Hn & Hs & Hl); [lia|]. eexists _, m'. split; [done|].
      split.
      { destruct (0 <? n);
          match goal with |- context [maxsize <? ?x] =>
            destruct (N.ltb_spec maxsize x); lia end. }
      split; [done|]. intros q Hq. by apply Hl.
    + done.
    + exfalso. apply Hf; [lia|done].
  - exists 0, (mem w). rewrite set_mem_mem. split; [done|]. split; [lia|].
    split; [apply same_sizes_refl|done].
Qed.

(** X4. With a capacity of 0 jl_unw_step is never called and nothing is
    stored: where its assert holds, jl_unw_stepn returns 1 with the cursor
    and the state as they were, and bounded capture returns 0 with the
    memory as it was. Where the backend is not one of the Windows ones,
    bounded capture leaves the whole state as it was, whether or not the
    backend could be initialised. *)
Theorem zero_capacity (c : bt_cursor_t) (ip data : pointer)
    (sp : option pointer) (context : bt_context_t) (w : world) :
  (assert_holds w ->
   jl_unw_stepn c ip sp 0 w = Done (1, c) w
   ∧ ∃ w', rec_backtrace_ctx data 0 context w = Done 0 w' ∧ mem w' = mem w)
  ∧ (os_windows = false -> rec_backtrace_ctx data 0 context w = Done 0 w).
Proof.
  assert (assert_holds w ->
          ∀ c0 p q, jl_unw_stepn c0 p q 0 w = Done (1, c0) w) as Hz.
  { intros Ha c0 p q. rewrite jl_unw_stepn_unfold by done. simpl.
    rewrite set_mem_mem. unfold wrap, ptr_bits. by destruct ptr_width. }
  assert (assert_holds w -> rec_backtrace_ctx data 0 context w = Done 0 w)
    as Hr.
  { intros Ha. unfold rec_backtrace_ctx.
    destruct (jl_unw_init context) as [c0|]; [|done].
    by rewrite (Hz Ha c0 data None). }
  split.
  - intros Ha. split; [by apply Hz|]. exists w. by rewrite (Hr Ha).
  - intros Hos. apply Hr. unfold assert_holds. by rewrite Hos.
Qed.

(** *** Growable capture, whatever the backend does *)

Section GrowableSafety.
Variable uninit : uintptr_t.

Lemma same_sizes_array (a : nat) (m m' : memory) :
  same_sizes m m' -> length <$> bufs m' !! a = length <$> bufs m !! a.
Proof. intros Hs. apply (Hs (Buf a)). Qed.

Lemma grow_end_len (a : nat) (inc : size_t) (w : world) (L : nat) :
  jl_array_len a w = Some L ->
  ∃ w', jl_array_grow_end uninit a inc w = Some w'
        ∧ w' = set_mem (mem w') w
        ∧ jl_array_len a w' = Some (L + N.to_nat inc)%nat
        ∧ ∀ b, b ≠ a -> jl_array_len b w' = jl_array_len b w.
Proof.
  unfold jl_array_len, jl_array_grow_end. intros HL.
  destruct (bufs (mem w) !! a) as [l|] eqn:El; [|done]. simpl in *.
  injection HL as <-. eexists. split; [reflexivity|]. simpl.
  split; [done|]. split.
  - rewrite list_lookup_insert_eq by (by eapply lookup_lt_Some). simpl.
    by rewrite length_app, length_replicate.
  - intros b Hb. by rewrite list_lookup_insert_ne.
Qed.

Lemma del_end_len (a : nat) (dec : size_t) (w : world) (L : nat) :
  jl_array_len a w = Some L -> (N.to_nat dec ≤ L)%nat ->
  ∃ w', jl_array_del_end a dec w = Some w'
        ∧ jl_array_len a w' = Some (L - N.to_nat dec)%nat
        ∧ ∀ b, b ≠ a -> jl_array_len b w' = jl_array_len b w.
Proof.
  unfold jl_array_len, jl_array_del_end. intros HL Hd.
  destruct (bufs (mem w) !! a) as [l|] eqn:El; [|done]. simpl in *.
  injection HL as <-. rewrite decide_True by done.
  eexists. split; [reflexivity|]. simpl. split.
  - rewrite list_lookup_insert_eq by (by eapply lookup_lt_Some). simpl.
    rewrite length_take. f_equal. lia.
  - intros b Hb. by rewrite list_lookup_insert_ne.
Qed.

Lemma grow_both (maxincr : size_t) (returnsp : bool) (ip : nat) (sp : option nat)
    (L : nat) (w : world) :
  arrays_of_length returnsp ip sp L w ->
  ∃ m2, jl_array_grow_end uninit ip maxincr w
          ≫= if_returnsp returnsp sp (λ s, jl_array_grow_end uninit s maxincr)
        = Some (set_mem m2 w)
        ∧ arrays_of_length returnsp ip sp (L + N.to_nat maxincr) (set_mem m2 w).
Proof.
  intros [Hip Hsp].
  destruct (grow_end_len ip maxincr w L Hip) as (w1 & E1 & Hw1 & Hip1 & Ho1).
  rewrite E1. simpl. destruct returnsp; simpl.
  - destruct (Hsp eq_refl) as (s & -> & Hne & Hs). simpl.
    destruct (grow_end_len s maxincr w1 L) as (w2 & E2 & Hw2 & Hs2 & Ho2).
    { by rewrite Ho1. }
    rewrite E2. exists (mem w2). rewrite Hw2, Hw1. simpl. split; [done|].
    rewrite Hw2, Hw1 in Hs2, Ho2. simpl in Hs2, Ho2.
    split.
    + rewrite <- Hip1. unfold jl_array_len in *. simpl in *. apply Ho2. congruence.
    + intros _. exists s. split; [done|]. split; [done|].
      unfold jl_array_len in *. simpl in *. exact Hs2.
  - exists (mem w1). rewrite Hw1. simpl. split; [done|]. split; [|done].
    unfold jl_array_len in *. simpl in *. exact Hip1.
Qed.

Lemma del_both (dec : size_t) (returnsp : bool) (ip : nat) (sp : option nat)
    (L : nat) (w : world) :
  arrays_of_length returnsp ip sp L w -> (N.to_nat dec ≤ L)%nat ->
  ∃ w', jl_array_del_end ip dec w
          ≫= if_returnsp returnsp sp (λ s, jl_array_del_end s dec) = Some w'
        ∧ arrays_of_length returnsp ip sp (L - N.to_nat dec) w'.
Proof.
  intros [Hip Hsp] Hd.
  destruct (del_end_len ip dec w L Hip Hd) as (w1 & E1 & Hip1 & Ho1).
  rewrite E1. simpl. destruct returnsp; simpl.
  - destruct (Hsp eq_refl) as (s & -> & Hne & Hs). simpl.
    destruct (del_end_len s dec w1 L) as (w2 & E2 & Hs2 & Ho2); [|done|].
    { by rewrite Ho1. }
    rewrite E2. exists w2. split; [done|]. split.
    + rewrite Ho2 by congruence. done.
    + intros _. by exists s.
  - exists w1. split; [done|]. by split.
Qed.

Lemma capture_loop_safe (maxincr : size_t) (returnsp : bool) (ip : nat)
    (sp : option nat) :
  os_windows = false -> maxincr <= SIZE_MAX ->
  ∀ (fuel : nat) (c : bt_cursor_t) (offset : size_t) (w : world) (L : nat),
    arrays_of_length returnsp ip sp L w -> (N.to_nat offset ≤ L)%nat ->
    match capture_loop uninit fuel maxincr returnsp ip sp c offset w with
    | Done n w' =>
        n <= maxincr
        ∧ ∃ L', (N.to_nat maxincr ≤ L')%nat ∧ arrays_of_length returnsp ip sp L' w'
    | Crash => False
    | Timeout => True
    end.
Proof.
  intros Hos Hmax. induction fuel as [|fuel IH]; intros c offset w L Harr Hoff; [done|].
  cbn [capture_loop].
  destruct (grow_both maxincr returnsp ip sp L w Harr) as (m2 & -> & [Hip2 Hsp2]).
  set (L2 := (L + N.to_nat maxincr)%nat) in *.
  match goal with
  | |- context [jl_unw_stepn ?a ?b ?d ?e ?f] =>
      destruct (jl_unw_stepn_runs a b d e f Hos Hmax)
        as (n & c' & m' & -> & Hn & Hs & _)
  end.
  { unfold jl_array_len in Hip2. simpl in *.
    destruct (bufs m2 !! ip) as [l|] eqn:El; [|done]. exists l. simpl.
    split; [done|]. simpl in Hip2. injection Hip2 as ->. lia. }
  { destruct returnsp; [|done]. destruct (Hsp2 eq_refl) as (s & -> & _ & Hs).
    unfold jl_array_len in Hs. simpl in *.
    destruct (bufs m2 !! s) as [l|] eqn:El; [|done]. exists l. simpl.
    split; [done|]. simpl in Hs. injection Hs as ->. lia. }
  assert (arrays_of_length returnsp ip sp L2 (set_mem m' (set_mem m2 w))) as Harr3.
  { split.
    - unfold jl_array_len in *. simpl in *. by rewrite (same_sizes_array ip _ _ Hs).
    - intros Hr. destruct (Hsp2 Hr) as (s & -> & Hne & Hl). exists s.
      split; [done|]. split; [done|].
      unfold jl_array_len in *. simpl in *. by rewrite (same_sizes_array s _ _ Hs). }
  destruct (N.ltb_spec maxincr n) as [Hlt|Hle].
  - apply (IH c' _ _ L2 Harr3).
    unfold wrap. pose proof (N.Div0.mod_le (offset + maxincr) (2 ^ ptr_bits)).
    subst L2. lia.
  - split; [done|]. exists L2. split; [subst L2; lia|done].
Qed.

(** X5. Where the recovery path is compiled in, jl_backtrace_from_here
    never crashes, whatever the backend does (faults included): it returns
    or the walk does not end; and when it returns the array of
    instruction pointers and, when asked for, the array of stack pointers
    are two newly allocated arrays of one and the same length. *)
Theorem jl_backtrace_from_here_safe (fuel : nat) (here : bt_context_t)
    (returnsp : bool) (w : world) :
  os_windows = false ->
  let ip := length (bufs (mem w)) in
  match jl_backtrace_from_here uninit fuel here returnsp w with
  | Done v w' =>
      v = (if returnsp then jl_svec2 (JlArray ip) (JlArray (S ip)) else JlArray ip)
      ∧ ∃ L, jl_array_len ip w' = Some L
             ∧ (returnsp = true -> jl_array_len (S ip) w' = Some L)
  | Crash => False
  | Timeout => True
  end.
Proof.
  intros Hos ip. unfold jl_backtrace_from_here, backtrace_from_here.
  set (w0 := init_array_ptr_void_type w).
  assert (mem w0 = mem w) as Hm0.
  { subst w0. unfold init_array_ptr_void_type. by destruct (array_ptr_void_type w). }
  unfold jl_alloc_array_1d. rewrite Hm0. fold ip. simpl replicate.
  set (w1 := set_bufs (bufs (mem w) ++ [[]]) w0).
  assert (1000 <= SIZE_MAX) as Hmax.
  { unfold SIZE_MAX, ptr_bits. destruct ptr_width; simpl; lia. }
  destruct returnsp.
  - set (w2 := set_bufs (bufs (mem w1) ++ [[]]) w1).
    assert (length (bufs (mem w1)) = S ip) as Hl1.
    { subst w1 ip. simpl. rewrite length_app. simpl. lia. }
    rewrite Hl1.
    assert (arrays_of_length true ip (Some (S ip)) 0 w2) as Harr.
    { unfold arrays_of_length, jl_array_len. subst w2 w1. simpl. split.
      - rewrite lookup_app_l by (rewrite length_app; simpl; lia).
        by rewrite list_lookup_middle.
      - intros _. exists (S ip). split; [done|]. split; [lia|].
        rewrite list_lookup_middle; [done|]. rewrite length_app. simpl. lia. }
    destruct (jl_unw_init here) as [c|].
    2:{ split; [done|]. exists 0%nat. destruct Harr as [? Hs]. split; [done|].
        intros _. destruct (Hs eq_refl) as (s & [= <-] & _ & ?). done. }
    pose proof (capture_loop_safe 1000 true ip (Some (S ip)) Hos Hmax fuel c 0 w2
                  0%nat Harr) as Hloop.
    destruct (capture_loop uninit fuel 1000 true ip (Some (S ip)) c 0 w2)
      as [n w3| |]; [|by apply Hloop; simpl; lia|done].
    destruct Hloop as (Hn & L' & HL' & Harr3); [simpl; lia|].
    rewrite usub_le by done.
    destruct (del_both (1000 - n) true ip (Some (S ip)) L' w3 Harr3)
      as (w5 & -> & [Hip5 Hsp5]); [lia|].
    split; [done|]. eexists. split; [exact Hip5|].
    intros _. destruct (Hsp5 eq_refl) as (s & [= <-] & _ & ?). done.
  - assert (arrays_of_length false ip None 0 w1) as Harr.
    { unfold arrays_of_length, jl_array_len. subst w1. simpl. split; [|done].
      by rewrite list_lookup_middle. }
    destruct (jl_unw_init here) as [c|].
    2:{ split; [done|]. exists 0%nat. by destruct Harr. }
    pose proof (capture_loop_safe 1000 false ip None Hos Hmax fuel c 0 w1
                  0%nat Harr) as Hloop.
    destruct (capture_loop uninit fuel 1000 false ip None c 0 w1)
      as [n w3| |]; [|by apply Hloop; simpl; lia|done].
    destruct Hloop as (Hn & L' & HL' & Harr3); [simpl; lia|].
    rewrite usub_le by done.
    destruct (del_both (1000 - n) false ip None L' w3 Harr3)
      as (w5 & -> & [Hip5 Hsp5]); [lia|].
    split; [done|]. eexists. split; [exact Hip5|done].
Qed.

Lemma take_eq_lookup {A : Type} (l l' : list A) (n : nat) :
  (∀ j, (j < n)%nat -> l' !! j = l !! j) -> take n l' = take n l.
Proof.
  intros H. apply list_eq. intros j. destruct (decide (j < n)%nat) as [Hj|Hj].
  - rewrite !lookup_take_lt by done. by apply H.
  - by rewrite !lookup_take_ge by lia.
Qed.

Lemma del_end_take (a : nat) (dec : size_t) (w : world) (l : list uintptr_t) :
  bufs (mem w) !! a = Some l -> (N.to_nat dec ≤ length l)%nat ->
  jl_array_del_end a dec w
  = Some (set_bufs (<[a := take (length l - N.to_nat dec) l]> (bufs (mem w))) w).
Proof. unfold jl_array_del_end. intros -> Hd. simpl. by rewrite decide_True. Qed.

(** One pass of the do-while loop in which the call after the frames
    [fs] faults. *)
Lemma capture_loop_fault (maxincr : size_t) (returnsp : bool) (ip : nat)
    (sp : option nat) (fuel : nat) (c c1 c2 : bt_cursor_t)
    (fs : list (uintptr_t * uintptr_t)) (vip vsp : option uintptr_t) (w : world) :
  os_windows = false -> maxincr <= SIZE_MAX ->
  N.of_nat (length fs) < maxincr ->
  steps c (full fs) c1 -> jl_unw_step c1 = Faulted vip vsp c2 ->
  bufs (mem w) !! ip = Some [] ->
  (returnsp = true -> ∃ s, sp = Some s ∧ s ≠ ip ∧ bufs (mem w) !! s = Some []) ->
  ∃ m' li,
    capture_loop uninit (S fuel) maxincr returnsp ip sp c 0 w
    = Done (N.of_nat (length fs - 1)) (set_mem m' w)
    ∧ bufs m' !! ip = Some li ∧ length li = N.to_nat maxincr
    ∧ take (length fs) li = fs.*1
    ∧ (returnsp = true -> ∀ s, sp = Some s ->
         ∃ ls, bufs m' !! s = Some ls ∧ length ls = N.to_nat maxincr
               ∧ take (length fs) ls = fs.*2)
    ∧ length (bufs m') = length (bufs (mem w)).
Proof.
  intros Hos Hmax Hlen Hs Hstep Hip Hsp.
  destruct (grow_arrays uninit maxincr returnsp ip sp w [] [])
    as (m2 & Eg & Hip2 & Hsp2); try done.
  { intros s Hr Hs'. destruct (Hsp Hr) as (s' & Hs'' & Hne & Hb).
    split; congruence. }
  { intros Hr. destruct (Hsp Hr) as (s' & -> & _). eauto. }
  cbn [capture_loop]. rewrite Eg. simpl in Hip2, Hsp2.
  set (ipp := ptr_add (jl_array_data ip) (N.to_nat 0)).
  set (spp := if returnsp
              then (λ s, ptr_add (jl_array_data s) (N.to_nat 0)) <$> sp
              else None).
  set (junk := replicate (N.to_nat maxincr) uninit) in *.
  assert (sp_shape spp ipp 0 [] junk m2) as Hshape.
  { subst spp. destruct returnsp; [|done].
    destruct (Hsp eq_refl) as (s & -> & Hne & _). simpl.
    split; [congruence|]. split; [by apply Hsp2|done]. }
  destruct (write_frames_full ipp spp fs 0 m2 [] junk [] junk)
    as (m3 & E3 & Hb3 & Hsp3); try done.
  { subst junk. rewrite length_replicate. lia. }
  { intros _. subst junk. rewrite length_replicate. lia. }
  simpl in Hb3, Hsp3.
  assert (same_sizes m2 m3) as Hs23.
  { clear -E3. revert E3. generalize (full fs) 0%nat m2.
    induction l as [|[a b] l IH]; intros i m E; simpl in E.
    - by injection E as <-.
    - destruct (step_stores _ _ a b m) as [m1|] eqn:E1; simpl in E; [|done].
      eapply same_sizes_trans; [|by eapply IH].
      by apply (step_stores_confined _ _ _ _ _ _ E1). }
  destruct (step_stores_room (ptr_add ipp (length fs))
              ((λ q, ptr_add q (length fs)) <$> spp) vip vsp m3) as [m4 E4].
  { exists (fs.*1 ++ drop (length fs) junk). split; [exact Hb3|]. simpl.
    rewrite length_app, length_fmap, length_drop. subst junk.
    rewrite length_replicate. lia. }
  { subst spp. destruct returnsp; [|done].
    destruct (Hsp eq_refl) as (s & -> & Hne & _). simpl in *.
    destruct Hsp3 as (_ & Hq & _).
    exists (fs.*2 ++ drop (length fs) junk). split; [exact Hq|]. simpl.
    rewrite length_app, length_fmap, length_drop. subst junk.
    rewrite length_replicate. lia. }
  destruct (step_stores_confined _ _ _ _ _ _ E4) as [Hs34 Hl34].
  assert (write_frames ipp spp 0 (full fs ++ [(vip, vsp)]) m2 = Some m4) as Ew.
  { rewrite write_frames_app, E3. simpl. rewrite full_length, E4. done. }
  rewrite (jl_unw_stepn_faulted c c1 c2 ipp spp maxincr (set_mem m2 w) (full fs)
             vip vsp m4 Hos Hmax); try done.
  2:{ rewrite full_length. lia. }
  rewrite full_length.
  destruct (N.ltb_spec maxincr (N.of_nat (length fs - 1))) as [?|_]; [lia|].
  exists m4. rewrite set_mem_set_mem.
  assert (∀ (a : nat) (xs : list uintptr_t),
            bufs m3 !! a = Some (xs ++ drop (length fs) junk) ->
            length xs = length fs ->
            ∃ la, bufs m4 !! a = Some la ∧ length la = N.to_nat maxincr
                  ∧ take (length fs) la = xs) as Hblock.
  { intros a xs Hb Hxs.
    pose proof (Hs34 (Buf a)) as Hsz. simpl in Hsz. rewrite Hb in Hsz.
    destruct (bufs m4 !! a) as [la|] eqn:Ela; [|done]. simpl in Hsz.
    injection Hsz as Hsz. rewrite length_app, length_drop in Hsz.
    subst junk. rewrite length_replicate in Hsz.
    exists la. split; [done|]. split; [lia|].
    rewrite <- (take_app_length xs (drop (length fs)
                                      (replicate (N.to_nat maxincr) uninit))).
    rewrite Hxs. apply take_eq_lookup. intros j Hj.
    pose proof (Hl34 (Ptr (Buf a) j)) as Hld. unfold load in Hld. simpl in Hld.
    rewrite Ela, Hb in Hld. apply Hld.
    - intros Heq. apply (f_equal ofs) in Heq. simpl in Heq. lia.
    - intros s Hs' Heq. subst spp. destruct returnsp; [|done].
      destruct sp as [s0|]; [|done]. simpl in Hs'. injection Hs' as <-.
      apply (f_equal ofs) in Heq. simpl in Heq. lia. }
  exists (default [] (bufs m4 !! ip)).
  destruct (Hblock ip fs.*1) as (la & Ela & Hla & Hta);
    [exact Hb3|by rewrite length_fmap|].
  rewrite Ela. simpl. split; [done|]. split; [done|]. split; [done|].
  split; [done|]. split.
  - intros Hr s ->. subst spp. rewrite Hr in *. simpl in *.
    destruct Hsp3 as (_ & Hq & _).
    apply (Hblock s fs.*2); [exact Hq|by rewrite length_fmap].
  - pose proof (Hs23 JlBtData) as _.
    assert (∀ m m', same_sizes m m' -> length (bufs m') = length (bufs m)) as Hbl.
    { intros m m' Hsz. destruct (decide (length (bufs m') = length (bufs m)));
        [done|exfalso].
      destruct (decide (length (bufs m') < length (bufs m))%nat).
      - pose proof (Hsz (Buf (length (bufs m')))) as Hx. simpl in Hx.
        rewrite (lookup_ge_None_2 (bufs m')) in Hx by lia.
        destruct (lookup_lt_is_Some_2 (bufs m) (length (bufs m'))) as [? Hy]; [lia|].
        by rewrite Hy in Hx.
      - pose proof (Hsz (Buf (length (bufs m)))) as Hx. simpl in Hx.
        rewrite (lookup_ge_None_2 (bufs m)) in Hx by lia.
        destruct (lookup_lt_is_Some_2 (bufs m') (length (bufs m))) as [? Hy]; [lia|].
        by rewrite Hy in Hx. }
    rewrite (Hbl _ _ Hs34), (Hbl _ _ Hs23).
    apply (f_equal (fmap mem)) in Eg. revert Eg.
    rewrite (grow_end_Some _ _ _ _ _ Hip). simpl.
    destruct returnsp; simpl.
    + destruct (Hsp eq_refl) as (s & -> & Hne & Hb). simpl.
      erewrite grow_end_Some; [|simpl; rewrite list_lookup_insert_ne by done;
                                 exact Hb].
      simpl. intros [= <-]. simpl. by rewrite !length_insert.
    + intros [= <-]. simpl. by rewrite length_insert.
Qed.

Lemma maxincr_fits : 1000 <= SIZE_MAX.
Proof. unfold SIZE_MAX, ptr_bits. by destruct ptr_width. Qed.

(** X6. Outside Windows, when the unwinder faults after the frames [fs]
    (fewer than 1000), jl_backtrace_from_here does not lose the walk: it
    returns arrays holding the frames before the fault except the last. *)
Theorem jl_backtrace_from_here_fault (fuel : nat) (here : bt_context_t)
    (returnsp : bool) (w : world) (c c1 c2 : bt_cursor_t)
    (fs : list (uintptr_t * uintptr_t)) (vip vsp : option uintptr_t) :
  os_windows = false -> jl_unw_init here = Some c ->
  steps c (full fs) c1 -> jl_unw_step c1 = Faulted vip vsp c2 ->
  (length fs < 1000)%nat ->
  let ip := length (bufs (mem w)) in
  ∃ w',
    jl_backtrace_from_here uninit (S fuel) here returnsp w
    = Done (if returnsp then jl_svec2 (JlArray ip) (JlArray (S ip))
            else JlArray ip) w'
    ∧ bufs (mem w') !! ip = Some (take (length fs - 1) fs.*1)
    ∧ (returnsp = true ->
       bufs (mem w') !! S ip = Some (take (length fs - 1) fs.*2)).
Proof.
  intros Hos Hinit Hs Hstep Hlen ip.
  unfold jl_backtrace_from_here, backtrace_from_here.
  set (w0 := init_array_ptr_void_type w).
  assert (mem w0 = mem w) as Hm0.
  { subst w0. unfold init_array_ptr_void_type. by destruct (array_ptr_void_type w). }
  unfold jl_alloc_array_1d. rewrite Hm0. fold ip. simpl replicate.
  set (w1 := set_bufs (bufs (mem w) ++ [[]]) w0).
  rewrite Hinit. pose proof maxincr_fits as Hfit.
  assert (∀ (li : list uintptr_t) (xs : list uintptr_t),
            length li = N.to_nat 1000 -> take (length fs) li = xs ->
            take (length li - N.to_nat (1000 - N.of_nat (length fs - 1))) li
            = take (length fs - 1) xs) as Htake.
  { intros li xs Hl <-. rewrite take_take. f_equal. lia. }
  destruct returnsp.
  - set (w2 := set_bufs (bufs (mem w1) ++ [[]]) w1).
    assert (length (bufs (mem w1)) = S ip) as Hl1.
    { subst w1 ip. simpl. rewrite length_app. simpl. lia. }
    rewrite Hl1.
    assert (bufs (mem w2) !! ip = Some []) as Hip2.
    { subst w2 w1. simpl. rewrite lookup_app_l by (rewrite length_app; simpl; lia).
      by apply list_lookup_middle. }
    assert (bufs (mem w2) !! S ip = Some []) as Hsp2.
    { subst w2. cbn [mem set_bufs set_mem bufs]. apply list_lookup_middle.
      by rewrite Hl1. }
    destruct (capture_loop_fault 1000 true ip (Some (S ip)) fuel c c1 c2 fs
                vip vsp w2) as (m' & li & E & Hli & Hlen' & Hpre & Hsp & _);
      try done; [lia| |].
    { intros _. exists (S ip). split; [done|]. split; [lia|done]. }
    destruct (Hsp eq_refl (S ip) eq_refl) as (ls & Hls & Hlens & Hpres).
    rewrite E. rewrite usub_le by (done || lia).
    rewrite (del_end_take ip _ (set_mem m' w2) li) by (done || lia).
    simpl. unfold if_returnsp. simpl.
    rewrite (del_end_take (S ip) _ _ ls); cycle 1.
    { simpl. rewrite list_lookup_insert_ne by lia. exact Hls. }
    { lia. }
    eexists. split; [done|]. simpl. split.
    + rewrite list_lookup_insert_ne by lia.
      rewrite list_lookup_insert_eq by (by eapply lookup_lt_Some).
      f_equal. by apply Htake.
    + intros _. rewrite list_lookup_insert_eq.
      * f_equal. by apply Htake.
      * rewrite length_insert. by eapply lookup_lt_Some.
  - assert (bufs (mem w1) !! ip = Some []) as Hip1.
    { subst w1. simpl. by apply list_lookup_middle. }
    destruct (capture_loop_fault 1000 false ip None fuel c c1 c2 fs
                vip vsp w1) as (m' & li & E & Hli & Hlen' & Hpre & _);
      try done; [lia|].
    rewrite E. rewrite usub_le by (done || lia).
    rewrite (del_end_take ip _ (set_mem m' w1) li) by (done || lia).
    simpl. eexists. split; [done|]. simpl. split; [|done].
    rewrite list_lookup_insert_eq by (by eapply lookup_lt_Some).
    f_equal. by apply Htake.
Qed.

End GrowableSafety.

End Safety.

(** ** Further properties: the Windows backend *)

Lemma set_in_stackwalk_restore (w : world) :
  jl_in_stackwalk w = false ->
  set_in_stackwalk false (set_in_stackwalk true w) = w.
Proof. destruct w. simpl. by intros ->. Qed.

Lemma refresh_module_list_world (g : win_refresh) (w : world) :
  (refresh_module_list g w).2 = w.
Proof.
  unfold refresh_module_list.
  destruct (negb (needsSymRefreshModuleList g =? 0)%Z), (hSymRefreshModuleList g),
    (jl_in_stackwalk w) eqn:E; simpl; try done.
  by apply set_in_stackwalk_restore.
Qed.

Lemma refresh_module_list_calls (g : win_refresh) (w : world) :
  ∃ calls, refresh_calls (refresh_module_list g w).1 = refresh_calls g ++ calls
           ∧ (length calls ≤ 1)%nat ∧ Forall (eq true) calls
           ∧ (jl_in_stackwalk w = true -> calls = []).
Proof.
  unfold refresh_module_list.
  destruct (negb (needsSymRefreshModuleList g =? 0)%Z), (hSymRefreshModuleList g),
    (jl_in_stackwalk w) eqn:E; simpl;
    try (exists []; rewrite app_nil_r; split_and!; (done || (simpl; lia))).
  exists [true]. split_and!; try done. by repeat constructor.
Qed.

Lemma refresh_module_list_twice (g : win_refresh) (w : world) :
  refresh_module_list (refresh_module_list g w).1 w
  = ((refresh_module_list g w).1, w).
Proof.
  unfold refresh_module_list.
  destruct (negb (needsSymRefreshModuleList g =? 0)%Z) eqn:E1,
    (hSymRefreshModuleList g) eqn:E2, (jl_in_stackwalk w) eqn:E3; simpl;
    rewrite ?E1, ?E2, ?E3; done.
Qed.

Section WindowsUnwindTheory.
Context (H REGS FRAME_REST : Type).
Variable RtlLookupFunctionEntry : N -> H -> N * N * H.
Variable SymFunctionTableAccess64 : N -> N -> N.
Variable SymGetModuleBase64 : N -> N -> N.
Variable jl_getUnwindInfo : N -> N.
Variable GetCurrentProcess : N.
Variable VirtualQuery : N -> N * N.
Variable read_qword : N -> N.
Variable RtlVirtualUnwind : N -> N -> N -> CONTEXT REGS -> CONTEXT REGS.
Variable PAGE_NOACCESS : N.
Variable PAGE_READONLY : N.
Variable PAGE_READWRITE : N.
Variable PAGE_WRITECOPY : N.
Variable PAGE_EXECUTE_READ : N.
Variable PAGE_GUARD : N.
Variable AddrModeFlat : N.
Variable zero_rest : FRAME_REST.
Variable StackWalk64 :
  STACKFRAME64 FRAME_REST -> CONTEXT32 REGS -> win_static H -> world ->
  bool * STACKFRAME64 FRAME_REST * CONTEXT32 REGS * win_static H * world.

(** X7. The 64-bit jl_unw_init always succeeds with a copy of the
    context and leaves every global of the walk as it was; it calls the
    module-list refresh at most once, with jl_in_stackwalk set during
    the call and never from inside a walk, and a second initialisation
    right after it refreshes nothing. *)
Theorem jl_unw_init_win64_once (Context : CONTEXT REGS) (g : win_refresh)
    (w : world) :
  let r := jl_unw_init_win64 REGS Context g w in
  r.1.1 = Some Context ∧ r.2 = w
  ∧ (∃ calls, refresh_calls r.1.2 = refresh_calls g ++ calls
              ∧ (length calls ≤ 1)%nat ∧ Forall (eq true) calls
              ∧ (jl_in_stackwalk w = true -> calls = []))
  ∧ ∀ Context', jl_unw_init_win64 REGS Context' r.1.2 r.2
                = (Some Context', r.1.2, r.2).
Proof.
  unfold jl_unw_init_win64.
  pose proof (refresh_module_list_world g w) as Hw.
  pose proof (refresh_module_list_calls g w) as Hc.
  pose proof (refresh_module_list_twice g w) as Ht.
  destruct (refresh_module_list g w) as [g' w']. simpl in *. subst w'.
  split; [done|]. split; [done|]. split; [done|].
  intros Context'. by rewrite Ht.
Qed.

(** X8. The 32-bit jl_unw_init leaves jl_in_stackwalk as it found it,
    whatever StackWalk64 does. Entered inside a walk it fails and changes
    nothing; entered outside it runs StackWalk64 with the flag set, on the
    frame made of Eip, Esp and Ebp in flat mode, and succeeds exactly when
    StackWalk64 does. *)
Theorem jl_unw_init_win32_flag (Context : CONTEXT32 REGS) (g : win_refresh)
    (s : win_static H) (w : world) :
  let r := jl_unw_init_win32 H REGS FRAME_REST AddrModeFlat zero_rest StackWalk64
             Context g s w in
  jl_in_stackwalk r.2 = jl_in_stackwalk w
  ∧ (jl_in_stackwalk w = true -> r = (None, g, s, w))
  ∧ (jl_in_stackwalk w = false ->
     let sw := StackWalk64
                 (StackFrame FRAME_REST (Eip REGS Context) AddrModeFlat
                    (Esp REGS Context) AddrModeFlat
                    (Ebp REGS Context) AddrModeFlat zero_rest)
                 Context s (set_in_stackwalk true w) in
     r.1.1.1 = (if sw.1.1.1.1
                then Some (Cursor32 REGS FRAME_REST sw.1.1.1.2 sw.1.1.2)
                else None)
     ∧ r.1.2 = sw.1.2 ∧ r.2 = set_in_stackwalk false sw.2).
Proof.
  unfold jl_unw_init_win32.
  pose proof (refresh_module_list_world g w) as Hw.
  pose proof (refresh_module_list_calls g w) as (calls & Hc & _ & _ & Hn).
  destruct (refresh_module_list g w) as [g' w'] eqn:Er. simpl in *. subst w'.
  destruct (jl_in_stackwalk w) eqn:Ef.
  - split; [done|]. split; [|done]. intros _.
    unfold refresh_module_list in Er. rewrite Ef in Er.
    rewrite andb_false_r in Er. by injection Er as <-.
  - destruct (StackWalk64 _ _ _ _) as [[[[res fr] cx] s'] w'] eqn:Es. simpl.
    split; [by destruct w'|]. split; [done|]. by intros _.
Qed.

Lemma JuliaFunctionTableAccess64_x64 (hProcess addr : N) (s : win_static H)
    (w : world) :
  let r := JuliaFunctionTableAccess64 true H RtlLookupFunctionEntry
             SymFunctionTableAccess64 hProcess addr s w in
  r.2 = w
  ∧ ∃ calls, dbghelp_calls H r.1.2 = dbghelp_calls H s ++ calls
             ∧ (length calls ≤ 1)%nat
             ∧ Forall (λ c, dc_in_stackwalk c = true ∧ dc_addr c = addr) calls
             ∧ (jl_in_stackwalk w = true -> calls = []).
Proof.
  unfold JuliaFunctionTableAccess64.
  destruct (RtlLookupFunctionEntry addr (HistoryTable H s)) as [[fn base] h].
  destruct (fn =? 0); simpl.
  - destruct (jl_in_stackwalk w) eqn:Ef; simpl.
    + split; [done|]. exists []. rewrite app_nil_r.
      split_and!; (done || (simpl; lia)).
    + split; [by apply set_in_stackwalk_restore|].
      eexists [_]. split; [done|]. split; [simpl; lia|].
      split; [by repeat constructor|done].
  - split; [done|]. exists []. rewrite app_nil_r.
    split_and!; (done || (simpl; lia)).
Qed.

Lemma JuliaGetModuleBase64_x64 (hProcess addr : N) (s : win_static H)
    (w : world) :
  let r := JuliaGetModuleBase64 true H RtlLookupFunctionEntry
             SymGetModuleBase64 jl_getUnwindInfo hProcess addr s w in
  r.2 = w
  ∧ ∃ calls, dbghelp_calls H r.1.2 = dbghelp_calls H s ++ calls
             ∧ (length calls ≤ 1)%nat
             ∧ Forall (λ c, dc_in_stackwalk c = true ∧ dc_addr c = addr) calls
             ∧ (jl_in_stackwalk w = true -> calls = []).
Proof.
  unfold JuliaGetModuleBase64.
  destruct (RtlLookupFunctionEntry addr (HistoryTable H s)) as [[fn base] h].
  destruct (fn =? 0); simpl.
  - destruct (jl_in_stackwalk w) eqn:Ef; simpl.
    + split; [done|]. exists []. rewrite app_nil_r.
      split_and!; (done || (simpl; lia)).
    + split; [by apply set_in_stackwalk_restore|].
      eexists [_]. split; [done|]. split; [simpl; lia|].
      split; [by repeat constructor|done].
  - split; [done|]. exists []. rewrite app_nil_r.
    split_and!; (done || (simpl; lia)).
Qed.

(** X9. The 64-bit jl_unw_step, on every path: it stores the Rip and
    the Rsp the cursor had on entry, it leaves every global of the walk as
    it was, it reports a further frame only with a cursor whose Rip is not
    0, and it calls into the debug-help library at most twice, for the
    entry Rip, each time with jl_in_stackwalk set, and not at all from
    inside a walk. *)
Theorem jl_unw_step_win64_invariants (cursor : CONTEXT REGS)
    (s : win_static H) (w : world) :
  let r := jl_unw_step_win64 H REGS RtlLookupFunctionEntry
             SymFunctionTableAccess64 SymGetModuleBase64 jl_getUnwindInfo
             GetCurrentProcess VirtualQuery read_qword RtlVirtualUnwind
             PAGE_NOACCESS PAGE_READONLY PAGE_READWRITE PAGE_WRITECOPY
             PAGE_EXECUTE_READ PAGE_GUARD cursor s w in
  r.2 = w
  ∧ (∃ more c', r.1.1 = Stepped (Some (Rip REGS cursor)) (Some (Rsp REGS cursor))
                          more c'
                ∧ (more = true -> Rip REGS c' ≠ 0))
  ∧ ∃ calls, dbghelp_calls H r.1.2 = dbghelp_calls H s ++ calls
             ∧ (length calls ≤ 2)%nat
             ∧ Forall (λ c, dc_in_stackwalk c = true
                            ∧ dc_addr c = Rip REGS cursor) calls
             ∧ (jl_in_stackwalk w = true -> calls = []).
Proof.
  unfold jl_unw_step_win64.
  pose proof (JuliaGetModuleBase64_x64 GetCurrentProcess (Rip REGS cursor) s w)
    as Hg.
  destruct (JuliaGetModuleBase64 _ _ _ _ _ _ _ s w) as [[base s1] w1].
  simpl in Hg. destruct Hg as (-> & calls1 & Hc1 & Hl1 & Hf1 & Hn1).
  assert (∀ (res : unw_step_result (CONTEXT REGS)) s2,
            (∃ calls, dbghelp_calls H s2 = dbghelp_calls H s ++ calls
                      ∧ (length calls ≤ 2)%nat
                      ∧ Forall (λ c, dc_in_stackwalk c = true
                                     ∧ dc_addr c = Rip REGS cursor) calls
                      ∧ (jl_in_stackwalk w = true -> calls = [])) ->
            (∃ more c', res = Stepped (Some (Rip REGS cursor))
                                (Some (Rsp REGS cursor)) more c'
                        ∧ (more = true -> Rip REGS c' ≠ 0)) ->
            let r := (res, s2, w) in
            r.2 = w
            ∧ (∃ more c', r.1.1 = Stepped (Some (Rip REGS cursor))
                                    (Some (Rsp REGS cursor)) more c'
                          ∧ (more = true -> Rip REGS c' ≠ 0))
            ∧ ∃ calls, dbghelp_calls H r.1.2 = dbghelp_calls H s ++ calls
                       ∧ (length calls ≤ 2)%nat
                       ∧ Forall (λ c, dc_in_stackwalk c = true
                                      ∧ dc_addr c = Rip REGS cursor) calls
                       ∧ (jl_in_stackwalk w = true -> calls = [])) as Hfin.
  { intros res s2 Hc Hr. simpl. by repeat split. }
  assert (∀ c' : CONTEXT REGS,
            negb (Rip REGS c' =? 0) = true -> Rip REGS c' ≠ 0) as Hrip.
  { intros c' Hc' E. by rewrite E in Hc'. }
  destruct (base =? 0).
  { apply Hfin; [|by eexists _, _].
    exists calls1. repeat split; (done || lia). }
  pose proof (JuliaFunctionTableAccess64_x64 GetCurrentProcess (Rip REGS cursor)
                s1 w) as Hf.
  destruct (JuliaFunctionTableAccess64 _ _ _ _ _ _ s1 w) as [[fe s2] w2].
  simpl in Hf. destruct Hf as (-> & calls2 & Hc2 & Hl2 & Hf2 & Hn2).
  assert (∃ calls, dbghelp_calls H s2 = dbghelp_calls H s ++ calls
                   ∧ (length calls ≤ 2)%nat
                   ∧ Forall (λ c, dc_in_stackwalk c = true
                                  ∧ dc_addr c = Rip REGS cursor) calls
                   ∧ (jl_in_stackwalk w = true -> calls = [])) as Hcalls.
  { exists (calls1 ++ calls2). rewrite Hc2, Hc1, app_assoc.
    split; [done|]. split; [rewrite length_app; lia|].
    split; [by apply Forall_app|].
    intros Hw. by rewrite Hn1, Hn2. }
  destruct (fe =? 0).
  - simpl. destruct (VirtualQuery (Rbp REGS cursor)) as [queried X].
    destruct (queried =? 0); [apply Hfin; [exact Hcalls|by eexists _, _]|].
    destruct (negb (page_readable _ _ _ _ _ _ X));
      [apply Hfin; [exact Hcalls|by eexists _, _]|].
    apply Hfin; [exact Hcalls|]. eexists _, _. split; [done|].
    intros Hm. simpl. intros E. by rewrite E in Hm.
  - apply Hfin; [exact Hcalls|]. eexists _, _. split; [done|]. apply Hrip.
Qed.

End WindowsUnwindTheory.

Section WindowsCache.
Context (H : Type).
Variable RtlLookupFunctionEntry : N -> H -> N * N * H.
Variable SymGetModuleBase64 : N -> N -> N.
Variable jl_getUnwindInfo : N -> N.

(** X10. The one-entry cache of the 32-bit JuliaGetModuleBase64 is
    transparent: when the cached pair is a base jl_getUnwindInfo gives,
    or the address is not the cached one, the callback returns what the
    lookup without the cache returns; a coherent cache stays coherent, a
    lookup jl_getUnwindInfo answers leaves the cache coherent and calls
    nothing of the debug-help library; no global of the walk changes. *)
Theorem JuliaGetModuleBase64_cache (hProcess dwAddr : N) (s : win_static H)
    (w : world) :
  cache_coherent jl_getUnwindInfo s ∨ dwAddr ≠ HistoryTable_dwAddr H s ->
  let r := JuliaGetModuleBase64 false H RtlLookupFunctionEntry
             SymGetModuleBase64 jl_getUnwindInfo hProcess dwAddr s w in
  r.1.1 = (if jl_getUnwindInfo dwAddr =? 0
           then SymGetModuleBase64 hProcess dwAddr
           else jl_getUnwindInfo dwAddr)
  ∧ r.2 = w
  ∧ (cache_coherent jl_getUnwindInfo s -> cache_coherent jl_getUnwindInfo r.1.2)
  ∧ (jl_getUnwindInfo dwAddr ≠ 0 ->
     cache_coherent jl_getUnwindInfo r.1.2
     ∧ dbghelp_calls H r.1.2 = dbghelp_calls H s
     ∧ HistoryTable_dwAddr H r.1.2 = dwAddr).
Proof.
  intros Hs. unfold JuliaGetModuleBase64, cache_coherent in *.
  destruct (N.eqb_spec dwAddr (HistoryTable_dwAddr H s)) as [->|Hne]; simpl.
  - destruct Hs as [[Hb Hnz]|]; [|done].
    rewrite <- Hb.
    destruct (N.eqb_spec (HistoryTable_ImageBase H s) 0) as [E|E];
      [congruence|].
    intuition congruence.
  - destruct (N.eqb_spec (jl_getUnwindInfo dwAddr) 0) as [Hz|Hnz]; simpl;
      intuition congruence.
Qed.

End WindowsCache.

(** ** Further properties: libunwind and the DWARF variant *)

Section LibunwindTheory.
Context (wd : width) (x86_64 : bool) (unw_context_t unw_cursor_t : Type).
Variable unw_init_local : unw_context_t -> Z * unw_cursor_t.
Variable unw_get_reg :
  unw_cursor_t -> unw_regnum_t -> unw_call (Z * N * unw_cursor_t) unw_cursor_t.
Variable unw_step : unw_cursor_t -> unw_call (Z * unw_cursor_t) unw_cursor_t.
Variable unw_init_local_dwarf : unw_context_t -> Z * unw_cursor_t.

Local Abbreviation LB :=
  (libunwind_backend wd x86_64 unw_context_t unw_cursor_t
     unw_init_local unw_get_reg unw_step).

Lemma libunwind_step_more (c c' : unw_cursor_t) (vip vsp : option uintptr_t) :
  jl_unw_step (Backend := LB) c = Stepped vip vsp true c' ->
  ∃ a b, vip = Some a ∧ vsp = Some b ∧ a < 2 ^ bits wd ∧ b < 2 ^ bits wd.
Proof.
  simpl. unfold libunwind_unw_step.
  destruct (unw_get_reg c UNW_REG_IP) as [[[r1 reg1] c1]|c1]; [|done].
  destruct (r1 <? 0)%Z; [done|].
  destruct (unw_get_reg c1 UNW_REG_SP) as [[[r2 reg2] c2]|c2]; [|done].
  destruct (r2 <? 0)%Z; [done|].
  destruct (unw_step c2) as [[r3 c3]|c3]; [|done].
  intros [= <- <- _ _]. eexists _, _. split; [done|]. split; [done|].
  split; apply N.mod_lt; by destruct wd.
Qed.

(** X11. With libunwind a call of jl_unw_step that reports a further frame
    has stored both registers, each a value of pointer width, so a run
    of such calls stores complete frames only; and on no path, whether a
    register cannot be read, unw_step reports the end of the stack or a
    call into the library faults, is a stack pointer stored without the
    instruction pointer. *)
Theorem libunwind_steps_complete :
  (∀ (c c' : unw_cursor_t) (fs : list stored),
     steps (B := LB) c fs c' ->
     ∃ fs', fs = full fs'
            ∧ Forall (λ f, f.1 < 2 ^ bits wd ∧ f.2 < 2 ^ bits wd) fs')
  ∧ ∀ c : unw_cursor_t,
      match jl_unw_step (Backend := LB) c with
      | Stepped vip vsp _ _ | Faulted vip vsp _ => is_Some vsp -> is_Some vip
      end.
Proof.
  split.
  - intros c c' fs Hs. induction Hs as [c|c vip vsp c1 fs c' Hstep _ IH].
    + by exists [].
    + destruct IH as (fs' & -> & Hfs').
      destruct (libunwind_step_more c c1 vip vsp Hstep)
        as (a & b & -> & -> & Ha & Hb).
      exists ((a, b) :: fs'). split; [done|]. by constructor.
  - intros c. simpl. unfold libunwind_unw_step.
    destruct (unw_get_reg c UNW_REG_IP) as [[[r1 reg1] c1]|c1]; [|done].
    destruct (r1 <? 0)%Z; [done|].
    destruct (unw_get_reg c1 UNW_REG_SP) as [[[r2 reg2] c2]|c2]; [|by eauto].
    destruct (r2 <? 0)%Z; [by eauto|].
    destruct (unw_step c2) as [[r3 c3]|c3]; by eauto.
Qed.

(** X12. The DWARF variant of bounded capture takes a status of 0 from
    unw_init_local_dwarf as failure: it then returns 0 and changes
    nothing. With any other status it walks from the cursor the
    initialiser left, stores the instruction pointers of the frames that
    fit and returns their number. *)
Theorem rec_backtrace_ctx_dwarf_sense (data : pointer) (maxsize : size_t)
    (context : unw_context_t) (w : world)
    (fs : list (uintptr_t * uintptr_t)) (l : list uintptr_t) :
  maxsize < SIZE_MAX (B := LB) ->
  block_data (blk data) (mem w) = Some l ->
  (ofs data + N.to_nat maxsize ≤ length l)%nat ->
  let r := unw_init_local_dwarf context in
  let run := rec_backtrace_ctx_dwarf wd x86_64 unw_context_t unw_cursor_t
               unw_init_local unw_get_reg unw_step unw_init_local_dwarf
               data maxsize context w in
  (r.1 = 0%Z -> run = Done 0 w)
  ∧ (r.1 ≠ 0%Z -> walk (B := LB) r.2 fs ->
     let k := (length fs `min` N.to_nat maxsize)%nat in
     ∃ m', run = Done (N.of_nat k) (set_mem m' w)
           ∧ block_data (blk data) m'
             = Some (take (ofs data) l ++ (take k fs).*1
                       ++ drop (ofs data + k) l)).
Proof.
  intros Hmax Hb Hlen r run. subst r run.
  unfold rec_backtrace_ctx_dwarf, jl_unw_init_dwarf.
  destruct (unw_init_local_dwarf context) as [r c]. simpl. split.
  - intros ->. done.
  - intros Hr Hw. destruct (Z.eqb_spec r 0) as [|_]; [done|].
    destruct (jl_unw_stepn_walk (B := LB) c fs data None maxsize w
                (take (ofs data) l) (drop (ofs data) l) [] [])
      as (c' & m' & E & _ & Hb' & _); try done.
    { by rewrite take_drop. }
    { rewrite length_take. lia. }
    { rewrite length_drop. lia. }
    exists m'. rewrite E. rewrite drop_drop in Hb'. split; [|exact Hb'].
    f_equal. case_decide.
    + destruct (N.ltb_spec maxsize (N.of_nat (length fs))); lia.
    + destruct (N.ltb_spec maxsize (maxsize + 1)); lia.
Qed.

End LibunwindTheory.

(** ** Further properties: the snapshot and symbolication *)

Section SnapshotTheory.
Context `{B : Backend}.
Variable uninit : uintptr_t.
Variable empty_sym : string.
Variable PRIuPTR : string.
Variable jl_getFunctionInfo : uintptr_t -> Z -> Z -> list jl_frame_t.

Lemma jl_get_backtrace_array (w : world) :
  (N.to_nat (jl_bt_size w) ≤ length (jl_bt_data (mem w)))%nat ->
  jl_bt_size w * sizeof_ptr <= SIZE_MAX ->
  let bt := length (bufs (mem w)) in
  ∃ w', jl_get_backtrace uninit w = Done (JlArray bt) w'
        ∧ bufs (mem w') !! bt
          = Some (take (N.to_nat (jl_bt_size w)) (jl_bt_data (mem w))).
Proof.
  intros Hlen Hmax bt. unfold jl_get_backtrace.
  set (w0 := init_array_ptr_void_type w).
  assert (mem w0 = mem w ∧ jl_bt_size w0 = jl_bt_size w) as [Hm0 Hs0].
  { subst w0. unfold init_array_ptr_void_type. by destruct (array_ptr_void_type w). }
  unfold jl_alloc_array_1d. rewrite Hm0, Hs0. fold bt.
  set (n := N.to_nat (jl_bt_size w)).
  pose proof sizeof_ptr_pos as Hsz.
  unfold memcpy. cbn [jl_bt_size set_bufs set_mem mem blk ofs jl_array_data
                      block_data bufs jl_bt_data].
  rewrite Hs0, Hm0.
  rewrite wrap_small by done.
  rewrite N.div_mul by lia. fold n.
  assert ((bufs (mem w) ++ [replicate n uninit]) !! bt = Some (replicate n uninit))
    as Hbt by (by apply list_lookup_middle).
  rewrite Hbt. simpl.
  rewrite decide_True by (rewrite length_replicate; lia).
  eexists. split; [reflexivity|]. simpl.
  rewrite drop_replicate, Nat.sub_diag, app_nil_r. simpl. rewrite drop_0.
  rewrite insert_app_r_alt by (subst bt; lia).
  rewrite Nat.sub_diag. simpl. by rewrite list_lookup_middle.
Qed.

(** X13. The snapshot round trip. When a caller captures into jl_bt_data
    and stores the returned count in jl_bt_size, the frames [kept] that
    fit are what the two readers of the snapshot see: jl_get_backtrace
    returns a new array holding exactly their instruction pointers, and
    jlbacktrace prints exactly the lines of these addresses. *)
Theorem snapshot_round_trip (maxsize : size_t) (context : bt_context_t)
    (w : world) (fs : list (uintptr_t * uintptr_t)) :
  assert_holds w -> maxsize < SIZE_MAX -> maxsize * sizeof_ptr <= SIZE_MAX ->
  stack_frames context fs ->
  (N.to_nat maxsize ≤ length (jl_bt_data (mem w)))%nat ->
  let kept := take (N.to_nat maxsize) fs.*1 in
  ∃ n w1,
    rec_backtrace_ctx (Ptr JlBtData 0) maxsize context w = Done n w1
    ∧ (∃ w2, jl_get_backtrace uninit (set_bt_size n w1)
             = Done (JlArray (length (bufs (mem w)))) w2
             ∧ bufs (mem w2) !! length (bufs (mem w)) = Some kept)
    ∧ jlbacktrace PRIuPTR jl_getFunctionInfo (set_bt_size n w1)
      = Done tt (add_console (backtrace_lines PRIuPTR jl_getFunctionInfo kept)
                   (set_bt_size n w1)).
Proof.
  intros Ha Hmax Hbytes Hd Hlen kept.
  pose proof sizeof_ptr_pos as Hsz.
  assert (∃ (m' : memory) (k : nat),
            rec_backtrace_ctx (Ptr JlBtData 0) maxsize context w
            = Done (N.of_nat k) (set_mem m' w)
            ∧ (k ≤ N.to_nat maxsize)%nat
            ∧ bufs m' = bufs (mem w)
            ∧ (k ≤ length (jl_bt_data m'))%nat
            ∧ take k (jl_bt_data m') = kept) as (m' & k & E & Hk & Hbufs & Hkl & Hkept).
  { unfold stack_frames in Hd. destruct (jl_unw_init context) as [c|] eqn:Hinit.
    - destruct (rec_backtrace_ctx_walk (Ptr JlBtData 0) maxsize context c w fs
                  (jl_bt_data (mem w))) as (m' & E & Hb); try done.
      simpl in Hb. injection Hb as Hb.
      exists m', (length fs `min` N.to_nat maxsize)%nat.
      split; [done|]. split; [lia|].
      assert (length (take (length fs `min` N.to_nat maxsize) fs).*1
              = (length fs `min` N.to_nat maxsize)%nat) as Hl
        by (rewrite length_fmap, length_take; lia).
      split.
      { unfold rec_backtrace_ctx in E. rewrite Hinit in E.
        destruct (jl_unw_stepn c (Ptr JlBtData 0) None maxsize w)
          as [[n c'] w'| |] eqn:En; try done.
        destruct (jl_unw_stepn_frame c (Ptr JlBtData 0) None maxsize w w'
                    (n, c') En) as (_ & _ & Hf).
        injection E as _ Ew. subst w'. apply list_eq. intros a.
        by apply (Hf (Buf a)). }
      split; [rewrite Hb, length_app; lia|].
      rewrite Hb. rewrite take_app_length' by done.
      subst kept. rewrite <- fmap_take. f_equal.
      destruct (decide (length fs ≤ N.to_nat maxsize)%nat).
      + rewrite Nat.min_l by done. by rewrite !take_ge by lia.
      + f_equal. lia.
    - subst fs. exists (mem w), 0%nat. unfold rec_backtrace_ctx.
      rewrite Hinit, set_mem_mem. split; [done|]. split; [lia|].
      split; [done|]. split; [lia|]. subst kept. simpl.
      by destruct (N.to_nat maxsize). }
  exists (N.of_nat k), (set_mem m' w). split; [done|].
  set (w1 := set_bt_size (N.of_nat k) (set_mem m' w)).
  assert (N.to_nat (jl_bt_size w1) = k) as Hsz1 by (subst w1; simpl; lia).
  split.
  - destruct (jl_get_backtrace_array w1) as (w2 & E2 & Hw2).
    { rewrite Hsz1. subst w1. simpl. done. }
    { subst w1. simpl. nia. }
    exists w2. subst w1. simpl in *. rewrite Hbufs in E2, Hw2.
    split; [done|]. rewrite Hw2. f_equal.
    replace (N.to_nat (N.of_nat k)) with k by lia. done.
  - unfold jlbacktrace. rewrite Hsz1.
    rewrite (jlbacktrace_loop PRIuPTR jl_getFunctionInfo w1 k)
      by (subst w1; simpl; lia).
    subst w1. simpl. by rewrite Hkept.
Qed.

Lemma to_uintptr_to_intptr (a : uintptr_t) :
  a <= SIZE_MAX -> to_uintptr (to_intptr a) = a.
Proof.
  unfold SIZE_MAX, to_uintptr, to_intptr. pose proof modulus_pos as Hm.
  intros Ha.
  assert (Z.of_N (2 ^ ptr_bits) = (2 ^ Z.of_N ptr_bits)%Z) as HM
    by (by rewrite N2Z.inj_pow).
  destruct (a <? 2 ^ (ptr_bits - 1)).
  - rewrite Z.mod_small by lia. lia.
  - replace (Z.of_N a - 2 ^ Z.of_N ptr_bits)%Z
      with (Z.of_N a + (-1) * 2 ^ Z.of_N ptr_bits)%Z by lia.
    rewrite Z_mod_plus_full, Z.mod_small by lia. lia.
Qed.

(** X14. jl_lookup_code_address leaves no slot empty: the result is a
    vector of seven-slot descriptors none of whose slots is NULL, with
    the method info or nothing in slot 3 and the two flags of the frame
    in slots 4 and 5; and the address can be read back from the last
    slot: converted to unsigned it is the address looked up. *)
Theorem jl_lookup_code_address_filled (ip : uintptr_t) (skipC : Z) :
  ip <= SIZE_MAX ->
  ∃ ds : list (list jl_value_t),
    jl_lookup_code_address empty_sym jl_getFunctionInfo ip skipC
    = JlSvec (JlSvec <$> ds)
    ∧ Forall2 (λ d frame,
                 length d = 7%nat ∧ Forall (λ x, x ≠ JlNull) d
                 ∧ d !! 3%nat = Some (match linfo frame with
                                      | Some l => JlLinfo l
                                      | None => JlNothing
                                      end)
                 ∧ d !! 4%nat = Some (JlBool (fromC frame))
                 ∧ d !! 5%nat = Some (JlBool (inlined frame))
                 ∧ ∃ z, d !! 6%nat = Some (JlLong z) ∧ to_uintptr z = ip)
        ds (jl_getFunctionInfo ip skipC 0).
Proof.
  intros Hip.
  set (frames := jl_getFunctionInfo ip skipC 0).
  set (d := λ frame : jl_frame_t,
         [JlSymbol (default empty_sym (func_name frame));
          JlSymbol (default empty_sym (file_name frame));
          JlLong (line frame);
          match linfo frame with Some l => JlLinfo l | None => JlNothing end;
          JlBool (fromC frame); JlBool (inlined frame);
          JlLong (to_intptr ip)]).
  assert (∀ frame, frame_svec empty_sym ip frame = JlSvec (d frame)) as Hd.
  { intros frame. unfold frame_svec, d.
    by destruct (func_name frame), (file_name frame). }
  exists (d <$> frames). split.
  - unfold jl_lookup_code_address. fold frames. unfold jl_alloc_svec.
    rewrite (svec_fill (frame_svec empty_sym ip) frames (length frames))
      by (done || by rewrite length_replicate).
    rewrite firstn_all, drop_ge, app_nil_r by (by rewrite length_replicate).
    f_equal. rewrite <- list_fmap_compose. apply list_fmap_ext.
    intros i x _. apply Hd.
  - apply Forall2_fmap_l, Forall_Forall2_diag, Forall_forall. intros frame _.
    subst d. simpl. split; [done|]. split.
    + repeat constructor; try done. by destruct (linfo frame).
    + split; [done|]. split; [done|]. split; [done|].
      exists (to_intptr ip). split; [done|]. by apply to_uintptr_to_intptr.
Qed.

End SnapshotTheory.

(** * Examples *)

Section Examples.
Import Synthetic.

Local Existing Instance backend.

Lemma steps_stack3 :
  steps (B := backend) stack3 [(Some 100, Some 200); (Some 101, Some 201)]
    [Valid 102 202].
Proof. repeat (econstructor; try reflexivity). Defined.

Lemma walk_stack3 : walk (B := backend) stack3 frames3.
Proof.
  eapply walk_more; [reflexivity|]. eapply walk_more; [reflexivity|].
  eapply walk_last. reflexivity.
Defined.

(** The stepping loop on the three-frame stack with room for four. *)
Lemma jl_unw_stepn_count_witness :
  ∃ w', jl_unw_stepn (B := backend) stack3 (Ptr (Buf 0) 0) None 4 world0
        = Done (3, []) w'
        ∧ N.of_nat (frames_written (Ptr (Buf 0) 0) (mem world0) (mem w')) = 3.
Proof.
  destruct (jl_unw_stepn_count (B := backend) stack3 [Valid 102 202]
              (Ptr (Buf 0) 0) None 4 world0
              [(Some 100, Some 200); (Some 101, Some 201)])
    as (_ & Hend & _).
  - reflexivity.
  - reflexivity.
  - exact I.
  - exact steps_stack3.
  - edestruct (Hend eq_refl) as (E & Hall).
    + repeat constructor; eauto.
    + reflexivity.
    + reflexivity.
    + eexists. split; [exact E|exact Hall].
Defined.

(** C1: the walk is not truncated, and the count is not the number of
    frames written: the third call faults after it stored its instruction
    pointer, and the loop, with room for four, returns 1 with three
    instruction pointers written. *)
Lemma jl_unw_stepn_fault_count_below_written :
  ∃ c' w', jl_unw_stepn (B := backend) corrupt_stack (Ptr (Buf 0) 0) None 4
             world0 = Done (1, c') w'
           ∧ frames_written (Ptr (Buf 0) 0) (mem world0) (mem w') = 3%nat
           ∧ 1 ≠ 4 + 1
           ∧ 1 ≠ N.of_nat (frames_written (Ptr (Buf 0) 0) (mem world0) (mem w')).
Proof.
  do 2 eexists. split; [reflexivity|]. split; [reflexivity|].
  split; discriminate.
Qed.

(** Bounded capture of the three-frame stack into a buffer of two. *)
Lemma rec_backtrace_ctx_count_witness :
  ∃ w', rec_backtrace_ctx (B := backend) (Ptr (Buf 0) 0) 2 stack3 world0
        = Done 2 w'
        ∧ load (Ptr (Buf 0) 1) (mem w') = Some 101.
Proof.
  destruct (rec_backtrace_ctx_count (B := backend) (Ptr (Buf 0) 0) 2 stack3
              world0 frames3 [9; 9; 9; 9])
    as (w' & E & _ & _ & Hload).
  - reflexivity.
  - reflexivity.
  - exact walk_stack3.
  - reflexivity.
  - simpl. lia.
  - exists w'. split; [exact E|]. apply (Hload 1%nat). simpl. lia.
Defined.

(** C2: the stack is deeper than the capacity 2, and the count returned
    is 2, not 3. *)
Lemma rec_backtrace_ctx_no_sentinel :
  stack_frames (B := backend) stack3 frames3
  ∧ (2 < length frames3)%nat
  ∧ returned (rec_backtrace_ctx (B := backend) (Ptr (Buf 0) 0) 2 stack3 world0)
    = Some 2
  ∧ returned (rec_backtrace_ctx (B := backend) (Ptr (Buf 0) 0) 2 stack3 world0)
    ≠ Some (2 + 1).
Proof.
  split; [exact walk_stack3|]. split; [simpl; lia|].
  split; [reflexivity|discriminate].
Qed.

Lemma steps_corrupt_stack :
  steps (B := backend) corrupt_stack [(Some 100, Some 200); (Some 101, Some 201)]
    [Valid 102 202; Unmapped].
Proof. repeat (econstructor; try reflexivity). Defined.

(** A fault at the third call, after two frames. *)
Lemma jl_unw_stepn_fault_witness :
  ∃ w', jl_unw_stepn (B := backend) corrupt_stack (Ptr (Buf 0) 0) None 4 world0
        = Done (1, [Valid 102 202; Unmapped]) w'
        ∧ jl_safe_restore w' = None.
Proof.
  edestruct (jl_unw_stepn_fault (B := backend) 3 corrupt_stack
               [Valid 102 202; Unmapped] [Valid 102 202; Unmapped]
               (Ptr (Buf 0) 0) None 4 world0
               [(Some 100, Some 200); (Some 101, Some 201)]
               (Some 102) (Some 202))
    as (E & Hr & _).
  - reflexivity.
  - discriminate.
  - lia.
  - reflexivity.
  - reflexivity.
  - exact steps_corrupt_stack.
  - reflexivity.
  - reflexivity.
  - eexists. split; [exact E|exact Hr].
Defined.

(** C3: the third call faults after two frames were collected, and the
    caller sees one frame, not two. *)
Lemma jl_unw_stepn_fault_drops_two :
  steps (B := backend) corrupt_stack [(Some 100, Some 200); (Some 101, Some 201)]
    [Valid 102 202; Unmapped]
  ∧ jl_unw_step (Backend := backend) [Valid 102 202; Unmapped]
    = Faulted (Some 102) (Some 202) [Valid 102 202; Unmapped]
  ∧ fst <$> returned (jl_unw_stepn (B := backend) corrupt_stack (Ptr (Buf 0) 0)
                        None 4 world0) = Some 1
  ∧ returned (rec_backtrace_ctx (B := backend) (Ptr (Buf 0) 0) 4 corrupt_stack
                world0) = Some 1
  ∧ returned (rec_backtrace_ctx (B := backend) (Ptr (Buf 0) 0) 4 corrupt_stack
                world0) ≠ Some (3 - 1).
Proof.
  split; [exact steps_corrupt_stack|]. split; [reflexivity|].
  split; [reflexivity|]. split; [reflexivity|discriminate].
Qed.

(** Growable capture of the three-frame stack, with stack pointers. *)
Lemma jl_backtrace_from_here_exact_witness :
  captured 2 true frames3
    (jl_backtrace_from_here (B := backend) 0 1 stack3 true world0)
  ∧ captured 2 true frames3
      (backtrace_from_here (B := backend) 0 2 2 stack3 true world0).
Proof.
  destruct (jl_backtrace_from_here_exact (B := backend) 0 1%nat stack3 true
              world0 frames3) as [H1 H2].
  - reflexivity.
  - exact walk_stack3.
  - discriminate.
  - simpl. lia.
  - split; [exact H1|]. apply H2.
    + reflexivity.
    + discriminate.
    + simpl. lia.
Defined.

(** C4: with a stack of exactly 1000 frames the do-while loop ends after
    a single pass in which jl_unw_stepn returned 1000, which is not fewer
    than the increment. *)
Lemma capture_loop_stops_at_full_increment :
  returned (capture_loop (B := backend) 0 1 1000 false 0 None
              (deep_stack 1000) 0 array_world) = Some 1000
  ∧ ¬ (1000 < 1000).
Proof. split; [vm_compute; reflexivity|lia]. Qed.

(** Captures into a buffer of the caller's. *)
Lemma capture_leaves_snapshot_witness :
  (∀ n w', rec_backtrace_ctx (B := backend) (Ptr (Buf 0) 0) 2 stack3 world0
           = Done n w' -> same_snapshot world0 w')
  ∧ (∀ v w', jl_backtrace_from_here (B := backend) 0 1 stack3 true world0
             = Done v w' -> same_snapshot world0 w').
Proof.
  destruct (capture_leaves_snapshot (B := backend) 0 (Ptr (Buf 0) 0) 2 stack3
              stack3 1 true world0) as (H1 & _ & H3 & _).
  - discriminate.
  - split; [exact H1|exact H3].
Defined.

(** C7: bounded capture handed jl_bt_data as its buffer overwrites the
    snapshot. *)
Lemma rec_backtrace_ctx_into_snapshot :
  ∃ w', rec_backtrace_ctx (B := backend) (Ptr JlBtData 0) 2 stack3 world0
        = Done 2 w'
        ∧ jl_bt_data (mem world0) = [7; 7; 7]
        ∧ jl_bt_data (mem w') = [100; 101; 7]
        ∧ ¬ same_snapshot world0 w'.
Proof.
  eexists. split; [reflexivity|]. split; [reflexivity|]. split; [reflexivity|].
  intros [_ Hd]. discriminate Hd.
Qed.

(** The disabled backend. *)
Lemma capture_without_backend_witness :
  rec_backtrace_ctx (B := disabled_backend unit unit) (Ptr (Buf 0) 0) 4 tt world0
  = Done 0 world0
  ∧ captured 2 true []
      (jl_backtrace_from_here (B := disabled_backend unit unit) 0 1 tt true world0).
Proof.
  destruct (capture_without_backend (B := disabled_backend unit unit) 0
              (Ptr (Buf 0) 0) 4 tt 1 true world0) as (H1 & _ & H3 & _).
  - reflexivity.
  - split; [exact H1|exact H3].
Defined.

(** The snapshot of two addresses. *)
Lemma jl_get_backtrace_copy_witness :
  ∃ w', jl_get_backtrace (B := backend) 0 snapshot_world = Done (JlArray 0) w'
        ∧ bufs (mem w') !! 0%nat = Some [4097; 8193]
        ∧ same_snapshot snapshot_world w'.
Proof.
  destruct (jl_get_backtrace_copy (B := backend) 0 snapshot_world)
    as (w' & E & _ & Hc & _ & Hs & _).
  - simpl. lia.
  - discriminate.
  - exists w'. split; [exact E|]. split; [exact Hc|exact Hs].
Defined.

(** C5: for the address without a name the line of the descriptor is the
    line the service gave, -1, and not the address. *)
Lemma jl_lookup_code_address_line_not_address :
  jl_lookup_code_address (B := backend) EmptyString code_info 12288 0
  = JlSvec [JlSvec [JlSymbol EmptyString; JlSymbol EmptyString; JlLong (-1);
                    JlNothing; JlBool true; JlBool false; JlLong 12288]]
  ∧ JlLong (-1) ≠ JlLong 12288.
Proof. split; [reflexivity|discriminate]. Qed.

(** Printing the snapshot of two addresses. *)
Lemma jlbacktrace_lines_witness :
  jlbacktrace (B := backend) "lu" code_info snapshot_world
  = Done tt (add_console
               [Printf (fmt_known_line "lu")
                  [ArgStr (Some "outer"%string); ArgStr (Some "a.jl"%string);
                   ArgUPtr 3]] snapshot_world).
Proof.
  destruct (jlbacktrace_lines (B := backend) "lu" code_info snapshot_world)
    as [E _].
  - simpl. lia.
  - exact E.
Defined.

(** C6: two addresses are stored and one line is printed: nothing for the
    address the service knows nothing about, and the inlined frame at
    the other address is not expanded. *)
Lemma jlbacktrace_not_one_line_per_address :
  ∃ w', jlbacktrace (B := backend) "lu" code_info snapshot_world = Done tt w'
        ∧ console w'
          = [Printf (fmt_known_line "lu")
               [ArgStr (Some "outer"%string); ArgStr (Some "a.jl"%string);
                ArgUPtr 3]]
        ∧ code_info 8192 0 1 = []
        ∧ length (code_info 4096 0 0) = 2%nat
        ∧ length (console w') ≠ N.to_nat (jl_bt_size snapshot_world).
Proof.
  eexists. split; [reflexivity|]. split; [reflexivity|]. split; [reflexivity|].
  split; [reflexivity|]. simpl. lia.
Qed.

(** The callbacks inside and outside a stack walk. *)
Lemma resolution_callbacks_guard_witness :
  (JuliaFunctionTableAccess64 true unit rtl_nothing sym 1 16 static0
     walking_world).1.1 = 0
  ∧ (JuliaGetModuleBase64 true unit rtl_nothing sym no_unwind_info 1 16 static0
       world0).1.1 = 9.
Proof.
  destruct (resolution_callbacks_guard unit rtl_nothing sym sym no_unwind_info
              1 16 static0 walking_world) as [Hset _].
  destruct (resolution_callbacks_guard unit rtl_nothing sym sym no_unwind_info
              1 16 static0 world0) as [_ Hclear].
  split.
  - destruct (Hset eq_refl) as (E & _). exact E.
  - destruct (Hclear eq_refl eq_refl) as (_ & E & _). exact E.
Defined.

(** C9: inside a stack walk the 64-bit callback still returns the entry
    that RtlLookupFunctionEntry finds, which is not 0; and the callback of
    the 32-bit build calls into the debug-help library all the same. *)
Lemma resolution_callback_inside_walk :
  jl_in_stackwalk walking_world = true
  ∧ (JuliaFunctionTableAccess64 true unit rtl_found sym 1 16 static0
       walking_world).1.1 = 5
  ∧ (JuliaFunctionTableAccess64 true unit rtl_found sym 1 16 static0
       walking_world).1.1 ≠ 0
  ∧ dbghelp_calls unit
      (JuliaFunctionTableAccess64 false unit rtl_found sym 1 16 static0
         walking_world).1.2
    = [DbgCall FnSymFunctionTableAccess64 16 true].
Proof.
  split; [reflexivity|]. split; [reflexivity|]. split; [discriminate|reflexivity].
Qed.

End Examples.

(** ** Examples for the further properties *)

Section FurtherExamples.
Import Synthetic.

Local Existing Instance backend.

Lemma room_world0 (a : nat) :
  (a < 2)%nat -> room (Ptr (Buf a) 0) (N.to_nat 4) (mem world0).
Proof.
  intros Ha. destruct a as [|[|a]]; [| |lia];
    (eexists; split; [reflexivity|simpl; lia]).
Defined.

(** The stepping loop returns on the stack whose fourth frame cannot be
    read, with both buffers in use. *)
Lemma jl_unw_stepn_returns_witness :
  ∃ n c' m',
    jl_unw_stepn (B := backend) corrupt_stack (Ptr (Buf 0) 0)
      (Some (Ptr (Buf 1) 0)) 4 world0
    = Done (n, c') (set_mem m' world0)
    ∧ n <= 4 + 1.
Proof.
  apply (jl_unw_stepn_returns (B := backend)).
  - reflexivity.
  - vm_compute. discriminate.
  - apply room_world0. lia.
  - apply room_world0. lia.
Defined.

(** The walk of the three-frame stack into the first buffer leaves the
    second one alone. *)
Lemma jl_unw_stepn_confined_witness :
  ∃ w', jl_unw_stepn (B := backend) stack3 (Ptr (Buf 0) 0) None 4 world0
        = Done (3, []) w'
        ∧ load (Ptr (Buf 1) 2) (mem w') = load (Ptr (Buf 1) 2) (mem world0).
Proof.
  eexists. split; [reflexivity|].
  refine (proj1 (proj2 (proj2
            (jl_unw_stepn_confined (B := backend) stack3 [] (Ptr (Buf 0) 0)
               None 4 3 world0 _ eq_refl))) (Ptr (Buf 1) 2) _).
  split; [|exact I]. intros [Hb _]. discriminate Hb.
Defined.

(** Bounded capture of the stack whose fourth frame cannot be read. *)
Lemma rec_backtrace_ctx_safe_witness :
  ∃ n m',
    rec_backtrace_ctx (B := backend) (Ptr (Buf 0) 0) 4 corrupt_stack world0
    = Done n (set_mem m' world0)
    ∧ n <= 4
    ∧ same_sizes (mem world0) m'
    ∧ ∀ q, ¬ in_range (Ptr (Buf 0) 0) (N.to_nat 4) q ->
           load q m' = load q (mem world0).
Proof.
  apply (rec_backtrace_ctx_safe (B := backend)).
  - reflexivity.
  - vm_compute. discriminate.
  - apply room_world0. lia.
Defined.

(** A capacity of 0 on the three-frame stack. *)
Lemma zero_capacity_witness :
  jl_unw_stepn (B := backend) stack3 (Ptr (Buf 0) 0) None 0 world0
  = Done (1, stack3) world0
  ∧ rec_backtrace_ctx (B := backend) (Ptr (Buf 1) 0) 0 stack3 world0
    = Done 0 world0.
Proof.
  destruct (zero_capacity (B := backend) stack3 (Ptr (Buf 0) 0) (Ptr (Buf 1) 0)
              None stack3 world0) as [Hn Hr].
  split.
  - apply Hn. reflexivity.
  - apply Hr. reflexivity.
Defined.

(** Growable capture, with stack pointers, of the stack whose fourth
    frame cannot be read. *)
Lemma jl_backtrace_from_here_safe_witness :
  match jl_backtrace_from_here (B := backend) 0 1 corrupt_stack true world0 with
  | Done v w' =>
      v = jl_svec2 (JlArray 2) (JlArray 3)
      ∧ ∃ L, jl_array_len 2 w' = Some L
             ∧ (true = true -> jl_array_len 3 w' = Some L)
  | Crash => False
  | Timeout => True
  end.
Proof.
  apply (jl_backtrace_from_here_safe (B := backend) 0 1 corrupt_stack true world0).
  reflexivity.
Defined.

(** The fault at the third call: of the two frames collected, one is
    returned. *)
Lemma jl_backtrace_from_here_fault_witness :
  ∃ w',
    jl_backtrace_from_here (B := backend) 0 1 corrupt_stack true world0
    = Done (jl_svec2 (JlArray 2) (JlArray 3)) w'
    ∧ bufs (mem w') !! 2%nat = Some [100]
    ∧ (true = true -> bufs (mem w') !! 3%nat = Some [200]).
Proof.
  apply (jl_backtrace_from_here_fault (B := backend) 0 0 corrupt_stack true
           world0 corrupt_stack [Valid 102 202; Unmapped]
           [Valid 102 202; Unmapped] [(100, 200); (101, 201)]
           (Some 102) (Some 202)).
  - reflexivity.
  - reflexivity.
  - exact steps_corrupt_stack.
  - reflexivity.
  - simpl. lia.
Defined.

(** A pending refresh is run once, with the flag set. *)
Lemma jl_unw_init_win64_once_witness :
  (jl_unw_init_win64 unit context64 refresh_pending world0).1.1 = Some context64
  ∧ (jl_unw_init_win64 unit context64 refresh_pending world0).2 = world0.
Proof.
  pose proof (jl_unw_init_win64_once unit context64 refresh_pending world0)
    as (H1 & H2 & _).
  exact (conj H1 H2).
Defined.

(** Inside a walk the 32-bit initialisation gives up; outside it leaves
    the flag cleared. *)
Lemma jl_unw_init_win32_flag_witness :
  jl_unw_init_win32 unit unit unit 3 tt stack_walk context32 refresh_pending
    static0 walking_world
  = (None, refresh_pending, static0, walking_world)
  ∧ jl_in_stackwalk
      (jl_unw_init_win32 unit unit unit 3 tt stack_walk context32
         refresh_pending static0 world0).2 = false.
Proof.
  split.
  - refine (proj1 (proj2 (jl_unw_init_win32_flag unit unit unit 3 tt stack_walk
                            context32 refresh_pending static0 walking_world))
              _).
    reflexivity.
  - exact (proj1 (jl_unw_init_win32_flag unit unit unit 3 tt stack_walk
                    context32 refresh_pending static0 world0)).
Defined.

(** A step of the 64-bit backend where no lookup finds anything. *)
Lemma jl_unw_step_win64_invariants_witness :
  (jl_unw_step_win64 unit unit rtl_nothing sym sym no_unwind_info 0
     virtual_query zeros virtual_unwind 1 2 4 8 32 256 context64 static0
     world0).2 = world0.
Proof.
  exact (proj1 (jl_unw_step_win64_invariants unit unit rtl_nothing sym sym
                  no_unwind_info 0 virtual_query zeros virtual_unwind
                  1 2 4 8 32 256 context64 static0 world0)).
Defined.

(** A hit in a coherent cache. *)
Lemma JuliaGetModuleBase64_cache_witness :
  (JuliaGetModuleBase64 false unit rtl_nothing sym unwind_info 0 4096 cached
     world0).1.1 = 7.
Proof.
  refine (proj1 (JuliaGetModuleBase64_cache unit rtl_nothing sym unwind_info
                    0 4096 cached world0 _)).
  left. split; [reflexivity|discriminate].
Defined.

(** The two steps into the three-frame stack store complete frames. *)
Lemma libunwind_steps_complete_witness :
  ∃ fs', [(Some 100, Some 200); (Some 101, Some 201)] = full fs'
         ∧ Forall (λ f : N * N, f.1 < 2 ^ bits W64 ∧ f.2 < 2 ^ bits W64) fs'.
Proof.
  apply (proj1 (libunwind_steps_complete W64 true (list frame) (list frame)
                  Synthetic.unw_init_local Synthetic.unw_get_reg
                  Synthetic.unw_step)
           stack3 [Valid 102 202]).
  exact steps_stack3.
Defined.

(** The DWARF variant on the three-frame stack, with room for two. *)
Lemma rec_backtrace_ctx_dwarf_sense_witness :
  ∃ m',
    rec_backtrace_ctx_dwarf W64 true (list frame) (list frame)
      Synthetic.unw_init_local Synthetic.unw_get_reg Synthetic.unw_step
      Synthetic.unw_init_local_dwarf (Ptr (Buf 0) 0) 2 stack3 world0
    = Done 2 (set_mem m' world0)
    ∧ block_data (Buf 0) m' = Some [100; 101; 9; 9].
Proof.
  apply (proj2 (rec_backtrace_ctx_dwarf_sense W64 true (list frame) (list frame)
                  Synthetic.unw_init_local Synthetic.unw_get_reg
                  Synthetic.unw_step Synthetic.unw_init_local_dwarf
                  (Ptr (Buf 0) 0) 2 stack3 world0 frames3 [9; 9; 9; 9]
                  eq_refl eq_refl ltac:(simpl; lia))).
  - discriminate.
  - exact walk_stack3.
Defined.

(** The three-frame stack captured into jl_bt_data with room for two. *)
Lemma snapshot_round_trip_witness :
  ∃ n w1,
    rec_backtrace_ctx (B := backend) (Ptr JlBtData 0) 2 stack3 world0 = Done n w1
    ∧ (∃ w2, jl_get_backtrace (B := backend) 0 (set_bt_size n w1)
             = Done (JlArray 2) w2
             ∧ bufs (mem w2) !! 2%nat = Some [100; 101])
    ∧ jlbacktrace (B := backend) "lu" code_info (set_bt_size n w1)
      = Done tt (add_console
                   (backtrace_lines (B := backend) "lu" code_info [100; 101])
                   (set_bt_size n w1)).
Proof.
  apply (snapshot_round_trip (B := backend) 0 "lu" code_info 2 stack3 world0
           frames3).
  - reflexivity.
  - reflexivity.
  - vm_compute. discriminate.
  - exact walk_stack3.
  - simpl. lia.
Defined.

(** The descriptors of the address 4096. *)
Lemma jl_lookup_code_address_filled_witness :
  ∃ ds : list (list jl_value_t),
    jl_lookup_code_address (B := backend) EmptyString code_info 4096 0
    = JlSvec (JlSvec <$> ds)
    ∧ length ds = 2%nat.
Proof.
  destruct (jl_lookup_code_address_filled (B := backend) EmptyString code_info
              4096 0) as (ds & E & Hds).
  - vm_compute. discriminate.
  - exists ds. split; [exact E|]. exact (Forall2_length _ _ _ Hds).
Defined.

End FurtherExamples.
